(** * quick_tag: name classification, attachment resolution, name suggestion,
      listing, selection, tag application, undo and the command

    A shallow embedding of [main.go] of bevelwork/quick_tag.  Go strings are
    byte sequences and are modelled by [string].  White space is Unicode's,
    as in Go: [strings.Fields] and [strings.TrimSpace] decode the bytes as
    UTF-8 and test each rune with [unicode.IsSpace].  [strings.ToLower] is
    modelled on the letters [A-Z], which it maps to [a-z]: the program only
    tests its result against keywords of ASCII letters, and the only runes
    beyond ASCII that Go maps to ASCII letters are U+0130, to [i], and
    U+212A, to [k]; of the keywords only [elasticache] holds one of these
    letters, and it is tested together with [cache].  Provider maps
    ([map[string]string], [map[string]bool]) are [gmap]s and [gset]s. *)

From Stdlib Require Import Ascii NArith.
From stdpp Require Import gmap strings list pretty sorting.

Local Open Scope char_scope.
Local Open Scope stdpp_scope.

(** ** Go's [unicode/utf8] and [unicode] packages, as far as [strings] uses them

    A rune is its code point, a number. *)

Module utf8.

(** [utf8.RuneError] *)
Definition RuneError : N := 0xFFFD.

(** The table [first] with [acceptRanges], for a first byte from [0x80] on:
    the size of the encoding that the byte announces and the range in which
    the second byte has to lie, or [None] for a byte that starts no encoding *)
Definition first (s0 : N) : option (nat * N * N) :=
  if (s0 <? 0xC2)%N then None
  else if (s0 <=? 0xDF)%N then Some (2, 0x80%N, 0xBF%N)
  else if (s0 =? 0xE0)%N then Some (3, 0xA0%N, 0xBF%N)
  else if (s0 <=? 0xEC)%N then Some (3, 0x80%N, 0xBF%N)
  else if (s0 =? 0xED)%N then Some (3, 0x80%N, 0x9F%N)
  else if (s0 <=? 0xEF)%N then Some (3, 0x80%N, 0xBF%N)
  else if (s0 =? 0xF0)%N then Some (4, 0x90%N, 0xBF%N)
  else if (s0 <=? 0xF3)%N then Some (4, 0x80%N, 0xBF%N)
  else if (s0 =? 0xF4)%N then Some (4, 0x80%N, 0x8F%N)
  else None.

(** A byte outside [lo..hi] *)
Definition outside (lo hi b : N) : bool := (b <? lo)%N || (hi <? b)%N.

(** [utf8.DecodeRuneInString(s)]: the first rune of [s] and its width in
    bytes; a byte that starts no valid encoding is [RuneError] of width 1 *)
Definition DecodeRuneInString (s : string) : N * nat :=
  match s with
  | EmptyString => (RuneError, 0)
  | String c0 s =>
      let s0 := N_of_ascii c0 in
      if (s0 <? 0x80)%N then (s0, 1)
      else
        match first s0, s with
        | Some (sz, lo, hi), String c1 s =>
            let s1 := N_of_ascii c1 in
            if outside lo hi s1 then (RuneError, 1)
            else if bool_decide (sz ≤ 2) then
              (N.lor (N.shiftl (N.land s0 0x1F) 6) (N.land s1 0x3F), 2)
            else
              match s with
              | String c2 s =>
                  let s2 := N_of_ascii c2 in
                  if outside 0x80 0xBF s2 then (RuneError, 1)
                  else if bool_decide (sz ≤ 3) then
                    (N.lor (N.lor (N.shiftl (N.land s0 0x0F) 12)
                                  (N.shiftl (N.land s1 0x3F) 6))
                           (N.land s2 0x3F), 3)
                  else
                    match s with
                    | String c3 _ =>
                        let s3 := N_of_ascii c3 in
                        if outside 0x80 0xBF s3 then (RuneError, 1)
                        else
                          (N.lor (N.lor (N.lor (N.shiftl (N.land s0 0x07) 18)
                                               (N.shiftl (N.land s1 0x3F) 12))
                                        (N.shiftl (N.land s2 0x3F) 6))
                                 (N.land s3 0x3F), 4)
                    | EmptyString => (RuneError, 1)
                    end
              | EmptyString => (RuneError, 1)
              end
        | _, _ => (RuneError, 1)
        end
  end.

End utf8.

Module unicode.

(** [unicode.IsSpace(r)]: the white space of Latin-1, and the code points
    with the property [White_Space] beyond it *)
Definition IsSpace (r : N) : bool :=
  if (r <=? 0xFF)%N then
    bool_decide (r ∈ [0x09; 0x0A; 0x0B; 0x0C; 0x0D; 0x20; 0x85; 0xA0]%N)
  else
    bool_decide (r = 0x1680%N)
    || (0x2000 <=? r)%N && (r <=? 0x200A)%N
    || (0x2028 <=? r)%N && (r <=? 0x2029)%N
    || bool_decide (r = 0x202F%N)
    || bool_decide (r = 0x205F%N)
    || bool_decide (r = 0x3000%N).

End unicode.

(** ** Go's [strings] package, as far as [main.go] uses it *)

Module strings.

(** [strings.HasPrefix(s, prefix)] *)
Fixpoint HasPrefix (s prefix : string) {struct prefix} : bool :=
  match prefix, s with
  | EmptyString, _ => true
  | String p prefix', String c s' => bool_decide (c = p) && HasPrefix s' prefix'
  | String _ _, EmptyString => false
  end.

(** [s[n:]] for [n <= len(s)] *)
Fixpoint drop (n : nat) (s : string) : string :=
  match n, s with
  | O, _ => s
  | S n', String _ s' => drop n' s'
  | S _, EmptyString => EmptyString
  end.

(** [s[:n]] for [n <= len(s)] *)
Fixpoint take (n : nat) (s : string) : string :=
  match n, s with
  | S n', String c s' => String c (take n' s')
  | _, _ => EmptyString
  end.

(** [for _, r := range s]: the runes of [s] in order, each with the bytes
    that encode it; [skip] bytes of the rune before are still to pass *)
Fixpoint range (skip : nat) (s : string) : list (N * string) :=
  match s with
  | EmptyString => []
  | String _ s' =>
      match skip with
      | S skip' => range skip' s'
      | O =>
          let '(r, size) := utf8.DecodeRuneInString s in
          (r, take size s) :: range (size - 1) s'
      end
  end.

(** [strings.HasSuffix(s, suffix)]:
    [len(s) >= len(suffix) && s[len(s)-len(suffix):] == suffix] *)
Definition HasSuffix (s suffix : string) : bool :=
  bool_decide (String.length suffix ≤ String.length s)
  && bool_decide (drop (String.length s - String.length suffix) s = suffix).

(** [strings.Contains(s, substr)] *)
Fixpoint Contains (s substr : string) : bool :=
  HasPrefix s substr
  || match s with
     | EmptyString => false
     | String _ s' => Contains s' substr
     end.

(** [strings.TrimPrefix(s, prefix)] *)
Definition TrimPrefix (s prefix : string) : string :=
  if HasPrefix s prefix then drop (String.length prefix) s else s.

Definition lower (c : ascii) : ascii :=
  let n := nat_of_ascii c in
  if bool_decide (65 ≤ n) && bool_decide (n ≤ 90) then ascii_of_nat (n + 32) else c.

(** [strings.ToLower(s)] *)
Fixpoint ToLower (s : string) : string :=
  match s with
  | EmptyString => EmptyString
  | String c s' => String (lower c) (ToLower s')
  end.

(** [strings.Fields(s)], which is [strings.FieldsFunc(s, unicode.IsSpace)]:
    the loop over the runes, where [field] holds the bytes of the field that
    is open, if one is *)
Fixpoint Fields_loop (runes : list (N * string)) (field : option string) : list string :=
  match runes with
  | [] => match field with Some f => [f] | None => [] end
  | (r, bytes) :: runes' =>
      if unicode.IsSpace r then
        match field with
        | Some f => f :: Fields_loop runes' None
        | None => Fields_loop runes' None
        end
      else Fields_loop runes' (Some (default EmptyString field +:+ bytes))
  end.

Definition Fields (s : string) : list string := Fields_loop (range 0 s) None.

(** The runes that are left when the white space at the front is dropped *)
Fixpoint TrimLeft (runes : list (N * string)) : list (N * string) :=
  match runes with
  | (r, bytes) :: runes' => if unicode.IsSpace r then TrimLeft runes' else runes
  | [] => []
  end.

(** [strings.TrimSpace(s)]: [s] without the white space at its two ends *)
Definition TrimSpace (s : string) : string :=
  String.concat EmptyString (snd <$> rev (TrimLeft (rev (TrimLeft (range 0 s))))).

(** [strings.Cut(s, sep)]: the text before and after the first [sep] *)
Fixpoint Cut (s sep : string) : option (string * string) :=
  if HasPrefix s sep then Some (EmptyString, drop (String.length sep) s)
  else match s with
       | EmptyString => None
       | String c s' =>
           match Cut s' sep with
           | Some (before, after) => Some (String c before, after)
           | None => None
           end
       end.

(** [strings.SplitN(s, sep, n)] for a non-empty [sep] and [n >= 0]: at most
    [n] pieces, the last one being the unsplit remainder *)
Fixpoint SplitN (s sep : string) (n : nat) : list string :=
  match n with
  | O => []
  | S O => [s]
  | S n' =>
      match Cut s sep with
      | Some (before, after) => before :: SplitN after sep n'
      | None => [s]
      end
  end.

(** [strings.Split(s, sep)] for a non-empty [sep]: Go caps the number of
    pieces at [len(s) + 1] *)
Definition Split (s sep : string) : list string :=
  SplitN s sep (S (String.length s)).

End strings.

(** ** Name-pattern classifier *)

(** [isQuickTagCreatedName] *)
Definition isQuickTagCreatedName (name resourceType : string) : bool :=
  if bool_decide (resourceType = "instance") then
    strings.HasPrefix name "instance-ami-"
    || strings.HasPrefix name "unknown-instance"
  else if bool_decide (resourceType = "volume") then
    bool_decide (name = "unattached")
    || strings.HasPrefix name "unattached-"
    || strings.HasPrefix name "unknown-"
  else if bool_decide (resourceType = "eni") then
    bool_decide (name = "unattached-eni")
    || strings.HasPrefix name "service-" && strings.HasSuffix name "-eni"
    || strings.HasPrefix name "attached-" && strings.HasSuffix name "-eni"
    || strings.HasPrefix name "lambda-" && strings.HasSuffix name "-eni"
    || strings.HasPrefix name "rds-" && strings.HasSuffix name "-eni"
    || strings.HasPrefix name "elasticache-" && strings.HasSuffix name "-eni"
    || strings.HasPrefix name "elb-" && strings.HasSuffix name "-eni"
    || strings.HasPrefix name "nat-" && strings.HasSuffix name "-eni"
    || strings.HasPrefix name "rds-eni-attach-"
    || strings.HasPrefix name "elasticache-eni-attach-"
    || strings.HasPrefix name "elb-eni-attach-"
    || strings.HasPrefix name "lambda-eni-attach-"
    || strings.HasPrefix name "nat-eni-attach-"
    || strings.HasPrefix name "service-eni-attach-"
    || strings.HasPrefix name "rds-ela-attach-"
    || strings.HasPrefix name "elasticache-ela-attach-"
    || strings.HasPrefix name "elb-ela-attach-"
    || strings.HasPrefix name "lambda-ela-attach-"
    || strings.HasPrefix name "nat-ela-attach-"
    || strings.HasPrefix name "service-ela-attach-"
    || strings.Contains name "-attach-" && strings.HasSuffix name "-eni"
    || strings.HasPrefix name "eni-"
       && bool_decide (21 ≤ String.length name) && bool_decide (String.length name ≤ 25)
    || bool_decide (name = "")
    || strings.HasPrefix name "Network interface"
    || strings.Contains name "primary" && strings.Contains name "interface"
  else false.

(** [isQuickTagNameStillValid] *)
Definition isQuickTagNameStillValid (name resourceType currentState extraInfo : string) : bool :=
  if negb (isQuickTagCreatedName name resourceType) then true
  else if bool_decide (resourceType = "instance") then true
  else if bool_decide (resourceType = "volume") then
    if bool_decide (name = "unattached") then
      bool_decide (currentState = "available") || bool_decide (extraInfo = "unattached")
    else if strings.HasPrefix name "unattached-" then
      bool_decide (currentState = "available") || bool_decide (extraInfo = "unattached")
    else true
  else if bool_decide (resourceType = "eni") then
    if bool_decide (name = "unattached-eni") then bool_decide (extraInfo = "unattached")
    else if strings.HasPrefix name "unattached-" then bool_decide (extraInfo = "unattached")
    else if strings.Contains name "-eni" then bool_decide (extraInfo ≠ "unattached")
    else true
  else true.

(** [isGenericName] *)
Definition isGenericName (name resourceType : string) : bool :=
  isQuickTagCreatedName name resourceType.

(** ** Results of fallible code

    A Go function that returns [(T, error)] yields [Ok] or [Err]; dereferencing
    a nil pointer is [Panic]. *)

Inductive result (A : Type) : Type :=
  | Ok (a : A)
  | Err (e : string)
  | Panic.
Global Arguments Ok {A} a.
Global Arguments Err {A} e.
Global Arguments Panic {A}.

Global Instance result_ret : MRet result := λ A a, Ok a.
Global Instance result_bind : MBind result := λ A B f m,
  match m with
  | Ok a => f a
  | Err e => Err e
  | Panic => Panic
  end.

(** [*p] *)
Definition deref {A : Type} (p : option A) : result A :=
  match p with
  | Some a => Ok a
  | None => Panic
  end.

(** A [for _, x := range l] loop whose body may return early with an error *)
Fixpoint foldM {A B : Type} (f : B → A → result B) (b : B) (l : list A) : result B :=
  match l with
  | [] => Ok b
  | x :: l' => b' ← f b x; foldM f b' l'
  end.

(** ** Data model *)

(** [ResourceInfo]; the field [Type] is spelled [Type_] *)
Record ResourceInfo : Type := {
  ID : string;
  Type_ : string;
  Name : string;
  SuggestedName : string;
  State : string;
  Extra : string;
}.

(** The records of the EC2 SDK ([types.Tag], [types.Instance], ...), with the
    fields the program reads; a [*string] is an [option string]. *)
Module Tag.
Record t : Type := { Key : option string; Value : option string }.
End Tag.

Module Instance.
Record t : Type := {
  InstanceId : option string;
  ImageId : option string;
  StateName : string;
  Tags : list Tag.t;
}.
End Instance.

Module Reservation.
Record t : Type := { Instances : list Instance.t }.
End Reservation.

Module Image.
Record t : Type := { ImageId : option string; Name : option string }.
End Image.

Module VolumeAttachment.
Record t : Type := { Device : option string; InstanceId : option string }.
End VolumeAttachment.

Module Volume.
Record t : Type := {
  VolumeId : option string;
  State : string;
  Attachments : list VolumeAttachment.t;
  Tags : list Tag.t;
}.
End Volume.

Module NetworkInterfaceAttachment.
Record t : Type := { InstanceId : option string; AttachmentId : option string }.
End NetworkInterfaceAttachment.

Module NetworkInterface.
Record t : Type := {
  NetworkInterfaceId : option string;
  Status : string;
  Description : option string;
  Attachment : option NetworkInterfaceAttachment.t;
  TagSet : list Tag.t;
}.
End NetworkInterface.

(** The EC2 client ([ec2.Client]): what the provider answers to each request.
    A paginator is the list of its pages; [CreateTags resource value] is the
    error of the request, if any. *)
Module ec2.
Record Client : Type := {
  DescribeInstancesPages : list (result (list Reservation.t));
  DescribeVolumesPages : list (result (list Volume.t));
  DescribeNetworkInterfacesPages : list (result (list NetworkInterface.t));
  DescribeImages : list string → result (list Image.t);
  DescribeInstances : list string → result (list Reservation.t);
  DescribeVolumes : list string → result (list Volume.t);
  CreateTags : string → string → option string;
}.
End ec2.

(** [Config] *)
Record Config : Type := {
  EC2Client : ec2.Client;
  Region : string;
  PrivateMode : bool;
}.

(** ** Attachment resolver *)

(** [getVolumeMountPoint] *)
Definition getVolumeMountPoint (volume : Volume.t) : string :=
  match Volume.Attachments volume with
  | [] => "unattached"
  | attachment :: _ =>
      match VolumeAttachment.Device attachment with
      | Some device => device
      | None => "unknown"
      end
  end.

(** [extractELBName]: the loop over [parts], at index [i] with [parts[i:]] left *)
Fixpoint extractELBName_loop (parts : list string) : string :=
  match parts with
  | [] => ""
  | part :: rest =>
      match rest with
      | elbPart :: _ =>
          if bool_decide (strings.ToLower part = "elb") then
            let elbParts := strings.Split elbPart "/" in
            if bool_decide (2 ≤ length elbParts) then default "" (elbParts !! 1)
            else extractELBName_loop rest
          else extractELBName_loop rest
      | [] => extractELBName_loop rest
      end
  end.

Definition extractELBName (description : string) : string :=
  extractELBName_loop (strings.Fields description).

(** [getENIAttachmentInfo] *)
Definition getENIAttachmentInfo (eni : NetworkInterface.t) : string :=
  match NetworkInterface.Attachment eni with
  | None => "unattached"
  | Some attachment =>
      match NetworkInterfaceAttachment.InstanceId attachment with
      | Some instanceId => "attached-to-" +:+ instanceId
      | None =>
          match NetworkInterfaceAttachment.AttachmentId attachment with
          | Some attachmentId =>
              let generic (attachmentType : string) :=
                "attached-" +:+ attachmentType +:+ "-" +:+ attachmentId in
              match NetworkInterface.Description eni with
              | None => generic "service"
              | Some description =>
                  let desc := strings.ToLower description in
                  if strings.Contains desc "lambda" then generic "lambda"
                  else if strings.Contains desc "rds" then generic "rds"
                  else if strings.Contains desc "elasticache" || strings.Contains desc "cache"
                  then generic "elasticache"
                  else if strings.Contains desc "elb" || strings.Contains desc "load balancer"
                  then
                    let elbName := extractELBName description in
                    if bool_decide (elbName ≠ "") then "attached-elb-" +:+ elbName
                    else generic "elb"
                  else if strings.Contains desc "nat" then generic "nat"
                  else generic "service"
              end
          | None => "attached-unknown"
          end
      end
  end.

(** ** Scan orchestrator and name suggestion engine *)

(** The loop that looks for the [Name] tag: [(hasNameTag, currentName)] *)
Fixpoint findNameTag (tags : list Tag.t) : bool * string :=
  match tags with
  | [] => (false, "")
  | tag :: rest =>
      match Tag.Key tag, Tag.Value tag with
      | Some key, Some value =>
          if bool_decide (key = "Name") then (true, value) else findNameTag rest
      | _, _ => findNameTag rest
      end
  end.

Definition withSuggestedName (r : ResourceInfo) (suggestedName : string) : ResourceInfo :=
  {| ID := ID r; Type_ := Type_ r; Name := Name r; SuggestedName := suggestedName;
     State := State r; Extra := Extra r |}.

Definition withExtra (r : ResourceInfo) (extra : string) : ResourceInfo :=
  {| ID := ID r; Type_ := Type_ r; Name := Name r; SuggestedName := SuggestedName r;
     State := State r; Extra := extra |}.

(** [for i := 0; i < len(ids); i += batchSize { batch := ids[i:min(i+batchSize, len(ids))] }] *)
Fixpoint batches_loop (fuel batchSize : nat) (ids : list string) : list (list string) :=
  match fuel, ids with
  | S fuel', _ :: _ => take batchSize ids :: batches_loop fuel' batchSize (drop batchSize ids)
  | _, _ => []
  end.

Definition batches (batchSize : nat) (ids : list string) : list (list string) :=
  batches_loop (length ids) batchSize ids.

Section Scan.

(** The order in which [range] visits the keys of a Go map, which the language
    leaves unspecified. *)
Variable rangeKeys : gset string → list string.

Variable config : Config.

(** [getAMINames] *)
Definition getAMINames (amiIDs : gset string) : result (gmap string string) :=
  if bool_decide (size amiIDs = 0) then Ok ∅
  else
    let amiIDSlice := rangeKeys amiIDs in
    foldM (λ (amiNames : gmap string string) batch,
             output ← ec2.DescribeImages (EC2Client config) batch;
             Ok (foldl (λ (names : gmap string string) image,
                          match Image.ImageId image, Image.Name image with
                          | Some imageId, Some name => <[imageId := name]> names
                          | _, _ => names
                          end) amiNames output))
          ∅ (batches 200 amiIDSlice).

(** The body of the loop over the instances of one [DescribeInstances] answer,
    shared by [getInstanceNames] and [getAttachmentNames] *)
Definition recordInstanceName (instanceNames : gmap string string) (instance : Instance.t)
    : gmap string string :=
  match Instance.InstanceId instance with
  | Some instanceId =>
      let '(hasNameTag, value) := findNameTag (Instance.Tags instance) in
      let instanceNames := if hasNameTag then <[instanceId := value]> instanceNames
                           else instanceNames in
      match instanceNames !! instanceId with
      | Some _ => instanceNames
      | None => <[instanceId := instanceId]> instanceNames
      end
  | None => instanceNames
  end.

(** [getInstanceNames] *)
Definition getInstanceNames (instanceIDs : gset string) : result (gmap string string) :=
  if bool_decide (size instanceIDs = 0) then Ok ∅
  else
    let instanceIDSlice := rangeKeys instanceIDs in
    foldM (λ (instanceNames : gmap string string) batch,
             output ← ec2.DescribeInstances (EC2Client config) batch;
             Ok (foldl (λ names reservation,
                          foldl recordInstanceName names (Reservation.Instances reservation))
                       instanceNames output))
          ∅ (batches 1000 instanceIDSlice).

(** [getAttachmentNames] *)
Definition getAttachmentNames (attachmentIDs : gset string) : result (gmap string string) :=
  if bool_decide (size attachmentIDs = 0) then Ok ∅
  else
    let attachmentIDSlice := rangeKeys attachmentIDs in
    foldM (λ (instanceNames : gmap string string) batch,
             output ← ec2.DescribeInstances (EC2Client config) batch;
             Ok (foldl (λ names reservation,
                          foldl recordInstanceName names (Reservation.Instances reservation))
                       instanceNames output))
          ∅ (batches 1000 attachmentIDSlice).

(** [getVolumeInstanceID] *)
Definition getVolumeInstanceID (volumeID : string) : string :=
  match ec2.DescribeVolumes (EC2Client config) [volumeID] with
  | Ok (volume :: _) =>
      match Volume.Attachments volume with
      | [] => ""
      | attachment :: _ => default "" (VolumeAttachment.InstanceId attachment)
      end
  | _ => ""
  end.

(** *** Instances *)

(** [needsTagging] of [findUntaggedInstances]; [*instance.ImageId] is evaluated
    only when the two conjuncts before it hold *)
Definition instanceNeedsTagging (instance : Instance.t) : result bool :=
  let '(hasNameTag, currentName) := findNameTag (Instance.Tags instance) in
  if negb hasNameTag then Ok true
  else if isQuickTagCreatedName currentName "instance" then
    imageId ← deref (Instance.ImageId instance);
    Ok (negb (isQuickTagNameStillValid currentName "instance"
                (Instance.StateName instance) imageId))
  else Ok false.

(** The body of the loop over the instances of a reservation; the state is
    [(instances, amiIDs)] *)
Definition scanInstance (acc : list ResourceInfo * gset string) (instance : Instance.t)
    : result (list ResourceInfo * gset string) :=
  let '(instances, amiIDs) := acc in
  if bool_decide (Instance.StateName instance = "terminated") then Ok acc
  else
    needsTagging ← instanceNeedsTagging instance;
    match needsTagging, Instance.ImageId instance with
    | true, Some imageId =>
        instanceId ← deref (Instance.InstanceId instance);
        Ok (instances ++ [ {| ID := instanceId; Type_ := "instance";
                              Name := (findNameTag (Instance.Tags instance)).2;
                              SuggestedName := "";
                              State := Instance.StateName instance;
                              Extra := imageId |} ],
            {[ imageId ]} ∪ amiIDs)
    | _, _ => Ok acc
    end.

(** The last loop of [findUntaggedInstances] *)
Definition suggestInstanceName (amiNames : gmap string string) (instance : ResourceInfo)
    : ResourceInfo :=
  match amiNames !! Extra instance with
  | Some amiName => withSuggestedName instance amiName
  | None => withSuggestedName instance ("instance-" +:+ Extra instance)
  end.

(** The paginator loop of [findUntaggedInstances] *)
Definition scanInstances : result (list ResourceInfo * gset string) :=
  foldM (λ acc (page : result (list Reservation.t)),
           match page with
           | Ok output =>
               foldM (λ acc reservation,
                        foldM scanInstance acc (Reservation.Instances reservation))
                     acc output
           | Err e => Err e
           | Panic => Panic
           end)
        ([], ∅) (ec2.DescribeInstancesPages (EC2Client config)).

(** [findUntaggedInstances] *)
Definition findUntaggedInstances : result (list ResourceInfo) :=
  match scanInstances with
  | Ok (instances, amiIDs) =>
      match getAMINames amiIDs with
      | Ok amiNames => Ok (suggestInstanceName amiNames <$> instances)
      | Err e => Err ("failed to get AMI names: " +:+ e)
      | Panic => Panic
      end
  | Err e => Err e
  | Panic => Panic
  end.

(** *** Volumes *)

Definition volumeNeedsTagging (volume : Volume.t) : bool :=
  let '(hasNameTag, currentName) := findNameTag (Volume.Tags volume) in
  negb hasNameTag
  || (hasNameTag && isQuickTagCreatedName currentName "volume"
      && negb (isQuickTagNameStillValid currentName "volume"
                 (Volume.State volume) (getVolumeMountPoint volume))).

(** The body of the loop over the volumes of a page; the state is
    [(volumes, instanceIDs)] *)
Definition scanVolume (acc : list ResourceInfo * gset string) (volume : Volume.t)
    : result (list ResourceInfo * gset string) :=
  let '(volumes, instanceIDs) := acc in
  if volumeNeedsTagging volume then
    let instanceIDs :=
      foldl (λ (ids : gset string) attachment,
               match VolumeAttachment.InstanceId attachment with
               | Some instanceId => {[ instanceId ]} ∪ ids
               | None => ids
               end) instanceIDs (Volume.Attachments volume) in
    volumeId ← deref (Volume.VolumeId volume);
    Ok (volumes ++ [ {| ID := volumeId; Type_ := "volume";
                        Name := (findNameTag (Volume.Tags volume)).2;
                        SuggestedName := "";
                        State := Volume.State volume;
                        Extra := getVolumeMountPoint volume |} ],
        instanceIDs)
  else Ok acc.

(** The last loop of [findUntaggedVolumes] *)
Definition suggestVolumeName (instanceNames : gmap string string) (volume : ResourceInfo)
    : ResourceInfo :=
  let attachedInstanceID := getVolumeInstanceID (ID volume) in
  if bool_decide (attachedInstanceID ≠ "") then
    match instanceNames !! attachedInstanceID with
    | Some instanceName =>
        withSuggestedName volume
          (attachedInstanceID +:+ "(" +:+ instanceName +:+ ") " +:+ Extra volume)
    | None => withSuggestedName volume (attachedInstanceID +:+ " " +:+ Extra volume)
    end
  else withSuggestedName volume "unattached".

(** The paginator loop of [findUntaggedVolumes] *)
Definition scanVolumes : result (list ResourceInfo * gset string) :=
  foldM (λ acc (page : result (list Volume.t)),
           match page with
           | Ok output => foldM scanVolume acc output
           | Err e => Err e
           | Panic => Panic
           end)
        ([], ∅) (ec2.DescribeVolumesPages (EC2Client config)).

(** [findUntaggedVolumes] *)
Definition findUntaggedVolumes : result (list ResourceInfo) :=
  match scanVolumes with
  | Ok (volumes, instanceIDs) =>
      match getInstanceNames instanceIDs with
      | Ok instanceNames => Ok (suggestVolumeName instanceNames <$> volumes)
      | Err e => Err ("failed to get instance names: " +:+ e)
      | Panic => Panic
      end
  | Err e => Err e
  | Panic => Panic
  end.

(** *** Network interfaces *)

Definition eniNeedsTagging (eni : NetworkInterface.t) : bool :=
  let '(hasNameTag, currentName) := findNameTag (NetworkInterface.TagSet eni) in
  negb hasNameTag
  || (hasNameTag && isQuickTagCreatedName currentName "eni"
      && negb (isQuickTagNameStillValid currentName "eni"
                 (NetworkInterface.Status eni) (getENIAttachmentInfo eni))).

(** The body of the loop over the interfaces of a page; the state is
    [(eniList, attachmentIDs)] *)
Definition scanENI (acc : list ResourceInfo * gset string) (eni : NetworkInterface.t)
    : result (list ResourceInfo * gset string) :=
  let '(eniList, attachmentIDs) := acc in
  if eniNeedsTagging eni then
    let attachmentIDs :=
      match NetworkInterface.Attachment eni with
      | Some attachment =>
          match NetworkInterfaceAttachment.InstanceId attachment with
          | Some instanceId => {[ instanceId ]} ∪ attachmentIDs
          | None => attachmentIDs
          end
      | None => attachmentIDs
      end in
    eniId ← deref (NetworkInterface.NetworkInterfaceId eni);
    Ok (eniList ++ [ {| ID := eniId; Type_ := "eni";
                        Name := (findNameTag (NetworkInterface.TagSet eni)).2;
                        SuggestedName := "";
                        State := NetworkInterface.Status eni;
                        Extra := getENIAttachmentInfo eni |} ],
        attachmentIDs)
  else Ok acc.

(** The last loop of [findUntaggedENIs]: it sets [SuggestedName] and rewrites
    [Extra] *)
Definition suggestENIName (attachmentNames : gmap string string) (eni : ResourceInfo)
    : ResourceInfo :=
  if strings.HasPrefix (Extra eni) "attached-to-" then
    let instanceID := strings.TrimPrefix (Extra eni) "attached-to-" in
    match attachmentNames !! instanceID with
    | Some attachmentName =>
        withExtra (withSuggestedName eni (attachmentName +:+ "-eni"))
                  (instanceID +:+ " (" +:+ attachmentName +:+ ")")
    | None => withExtra (withSuggestedName eni (instanceID +:+ "-eni")) instanceID
    end
  else if strings.HasPrefix (Extra eni) "attached-" then
    match strings.SplitN (Extra eni) "-" 3 with
    | _ :: attachmentType :: attachmentID :: _ =>
        if bool_decide (attachmentType = "elb") then
          withExtra (withSuggestedName eni (attachmentID +:+ "-eni"))
                    ("elb-" +:+ attachmentID)
        else
          withExtra (withSuggestedName eni (attachmentType +:+ "-" +:+ attachmentID +:+ "-eni"))
                    (attachmentType +:+ "-attachment-" +:+ attachmentID)
    | _ =>
        let attachmentID := strings.TrimPrefix (Extra eni) "attached-" in
        withExtra (withSuggestedName eni ("service-" +:+ attachmentID +:+ "-eni"))
                  ("service-attachment-" +:+ attachmentID)
    end
  else withExtra (withSuggestedName eni "unattached-eni") "unattached".

(** The paginator loop of [findUntaggedENIs] *)
Definition scanENIs : result (list ResourceInfo * gset string) :=
  foldM (λ acc (page : result (list NetworkInterface.t)),
           match page with
           | Ok output => foldM scanENI acc output
           | Err e => Err e
           | Panic => Panic
           end)
        ([], ∅) (ec2.DescribeNetworkInterfacesPages (EC2Client config)).

(** [findUntaggedENIs] *)
Definition findUntaggedENIs : result (list ResourceInfo) :=
  match scanENIs with
  | Ok (eniList, attachmentIDs) =>
      match getAttachmentNames attachmentIDs with
      | Ok attachmentNames => Ok (suggestENIName attachmentNames <$> eniList)
      | Err e => Err ("failed to get attachment names: " +:+ e)
      | Panic => Panic
      end
  | Err e => Err e
  | Panic => Panic
  end.

End Scan.

(** ** History ledger *)

(** [TagHistoryEntry] *)
Record TagHistoryEntry : Type := {
  Account : string;
  Resource : string;
  OldValue : string;
  NewValue : string;
  Timestamp : string;
  RunID : string;
  Undone : bool;
}.

(** [TagHistory] *)
Record TagHistory : Type := { Actions : list TagHistoryEntry }.

(** The file [~/.quick-tag.yml]: absent, holding a history, or failing to be
    read or parsed with an error *)
Inductive FileState : Type :=
  | Missing
  | Stored (history : TagHistory)
  | Unreadable (e : string).

(** What the program prints, as far as it reports an outcome *)
Inductive Output : Type :=
  | Warning (msg : string)
  | Info (msg : string)
  | Stopping (successCount : nat)
  | UndoCancelled
  | UndoSummary (successCount notFoundCount errorCount : nat)
  | MarkedUndone (totalActions : nat) (runID : string).

(** What the run does not change: the home directory, the errors of the file
    system when it stores a history, the error of loading the AWS
    configuration, and what the clock shows each time [addToHistory] reads
    it: [Now n] is [time.Now().Format(time.RFC3339)] at the reading with the
    number [n] *)
Record Env : Type := {
  UserHomeDir : option string;
  MkdirAllErr : option string;
  WriteFileErr : TagHistory → option string;
  LoadDefaultConfigErr : option string;
  Now : nat → string;
}.

(** What the run changes: the [Name] tag of each resource on the provider's
    side, the [CreateTags] requests sent so far, the history file and the
    number of times it was written, the number of the next reading of the
    clock, the input that standard input has still to deliver, in the chunks
    in which it arrives, and the output *)
Record World : Type := {
  tags : gmap string string;
  requests : list (string * string);
  file : FileState;
  writes : nat;
  clock : nat;
  stdin : list string;
  stdout : list Output;
}.

Definition setTags (w : World) (t : gmap string string) : World :=
  {| tags := t; requests := requests w; file := file w; writes := writes w;
     clock := clock w; stdin := stdin w; stdout := stdout w |}.

Definition addRequest (w : World) (resource value : string) : World :=
  {| tags := tags w; requests := requests w ++ [(resource, value)]; file := file w;
     writes := writes w; clock := clock w; stdin := stdin w; stdout := stdout w |}.

Definition setFile (w : World) (f : FileState) : World :=
  {| tags := tags w; requests := requests w; file := f; writes := writes w;
     clock := clock w; stdin := stdin w; stdout := stdout w |}.

Definition countWrite (w : World) : World :=
  {| tags := tags w; requests := requests w; file := file w; writes := S (writes w);
     clock := clock w; stdin := stdin w; stdout := stdout w |}.

Definition tick (w : World) : World :=
  {| tags := tags w; requests := requests w; file := file w; writes := writes w;
     clock := S (clock w); stdin := stdin w; stdout := stdout w |}.

Definition setStdin (w : World) (input : list string) : World :=
  {| tags := tags w; requests := requests w; file := file w; writes := writes w;
     clock := clock w; stdin := input; stdout := stdout w |}.

Definition print (w : World) (o : Output) : World :=
  {| tags := tags w; requests := requests w; file := file w; writes := writes w;
     clock := clock w; stdin := stdin w; stdout := stdout w ++ [o] |}.

(** [ec2Client.CreateTags] with the single tag [Name]: the request is sent,
    and sets the tag unless the provider answers with an error *)
Definition createNameTag (client : ec2.Client) (resource value : string) (w : World)
    : World * option string :=
  let w := addRequest w resource value in
  match ec2.CreateTags client resource value with
  | Some e => (w, Some e)
  | None => (setTags w (<[resource := value]> (tags w)), None)
  end.

(** ** Standard input

    Standard input is the sequence of the chunks that its reads find: a
    chunk is what has arrived when a read asks for input, a line typed at a
    terminal or all that a pipe holds by then.  A read returns the bytes of
    the first chunk that is left, or as many of them as the buffer it is
    given can take, the others being left for the next read.  A chunk of no
    bytes is the end of the input for the read that meets it (Go reports a
    read of no bytes as [io.EOF]), and so is the end of the chunks. *)
Module os.

(** [os.Stdin.Read(p)] with [len(p) = n]: the bytes read, or [None] for
    [io.EOF], and the input that is left *)
Definition Read (n : nat) (input : list string) : option string * list string :=
  match input with
  | [] => (None, [])
  | chunk :: rest =>
      if bool_decide (chunk = "") then (None, rest)
      else if bool_decide (String.length chunk ≤ n) then (Some chunk, rest)
      else (Some (strings.take n chunk), strings.drop n chunk :: rest)
  end.

(** An upper bound of the number of reads that the input can serve *)
Definition reads (input : list string) : nat :=
  sum_list ((λ chunk, S (String.length chunk)) <$> input).

End os.

Module bufio.

Definition defaultBufSize : nat := 4096.

(** The loop of [ReadSlice] under [ReadString('\n')]: [line] holds the bytes
    read so far, none of them a line feed, of which [buffered] are in the
    buffer; a full buffer is set aside and filled anew.  The bytes that a
    read brings after the line feed stay in the buffer.  Every round but
    the last takes bytes from the input, so that the loop ends by itself
    within [fuel] rounds when [fuel] exceeds [os.reads input]. *)
Fixpoint ReadString_loop (fuel : nat) (line : string) (buffered : nat) (input : list string)
    : (string + string) * list string :=
  match fuel with
  | O => (inl "EOF", input)
  | S fuel' =>
      let buffered := if bool_decide (defaultBufSize ≤ buffered) then 0 else buffered in
      match os.Read (defaultBufSize - buffered) input with
      | (None, input) => (inl "EOF", input)
      | (Some data, input) =>
          match strings.Cut data (String "010" "") with
          | Some (before, _) => (inr (line +:+ before +:+ String "010" ""), input)
          | None =>
              ReadString_loop fuel' (line +:+ data) (buffered + String.length data) input
          end
      end
  end.

(** [bufio.NewReader(os.Stdin).ReadString('\n')]: the error ([inl]) or the
    line with its line feed ([inr]), and the input that is left for the next
    reader; what this reader holds in its buffer after the line is lost with
    it *)
Definition ReadString (input : list string) : (string + string) * list string :=
  ReadString_loop (S (os.reads input)) "" 0 input.

End bufio.

(** [reader.ReadString('\n')] where [reader := bufio.NewReader(os.Stdin)] was
    made for this one call, which is how the program reads each of its
    answers *)
Definition ReadString (w : World) : World * (string + string) :=
  let '(line, input) := bufio.ReadString (stdin w) in (setStdin w input, line).

(** Go's [encoding/hex] *)
Module hex.

Definition digit (n : nat) : ascii :=
  default "0"%char (String.get n "0123456789abcdef").

(** [hex.EncodeToString(bytes)] *)
Definition EncodeToString (bytes : list ascii) : string :=
  foldr (λ b s, String (digit (nat_of_ascii b / 16))
                       (String (digit (nat_of_ascii b mod 16)) s)) "" bytes.

End hex.

(** [generateRunID]: [randRead] holds the bytes that [rand.Read] drew, when
    it succeeded, and [unix] is [time.Now().Unix()] *)
Definition generateRunID (randRead : option (list ascii)) (unix : Z) : string :=
  match randRead with
  | Some bytes => "run-" +:+ hex.EncodeToString bytes
  | None => "run-" +:+ pretty unix
  end.

Section Ledger.

Variable env : Env.

(** [loadHistory]: the error ([inl]) or the history ([inr]) *)
Definition loadHistory (w : World) : string + TagHistory :=
  match UserHomeDir env with
  | None => inr {| Actions := [] |}
  | Some _ =>
      match file w with
      | Missing => inr {| Actions := [] |}
      | Stored history => inr history
      | Unreadable e => inl e
      end
  end.

(** [saveHistory]; [yaml.Marshal] does not fail on a [TagHistory] *)
Definition saveHistory (history : TagHistory) (w : World) : World * option string :=
  match UserHomeDir env with
  | None => (w, Some "unable to determine home directory")
  | Some _ =>
      match MkdirAllErr env with
      | Some e => (w, Some e)
      | None =>
          match WriteFileErr env history with
          | Some e => (countWrite w, Some e)
          | None => (countWrite (setFile w (Stored history)), None)
          end
      end
  end.

(** [addToHistory] *)
Definition addToHistory (account resource oldValue newValue runID : string) (w : World)
    : World * option string :=
  match loadHistory w with
  | inr history =>
      let entry := {| Account := account; Resource := resource; OldValue := oldValue;
                      NewValue := newValue; Timestamp := Now env (clock w); RunID := runID;
                      Undone := false |} in
      saveHistory {| Actions := Actions history ++ [entry] |} (tick w)
  | inl e => (w, Some e)
  end.

(** ** Tag applier *)

(** The function that [applyTags] hands to [showProgress] for one resource *)
Definition applyTag (config : Config) (resource : ResourceInfo) (accountID runID : string)
    (w : World) : World * option string :=
  match createNameTag (EC2Client config) (ID resource) (SuggestedName resource) w with
  | (w, Some e) =>
      (w, Some ("failed to tag " +:+ Type_ resource +:+ " " +:+ ID resource +:+ ": " +:+ e))
  | (w, None) =>
      match addToHistory accountID (ID resource) (Name resource) (SuggestedName resource)
                         runID w with
      | (w, Some e) =>
          (print w (Warning ("Failed to log tagging action to history: " +:+ e)), None)
      | (w, None) => (w, None)
      end
  end.

(** The loop of [applyTags], with [successCount] *)
Fixpoint applyTags_loop (config : Config) (resources : list ResourceInfo)
    (accountID runID : string) (autoApply : bool) (successCount : nat) (w : World)
    : World * option string :=
  match resources with
  | [] => (w, None)
  | resource :: rest =>
      let prompted :=
        if negb autoApply then
          match ReadString w with
          | (w, inr _) => (w, None)
          | (w, inl e) => (w, Some ("failed to read user input: " +:+ e))
          end
        else (w, None) in
      match prompted with
      | (w, Some e) => (w, Some e)
      | (w, None) =>
          match applyTag config resource accountID runID w with
          | (w, Some e) => (print w (Stopping successCount), Some e)
          | (w, None) =>
              applyTags_loop config rest accountID runID autoApply (S successCount) w
          end
      end
  end.

(** [applyTags] *)
Definition applyTags (config : Config) (resources : list ResourceInfo)
    (accountID runID : string) (autoApply : bool) (w : World) : World * option string :=
  applyTags_loop config resources accountID runID autoApply 0 w.

(** ** Undo executor *)

(** The first loop of [undoLastRun]: from the end, the run of the first action
    that is not undone *)
Definition findLastRunID (actions : list TagHistoryEntry) : string :=
  match List.find (λ action, negb (Undone action)) (rev actions) with
  | Some action => RunID action
  | None => ""
  end.

(** The second loop of [undoLastRun] *)
Definition collectActionsToUndo (lastRunID : string) (actions : list TagHistoryEntry)
    : list TagHistoryEntry :=
  List.filter (λ action, bool_decide (RunID action = lastRunID) && negb (Undone action))
              actions.

(** The loop of [undoLastRun] that reverts the actions; the state is the world
    and [(successCount, notFoundCount, errorCount)] *)
Fixpoint revertActions (client : ec2.Client) (actionsToUndo : list TagHistoryEntry)
    (counts : nat * nat * nat) (w : World) : World * (nat * nat * nat) :=
  match actionsToUndo with
  | [] => (w, counts)
  | action :: rest =>
      let '(successCount, notFoundCount, errorCount) := counts in
      let value := if bool_decide (OldValue action = "") then "" else OldValue action in
      match createNameTag client (Resource action) value w with
      | (w, Some e) =>
          if strings.Contains e "NotFound" || strings.Contains e "does not exist" then
            revertActions client rest (successCount, S notFoundCount, errorCount)
              (print w (Info ("Resource " +:+ Resource action
                              +:+ " no longer exists (likely deleted) - skipping")))
          else
            revertActions client rest (successCount, notFoundCount, S errorCount)
              (print w (Warning ("Failed to revert " +:+ Resource action +:+ ": " +:+ e)))
      | (w, None) =>
          revertActions client rest (S successCount, notFoundCount, errorCount) w
      end
  end.

(** The loop of [undoLastRun] that marks the actions of the run *)
Definition markUndone (lastRunID : string) (actions : list TagHistoryEntry)
    : list TagHistoryEntry :=
  (λ action,
     if bool_decide (RunID action = lastRunID) && negb (Undone action) then
       {| Account := Account action; Resource := Resource action;
          OldValue := OldValue action; NewValue := NewValue action;
          Timestamp := Timestamp action; RunID := RunID action; Undone := true |}
     else action) <$> actions.

(** [undoLastRun]; [client] is the EC2 client that the default configuration
    yields *)
Definition undoLastRun (client : ec2.Client) (w : World) : World * option string :=
  match loadHistory w with
  | inl e => (w, Some ("failed to load history: " +:+ e))
  | inr history =>
      if bool_decide (length (Actions history) = 0) then
        (w, Some "no tagging history found")
      else
        let lastRunID := findLastRunID (Actions history) in
        if bool_decide (lastRunID = "") then (w, Some "no undone runs found")
        else
          let actionsToUndo := collectActionsToUndo lastRunID (Actions history) in
          if bool_decide (length actionsToUndo = 0) then
            (w, Some ("no actions found for run " +:+ lastRunID))
          else
            match ReadString w with
            | (w, inl e) => (w, Some ("failed to read user input: " +:+ e))
            | (w, inr response) =>
                let response := strings.TrimSpace (strings.ToLower response) in
                if bool_decide (response ≠ "y") && bool_decide (response ≠ "yes") then
                  (print w UndoCancelled, None)
                else
                  match LoadDefaultConfigErr env with
                  | Some e => (w, Some ("failed to load AWS config: " +:+ e))
                  | None =>
                      let '(w, (successCount, notFoundCount, errorCount)) :=
                        revertActions client actionsToUndo (0, 0, 0) w in
                      let history :=
                        {| Actions := markUndone lastRunID (Actions history) |} in
                      match saveHistory history w with
                      | (w, Some e) =>
                          (w, Some ("failed to save updated history: " +:+ e))
                      | (w, None) =>
                          let totalActions := length actionsToUndo in
                          let w := print w (UndoSummary successCount notFoundCount
                                                        errorCount) in
                          (print w (MarkedUndone totalActions lastRunID), None)
                      end
                  end
            end
  end.

End Ledger.

(** ** What the specification says, in its own words *)

(** "has prefix", "ends in" and "contains the substring", on strings *)
Definition prefixOf (p s : string) : Prop := ∃ r, s = p +:+ r.
Definition suffixOf (q s : string) : Prop := ∃ r, s = r +:+ q.
Definition substringOf (m s : string) : Prop := ∃ a b, s = a +:+ m +:+ b.

(** The service types of the shape [{service-type}-{id}-eni] *)
Definition serviceTypes : list string :=
  ["service"; "attached"; "lambda"; "rds"; "elasticache"; "elb"; "nat"].

(** The shapes that the specification lists for the kind [eni] *)
Definition listedENIShape (name : string) : Prop :=
  name = "unattached-eni"
  ∨ (∃ t id, t ∈ serviceTypes ∧ name = t +:+ "-" +:+ id +:+ "-eni")
  ∨ (substringOf "-attach-" name ∧ suffixOf "-eni" name)
  ∨ (prefixOf "eni-" name ∧ 21 ≤ String.length name ≤ 25)
  ∨ name = ""
  ∨ prefixOf "Network interface" name
  ∨ (substringOf "primary" name ∧ substringOf "interface" name).

(** The shapes that the code accepts besides: a service type followed by
    [-eni-attach-] or [-ela-attach-], whatever comes after, and a service
    type followed by [-eni] alone *)
Definition attachPrefixTypes : list string :=
  ["rds"; "elasticache"; "elb"; "lambda"; "nat"; "service"].

Definition unlistedENIShape (name : string) : Prop :=
  (∃ t, t ∈ attachPrefixTypes
        ∧ (prefixOf (t +:+ "-eni-attach-") name ∨ prefixOf (t +:+ "-ela-attach-") name))
  ∨ (∃ t, t ∈ serviceTypes ∧ name = t +:+ "-eni").

(** U+00A0, the no-break space, as UTF-8 encodes it *)
Definition noBreakSpace : string := String "194" (String "160" "").

(** ELB-name extraction as the specification words it: the token equal to
    [elb], then the token after it, then its segments *)
Definition extractELBName_spec (description : string) : string :=
  let tokens := strings.Fields description in
  match list_find (λ token, strings.ToLower token = "elb") tokens with
  | None => ""
  | Some (i, _) =>
      match tokens !! S i with
      | None => ""
      | Some following =>
          let segments := strings.Split following "/" in
          if bool_decide (2 ≤ length segments) then default "" (segments !! 1) else ""
      end
  end.

(** Token [i] is [elb], and the token after it has at least two segments *)
Definition namesELB (tokens : list string) (i : nat) : Prop :=
  ∃ token following,
    tokens !! i = Some token ∧ strings.ToLower token = "elb"
    ∧ tokens !! S i = Some following ∧ 2 ≤ length (strings.Split following "/").

(** The service types in their precedence, each with the keywords that
    select it *)
Definition servicePrecedence : list (string * list string) :=
  [("lambda", ["lambda"]); ("rds", ["rds"]); ("elasticache", ["elasticache"; "cache"]);
   ("elb", ["elb"; "load balancer"]); ("nat", ["nat"])].

(** The service type inferred from a description: the first type one of whose
    keywords occurs in it, whatever the case of the letters *)
Definition inferServiceType (description : option string) : string :=
  match description with
  | None => "service"
  | Some d =>
      match List.find (λ entry, existsb (strings.Contains (strings.ToLower d)) entry.2)
                      servicePrecedence with
      | Some entry => entry.1
      | None => "service"
      end
  end.

(** The service types that the resolver infers *)
Definition inferredTypes : list string :=
  ["lambda"; "rds"; "elasticache"; "elb"; "nat"; "service"].

(** The resolver's answer for an interface, as the specification words it *)
Definition resolveENI_spec (eni : NetworkInterface.t) : string :=
  match NetworkInterface.Attachment eni with
  | None => "unattached"
  | Some attachment =>
      match NetworkInterfaceAttachment.InstanceId attachment,
            NetworkInterfaceAttachment.AttachmentId attachment with
      | Some instanceId, _ => "attached-to-" +:+ instanceId
      | None, None => "attached-unknown"
      | None, Some attachmentId =>
          let type := inferServiceType (NetworkInterface.Description eni) in
          let lbName := extractELBName (default "" (NetworkInterface.Description eni)) in
          if bool_decide (type = "elb") && bool_decide (lbName ≠ "")
          then "attached-elb-" +:+ lbName
          else "attached-" +:+ type +:+ "-" +:+ attachmentId
      end
  end.

(** The contents of the pages of a paginator *)
Definition pageItems {A : Type} (pages : list (result (list A))) : list A :=
  mjoin ((λ page, match page with Ok output => output | _ => [] end) <$> pages).

(** "Needs tagging", for a resource of a kind with its tags, state and extra
    information: no [Name] tag, or a self-generated name that is no longer valid *)
Definition needsTagging_spec (kind : string) (tags : list Tag.t) (state extraInfo : string)
    : bool :=
  let '(hasNameTag, currentName) := findNameTag tags in
  negb hasNameTag
  || isQuickTagCreatedName currentName kind
     && negb (isQuickTagNameStillValid currentName kind state extraInfo).

(** A scanned instance can be a candidate: it is not terminated, it has an
    image id, and it needs tagging *)
Definition instanceIsCandidate (instance : Instance.t) : bool :=
  negb (bool_decide (Instance.StateName instance = "terminated"))
  && match Instance.ImageId instance with
     | Some imageId =>
         needsTagging_spec "instance" (Instance.Tags instance)
                           (Instance.StateName instance) imageId
     | None => false
     end.

(** The instances that [DescribeInstances] lists *)
Definition scannedInstances (config : Config) : list Instance.t :=
  mjoin (Reservation.Instances
           <$> pageItems (ec2.DescribeInstancesPages (EC2Client config))).

(** A provider that lists one instance, terminated and without tags *)
Definition terminatedInstance : Instance.t :=
  {| Instance.InstanceId := Some "i-0123456789abcdef0";
     Instance.ImageId := Some "ami-0123456789abcdef0";
     Instance.StateName := "terminated";
     Instance.Tags := [] |}.

Definition providerOfTerminated : Config :=
  {| EC2Client :=
       {| ec2.DescribeInstancesPages :=
            [Ok [ {| Reservation.Instances := [terminatedInstance] |} ]];
          ec2.DescribeVolumesPages := [];
          ec2.DescribeNetworkInterfacesPages := [];
          ec2.DescribeImages := λ _, Ok [];
          ec2.DescribeInstances := λ _, Ok [];
          ec2.DescribeVolumes := λ _, Ok [];
          ec2.CreateTags := λ _ _, None |};
     Region := "us-east-1";
     PrivateMode := false |}.

(** A provider that lists one running instance without tags, and whose image
    has the empty name *)
Definition untaggedInstance : Instance.t :=
  {| Instance.InstanceId := Some "i-0123456789abcdef0";
     Instance.ImageId := Some "ami-0123456789abcdef0";
     Instance.StateName := "running";
     Instance.Tags := [] |}.

Definition providerOfUnnamedImage : Config :=
  {| EC2Client :=
       {| ec2.DescribeInstancesPages :=
            [Ok [ {| Reservation.Instances := [untaggedInstance] |} ]];
          ec2.DescribeVolumesPages := [];
          ec2.DescribeNetworkInterfacesPages := [];
          ec2.DescribeImages := λ _,
            Ok [ {| Image.ImageId := Some "ami-0123456789abcdef0";
                    Image.Name := Some "" |} ];
          ec2.DescribeInstances := λ _, Ok [];
          ec2.DescribeVolumes := λ _, Ok [];
          ec2.CreateTags := λ _ _, None |};
     Region := "us-east-1";
     PrivateMode := false |}.

(** The tags after the reverts that the provider accepts *)
Definition revertedTags (client : ec2.Client) (actionsToUndo : list TagHistoryEntry)
    (t : gmap string string) : gmap string string :=
  foldl (λ (t : gmap string string) action,
           match ec2.CreateTags client (Resource action) (OldValue action) with
           | Some _ => t
           | None => <[Resource action := OldValue action]> t
           end) t actionsToUndo.

(** The operator's answer is [y] or [yes], whatever the case and the white
    space around it. *)
Definition confirms (response : string) : Prop :=
  strings.TrimSpace (strings.ToLower response) = "y"
  ∨ strings.TrimSpace (strings.ToLower response) = "yes".

(** The history entry that [applyTags] records for a resource, at a time *)
Definition recordedEntry (timestamp accountID runID : string) (resource : ResourceInfo)
    : TagHistoryEntry :=
  {| Account := accountID; Resource := ID resource; OldValue := Name resource;
     NewValue := SuggestedName resource; Timestamp := timestamp; RunID := runID;
     Undone := false |}.

(** The entries of the resources of a run, the first of them at the reading
    [n] of the clock and each of the others at the next reading *)
Fixpoint recordedEntries (env : Env) (accountID runID : string) (n : nat)
    (resources : list ResourceInfo) : list TagHistoryEntry :=
  match resources with
  | [] => []
  | resource :: rest =>
      recordedEntry (Now env n) accountID runID resource
      :: recordedEntries env accountID runID (S n) rest
  end.

(** The input that is left after [n] answers were read, each by a reader of
    its own *)
Fixpoint afterAnswers (n : nat) (input : list string) : list string :=
  match n with
  | O => input
  | S n' => afterAnswers n' (bufio.ReadString input).2
  end.

(** The first [n] reads, each by a reader of its own, find a line *)
Fixpoint answered (n : nat) (input : list string) : bool :=
  match n with
  | O => true
  | S n' =>
      match (bufio.ReadString input).1 with
      | inr _ => answered n' (bufio.ReadString input).2
      | inl _ => false
      end
  end.

(** The tags after the tag writes of the resources *)
Definition appliedTags (resources : list ResourceInfo) (t : gmap string string)
    : gmap string string :=
  foldl (λ (t : gmap string string) x, <[ID x := SuggestedName x]> t) t resources.

(** A run on a machine with a home directory and a sound file system, against
    a provider that accepts every request: no history file yet, the operator
    about to answer [y], and one resource named [X] that is suggested [Y] *)
Definition soundEnv : Env :=
  {| UserHomeDir := Some "/home/operator"; MkdirAllErr := None;
     WriteFileErr := λ _, None; LoadDefaultConfigErr := None;
     Now := λ n, "2025-01-26T12:00:" +:+ pretty (10 + n) +:+ "Z" |}.

Definition acceptingClient : ec2.Client :=
  {| ec2.DescribeInstancesPages := []; ec2.DescribeVolumesPages := [];
     ec2.DescribeNetworkInterfacesPages := [];
     ec2.DescribeImages := λ _, Ok []; ec2.DescribeInstances := λ _, Ok [];
     ec2.DescribeVolumes := λ _, Ok []; ec2.CreateTags := λ _ _, None |}.

Definition acceptingProvider : Config :=
  {| EC2Client := acceptingClient; Region := "us-east-1"; PrivateMode := false |}.

Definition freshWorld : World :=
  {| tags := {[ "i-0123456789abcdef0" := "X" ]}; requests := []; file := Missing;
     writes := 0; clock := 0; stdin := ["y" +:+ String "010" ""]; stdout := [] |}.

Definition resourceXY : ResourceInfo :=
  {| ID := "i-0123456789abcdef0"; Type_ := "instance"; Name := "X";
     SuggestedName := "Y"; State := "running"; Extra := "ami-0123456789abcdef0" |}.

(** A provider that refuses to tag [vol-2], and a machine without a home
    directory, where no history can be stored *)
Definition refusingProvider : Config :=
  {| EC2Client :=
       {| ec2.DescribeInstancesPages := []; ec2.DescribeVolumesPages := [];
          ec2.DescribeNetworkInterfacesPages := [];
          ec2.DescribeImages := λ _, Ok []; ec2.DescribeInstances := λ _, Ok [];
          ec2.DescribeVolumes := λ _, Ok [];
          ec2.CreateTags := λ resource _,
            if bool_decide (resource = "vol-2") then Some "UnauthorizedOperation"
            else None |};
     Region := "us-east-1"; PrivateMode := false |}.

Definition homelessEnv : Env :=
  {| UserHomeDir := None; MkdirAllErr := None; WriteFileErr := λ _, None;
     LoadDefaultConfigErr := None; Now := λ n, "2025-01-26T12:00:" +:+ pretty (10 + n) +:+ "Z" |}.

Definition unattachedVolume (id : string) : ResourceInfo :=
  {| ID := id; Type_ := "volume"; Name := ""; SuggestedName := "unattached";
     State := "available"; Extra := "unattached" |}.

(** ** Go's [strconv] package, as far as [main.go] uses it *)

Module strconv.

(** The value of a decimal digit *)
Definition digitValue (c : ascii) : option Z :=
  let n := nat_of_ascii c in
  if bool_decide (48 ≤ n) && bool_decide (n ≤ 57) then Some (Z.of_nat n - 48)%Z else None.

(** The value of a run of decimal digits that follows the value [n] *)
Fixpoint parseDigits (s : string) (n : Z) : option Z :=
  match s with
  | EmptyString => Some n
  | String c s' =>
      match digitValue c with
      | Some d => parseDigits s' (10 * n + d)%Z
      | None => None
      end
  end.

(** [strconv.Atoi(s)] where [int] has 64 bits: the value, or [None] for the
    error.  The text is an optional sign and at least one decimal digit, and
    the value fits [int]. *)
Definition Atoi (s : string) : option Z :=
  let '(neg, digits) :=
    match s with
    | String "-" s' => (true, s')
    | String "+" s' => (false, s')
    | _ => (false, s)
    end in
  if bool_decide (digits = "") then None
  else
    match parseDigits digits 0 with
    | Some n =>
        let value := (if neg : bool then - n else n)%Z in
        if bool_decide (- 2 ^ 63 ≤ value)%Z && bool_decide (value ≤ 2 ^ 63 - 1)%Z
        then Some value
        else None
    | None => None
    end.

End strconv.

(** ** Listing *)

(** The function that [findUntaggedResources] hands to [sort.Slice]: by type,
    then by ID; [<] on Go strings compares them byte by byte *)
Definition resourceLess (a b : ResourceInfo) : bool :=
  if bool_decide (Type_ a ≠ Type_ b) then String.ltb (Type_ a) (Type_ b)
  else String.ltb (ID a) (ID b).

Section Listing.

(** What [sort.Slice] leaves in the slice; the sort is not stable, so that
    the order of elements that compare equal is not specified. *)
Variable sortSlice :
  (ResourceInfo → ResourceInfo → bool) → list ResourceInfo → list ResourceInfo.

Variable rangeKeys : gset string → list string.

Variable config : Config.

(** [findUntaggedResources] *)
Definition findUntaggedResources : result (list ResourceInfo) :=
  match findUntaggedInstances rangeKeys config with
  | Ok instances =>
      match findUntaggedVolumes rangeKeys config with
      | Ok volumes =>
          match findUntaggedENIs rangeKeys config with
          | Ok enis => Ok (sortSlice resourceLess (([] ++ instances) ++ volumes ++ enis))
          | Err e => Err ("failed to find untagged ENIs: " +:+ e)
          | Panic => Panic
          end
      | Err e => Err ("failed to find untagged volumes: " +:+ e)
      | Panic => Panic
      end
  | Err e => Err ("failed to find untagged instances: " +:+ e)
  | Panic => Panic
  end.

End Listing.

(** ** Selection *)

(** The body of the loop of [selectResources] over the comma-separated parts;
    the state is the world and [selected] *)
Definition selectPart (resources : list ResourceInfo) (acc : World * list ResourceInfo)
    (part : string) : World * list ResourceInfo :=
  let '(w, selected) := acc in
  let part := strings.TrimSpace part in
  match strconv.Atoi part with
  | Some idx =>
      if bool_decide (1 ≤ idx)%Z && bool_decide (idx ≤ Z.of_nat (length resources))%Z then
        match resources !! Z.to_nat (idx - 1) with
        | Some resource => (w, selected ++ [resource])
        | None => (w, selected)
        end
      else
        (print w (Warning ("Invalid selection: " +:+ pretty idx +:+ " (valid range: 1-"
                           +:+ pretty (length resources) +:+ ")")),
         selected)
  | None =>
      (print w (Warning ("Invalid input: '" +:+ part +:+ "' (expected number)")), selected)
  end.

(** [selectResources]: the error that [log.Fatal] reports ([inl]), or
    [(selected, autoApply)] ([inr]) *)
Definition selectResources (resources : list ResourceInfo) (w : World)
    : World * (string + list ResourceInfo * bool) :=
  match ReadString w with
  | (w, inl e) => (w, inl e)
  | (w, inr input) =>
      let input := strings.TrimSpace input in
      if bool_decide (input = "") then
        (print w (Info "No input provided, selecting all resources for sequential tagging."),
         inr (resources, false))
      else if bool_decide (strings.ToLower input = "all") then
        (print w (Info "Auto-applying all tags without individual confirmation."),
         inr (resources, true))
      else
        let '(w, selected) :=
          foldl (selectPart resources) (w, []) (strings.Split input ",") in
        let w := if bool_decide (length selected = 0)
                 then print w (Info "No valid selections made.") else w in
        (w, inr (selected, false))
  end.

(** ** Version *)

(** [resolveVersion]; [version] is the variable that the build sets, and
    [Full], [Major] and [Minor] are those of the package [version] *)
Definition resolveVersion (version Full : string) (Major Minor : Z) : string :=
  if bool_decide (strings.TrimSpace version ≠ "") then version
  else if bool_decide (strings.TrimSpace Full ≠ "") then Full
  else "v" +:+ pretty Major +:+ "." +:+ pretty Minor +:+ "." +:+ "unknown".

(** ** The command *)

(** The flags of the command line *)
Record Flags : Type := {
  region : string;
  privateMode : bool;
  showVersion : bool;
  undoFlag : bool;
}.

(** [sts.GetCallerIdentityOutput] *)
Module GetCallerIdentityOutput.
Record t : Type := { Account : option string; Arn : option string }.
End GetCallerIdentityOutput.

(** What [main] gets from the build, the machine and the provider: the
    version strings, the bytes that [rand.Read] drew and the clock, the EC2
    client of the configuration loaded for a region or its error, the client
    of the default configuration, and the caller's identity or the error of
    asking for it *)
Record Process : Type := {
  version : string;
  versionFull : string;
  versionMajor : Z;
  versionMinor : Z;
  randRead : option (list ascii);
  unix : Z;
  LoadDefaultConfig : string → string + ec2.Client;
  DefaultClient : ec2.Client;
  GetCallerIdentity : string + GetCallerIdentityOutput.t;
}.

(** How [main] ends: after printing the version, with [log.Fatal], on a nil
    dereference, after an undo, with nothing to tag, with nothing selected,
    or after tagging *)
Inductive Exit : Type :=
  | PrintedVersion (v : string)
  | Fatal (e : string)
  | NilDereference
  | UndoReturned
  | AllTagged
  | NoneSelected
  | Completed.

(** [printHeader], which reads [*callerIdentity.Account] and
    [*callerIdentity.Arn] unless the mode is private *)
Definition printHeader (privateMode : bool) (callerIdentity : GetCallerIdentityOutput.t)
    : result unit :=
  if negb privateMode then
    match deref (GetCallerIdentityOutput.Account callerIdentity),
          deref (GetCallerIdentityOutput.Arn callerIdentity) with
    | Ok _, Ok _ => Ok ()
    | _, _ => Panic
    end
  else Ok ().

Section Command.

Variable sortSlice :
  (ResourceInfo → ResourceInfo → bool) → list ResourceInfo → list ResourceInfo.

Variable rangeKeys : gset string → list string.

Variable env : Env.

(** [main] *)
Definition main (flags : Flags) (p : Process) (w : World) : World * Exit :=
  if showVersion flags then
    (w, PrintedVersion (resolveVersion (version p) (versionFull p)
                                       (versionMajor p) (versionMinor p)))
  else if undoFlag flags then
    match undoLastRun env (DefaultClient p) w with
    | (w, Some e) => (w, Fatal e)
    | (w, None) => (w, UndoReturned)
    end
  else
    let runID := generateRunID (randRead p) (unix p) in
    match LoadDefaultConfig p (region flags) with
    | inl e => (w, Fatal e)
    | inr client =>
        match GetCallerIdentity p with
        | inl e => (w, Fatal ("failed to authenticate with aws: " +:+ e))
        | inr callerIdentity =>
            match printHeader (privateMode flags) callerIdentity with
            | Ok _ =>
                let config := {| EC2Client := client; Region := region flags;
                                 PrivateMode := privateMode flags |} in
                match findUntaggedResources sortSlice rangeKeys config with
                | Ok untaggedResources =>
                    if bool_decide (length untaggedResources = 0) then (w, AllTagged)
                    else
                      match selectResources untaggedResources w with
                      | (w, inl e) => (w, Fatal e)
                      | (w, inr (selectedResources, autoApply)) =>
                          if bool_decide (length selectedResources = 0)
                          then (w, NoneSelected)
                          else
                            match deref (GetCallerIdentityOutput.Account callerIdentity)
                            with
                            | Ok accountID =>
                                match applyTags env config selectedResources accountID
                                                runID autoApply w with
                                | (w, Some e) => (w, Fatal e)
                                | (w, None) => (w, Completed)
                                end
                            | _ => (w, NilDereference)
                            end
                      end
                | Err e => (w, Fatal e)
                | Panic => (w, NilDereference)
                end
            | _ => (w, NilDereference)
            end
        end
    end.

End Command.

(** ** Examples of providers, machines and command lines *)

(** A network interface attached to an instance, with the tags it has *)
Definition peerInterface (tags : list Tag.t) : NetworkInterface.t :=
  {| NetworkInterface.NetworkInterfaceId := Some "eni-0123456789abcdef0";
     NetworkInterface.Status := "in-use";
     NetworkInterface.Description := None;
     NetworkInterface.Attachment :=
       Some {| NetworkInterfaceAttachment.InstanceId := Some "i-0123456789abcdef0";
               NetworkInterfaceAttachment.AttachmentId := Some "eni-attach-0abc" |};
     NetworkInterface.TagSet := tags |}.

(** A provider that lists that interface, without tags, and returns its
    instance, running and without tags, when it is asked for instances by id *)
Definition providerOfUnnamedPeer : Config :=
  {| EC2Client :=
       {| ec2.DescribeInstancesPages := []; ec2.DescribeVolumesPages := [];
          ec2.DescribeNetworkInterfacesPages := [Ok [peerInterface []]];
          ec2.DescribeImages := λ _, Ok [];
          ec2.DescribeInstances := λ _,
            Ok [ {| Reservation.Instances := [untaggedInstance] |} ];
          ec2.DescribeVolumes := λ _, Ok [];
          ec2.CreateTags := λ _ _, None |};
     Region := "us-east-1";
     PrivateMode := false |}.

(** A volume that is in use by that instance and still carries the name
    [unattached], and a provider that lists it and returns the instance,
    running and without tags, when it is asked for instances by id *)
Definition staleVolume : Volume.t :=
  {| Volume.VolumeId := Some "vol-0123456789abcdef0";
     Volume.State := "in-use";
     Volume.Attachments :=
       [ {| VolumeAttachment.Device := Some "/dev/xvda1";
            VolumeAttachment.InstanceId := Some "i-0123456789abcdef0" |} ];
     Volume.Tags := [ {| Tag.Key := Some "Name"; Tag.Value := Some "unattached" |} ] |}.

Definition providerOfStaleVolume : Config :=
  {| EC2Client :=
       {| ec2.DescribeInstancesPages := [];
          ec2.DescribeVolumesPages := [Ok [staleVolume]];
          ec2.DescribeNetworkInterfacesPages := [];
          ec2.DescribeImages := λ _, Ok [];
          ec2.DescribeInstances := λ _,
            Ok [ {| Reservation.Instances := [untaggedInstance] |} ];
          ec2.DescribeVolumes := λ _, Ok [staleVolume];
          ec2.CreateTags := λ _ _, None |};
     Region := "us-east-1";
     PrivateMode := false |}.

(** A sort that leaves the slice sorted by the function it is given *)
Definition mergeSortSlice (less : ResourceInfo → ResourceInfo → bool)
    (l : list ResourceInfo) : list ResourceInfo :=
  @merge_sort _ (λ x y, less y x = false) (λ x y, decide (less y x = false)) l.

(** A provider that lists one running instance and one unattached network
    interface, both without tags, and accepts every request *)
Definition providerOfInstanceAndInterface : Config :=
  {| EC2Client :=
       {| ec2.DescribeInstancesPages :=
            [Ok [ {| Reservation.Instances := [untaggedInstance] |} ]];
          ec2.DescribeVolumesPages := [];
          ec2.DescribeNetworkInterfacesPages :=
            [Ok [ {| NetworkInterface.NetworkInterfaceId := Some "eni-0123456789abcdef0";
                     NetworkInterface.Status := "available";
                     NetworkInterface.Description := None;
                     NetworkInterface.Attachment := None;
                     NetworkInterface.TagSet := [] |} ]];
          ec2.DescribeImages := λ _, Ok [];
          ec2.DescribeInstances := λ _, Ok [];
          ec2.DescribeVolumes := λ _, Ok [];
          ec2.CreateTags := λ _ _, None |};
     Region := "us-east-1";
     PrivateMode := false |}.

(** A machine whose history holds one action, not undone, of a run that
    named [X] as [Y], with the operator about to answer [y] *)
Definition ledgerWorld : World :=
  {| tags := {[ "i-0123456789abcdef0" := "Y" ]}; requests := [];
     file := Stored {| Actions := [recordedEntry "2025-01-26T12:00:10Z" "123456789012"
                                     "run-0011223344556677" resourceXY] |};
     writes := 1; clock := 0; stdin := ["y" +:+ String "010" ""]; stdout := [] |}.

(** A machine whose history holds one action, not undone, that was recorded
    without a run id, with the operator about to answer [y] *)
Definition ledgerWithoutRunID : World :=
  {| tags := {[ "i-0123456789abcdef0" := "Y" ]}; requests := [];
     file := Stored {| Actions := [recordedEntry "2025-01-26T12:00:10Z" "123456789012"
                                     "" resourceXY] |};
     writes := 1; clock := 0; stdin := ["y" +:+ String "010" ""]; stdout := [] |}.

(** A command line without flags, and a process whose caller is known and
    whose configuration yields the provider above, with the operator about to
    answer [all] *)
Definition plainFlags : Flags :=
  {| region := "us-east-1"; privateMode := false; showVersion := false;
     undoFlag := false |}.

Definition knownProcess : Process :=
  {| version := ""; versionFull := ""; versionMajor := 1; versionMinor := 2;
     randRead := None; unix := 1737892800;
     LoadDefaultConfig := λ _, inr (EC2Client providerOfInstanceAndInterface);
     DefaultClient := acceptingClient;
     GetCallerIdentity :=
       inr {| GetCallerIdentityOutput.Account := Some "123456789012";
              GetCallerIdentityOutput.Arn :=
                Some "arn:aws:iam::123456789012:user/operator" |} |}.

Definition worldOfAll : World :=
  {| tags := ∅; requests := []; file := Missing; writes := 0; clock := 0;
     stdin := ["all" +:+ String "010" ""]; stdout := [] |}.

(** * Properties *)

(** ** Strings *)

Section StringFacts.

Implicit Types s p q r m : string.

Lemma append_cons c s r : String c s +:+ r = String c (s +:+ r).
Proof. reflexivity. Qed.

Lemma append_empty_l s : "" +:+ s = s.
Proof. reflexivity. Qed.

Lemma append_empty_r s : s +:+ "" = s.
Proof. induction s as [|c s IH]; [done|]. by rewrite append_cons, IH. Qed.

Lemma append_assoc s r m : (s +:+ r) +:+ m = s +:+ r +:+ m.
Proof. induction s as [|c s IH]; [done|]. by rewrite !append_cons, IH. Qed.

Lemma length_append s r : String.length (s +:+ r) = String.length s + String.length r.
Proof. induction s as [|c s IH]; [done|]. rewrite append_cons. simpl. by rewrite IH. Qed.

Lemma HasPrefix_app p r : strings.HasPrefix (p +:+ r) p = true.
Proof.
  induction p as [|c p IH]; [done|].
  rewrite append_cons. simpl. rewrite IH. by rewrite bool_decide_eq_true_2.
Qed.

Lemma HasPrefix_true s p : strings.HasPrefix s p = true ↔ prefixOf p s.
Proof.
  split.
  - revert s. induction p as [|c p IH]; intros s H.
    + by exists s.
    + destruct s as [|d s]; [done|]. simpl in H.
      apply andb_true_iff in H as [Hc Hp]. apply bool_decide_eq_true in Hc as ->.
      destruct (IH _ Hp) as [r ->]. by exists r.
  - intros [r ->]. apply HasPrefix_app.
Qed.

Lemma drop_length_app s r : strings.drop (String.length s) (s +:+ r) = r.
Proof. induction s as [|c s IH]; [done|]. rewrite append_cons. by simpl. Qed.

Lemma drop_split n s : n ≤ String.length s →
  ∃ a, s = a +:+ strings.drop n s ∧ String.length a = n.
Proof.
  revert s. induction n as [|n IH]; intros s Hn.
  - by exists "".
  - destruct s as [|c s]; simpl in *; [lia|].
    destruct (IH s) as (a & Ha & Hl); [lia|].
    exists (String c a). rewrite append_cons. simpl. by rewrite <-Ha, Hl.
Qed.

Lemma HasSuffix_app r q : strings.HasSuffix (r +:+ q) q = true.
Proof.
  unfold strings.HasSuffix. rewrite length_append.
  replace (String.length r + String.length q - String.length q) with (String.length r) by lia.
  rewrite drop_length_app. apply andb_true_iff; split; apply bool_decide_eq_true; [lia|done].
Qed.

Lemma HasSuffix_true s q : strings.HasSuffix s q = true ↔ suffixOf q s.
Proof.
  split.
  - unfold strings.HasSuffix. intros [Hl Hd]%andb_true_iff.
    apply bool_decide_eq_true in Hl, Hd.
    destruct (drop_split (String.length s - String.length q) s) as (a & Ha & _); [lia|].
    exists a. by rewrite Hd in Ha.
  - intros [r ->]. apply HasSuffix_app.
Qed.

Lemma Contains_prefix s m : strings.HasPrefix s m = true → strings.Contains s m = true.
Proof. intros H. destruct s; simpl; by rewrite H. Qed.

Lemma Contains_app a m b : strings.Contains (a +:+ m +:+ b) m = true.
Proof.
  induction a as [|c a IH].
  - rewrite append_empty_l. apply Contains_prefix, HasPrefix_app.
  - rewrite append_cons. simpl. rewrite IH. apply orb_true_r.
Qed.

Lemma Contains_true s m : strings.Contains s m = true ↔ substringOf m s.
Proof.
  split.
  - induction s as [|c s IH]; simpl; intros H.
    + rewrite orb_false_r in H. apply HasPrefix_true in H as [r Hr]. by exists "", r.
    + apply orb_true_iff in H as [H|H].
      * apply HasPrefix_true in H as [r Hr]. by exists "", r.
      * destruct (IH H) as (a & b & ->). by exists (String c a), b.
  - intros (a & b & ->). apply Contains_app.
Qed.

(** A suffix of [p +:+ r] that is no longer than [r] is a suffix of [r]. *)
Lemma HasSuffix_app_inv p r q :
  strings.HasSuffix (p +:+ r) q = true → String.length q ≤ String.length r →
  ∃ a, r = a +:+ q.
Proof.
  intros [a Ha]%HasSuffix_true Hl.
  assert (String.length p ≤ String.length a) as Hpa.
  { apply (f_equal String.length) in Ha. rewrite !length_append in Ha. lia. }
  clear Hl. revert a Ha Hpa. induction p as [|c p IH]; intros a Ha Hpa.
  - by exists a.
  - destruct a as [|d a]; simpl in Hpa; [lia|].
    rewrite !append_cons in Ha. injection Ha as -> Ha. apply (IH a); [done|lia].
Qed.

End StringFacts.

Global Arguments strings.HasPrefix : simpl never.
Global Arguments strings.HasSuffix : simpl never.
Global Arguments strings.Contains : simpl never.
Global Arguments isQuickTagCreatedName : simpl never.
Global Arguments isQuickTagNameStillValid : simpl never.

(** ** The classifier, kind by kind *)

Lemma created_volume name :
  isQuickTagCreatedName name "volume"
  = bool_decide (name = "unattached") || strings.HasPrefix name "unattached-"
    || strings.HasPrefix name "unknown-".
Proof. reflexivity. Qed.

Lemma valid_volume name currentState extraInfo :
  isQuickTagNameStillValid name "volume" currentState extraInfo
  = if negb (isQuickTagCreatedName name "volume") then true
    else if bool_decide (name = "unattached") || strings.HasPrefix name "unattached-"
    then bool_decide (currentState = "available") || bool_decide (extraInfo = "unattached")
    else true.
Proof.
  unfold isQuickTagNameStillValid.
  destruct (negb (isQuickTagCreatedName name "volume")); [done|].
  change (bool_decide ("volume" = "instance")) with false.
  change (bool_decide ("volume" = "volume")) with true. cbv iota.
  by destruct (bool_decide (name = "unattached")), (strings.HasPrefix name "unattached-").
Qed.

Lemma valid_eni name currentState extraInfo :
  isQuickTagNameStillValid name "eni" currentState extraInfo
  = if negb (isQuickTagCreatedName name "eni") then true
    else if bool_decide (name = "unattached-eni") then bool_decide (extraInfo = "unattached")
    else if strings.HasPrefix name "unattached-" then bool_decide (extraInfo = "unattached")
    else if strings.Contains name "-eni" then bool_decide (extraInfo ≠ "unattached")
    else true.
Proof. reflexivity. Qed.

Lemma valid_not_created name kind currentState extraInfo :
  isQuickTagCreatedName name kind = false →
  isQuickTagNameStillValid name kind currentState extraInfo = true.
Proof. intros H. unfold isQuickTagNameStillValid. by rewrite H. Qed.

(** C3: for the kind [volume], a name that encodes "unattached" (the name
    [unattached], or a name with the prefix [unattached-]) is still valid if
    and only if the current state is [available] or the extra information is
    [unattached]; every other self-generated volume name is valid whatever
    the state and the extra information.  In particular [unattached] is not
    valid on an [in-use] volume mounted at [/dev/xvda1], and valid on an
    [available], [unattached] one. *)
Theorem volume_name_validity (name currentState extraInfo : string) :
  (name = "unattached" ∨ prefixOf "unattached-" name →
     (isQuickTagNameStillValid name "volume" currentState extraInfo = true
      ↔ currentState = "available" ∨ extraInfo = "unattached"))
  ∧ (isQuickTagCreatedName name "volume" = true →
     ¬ (name = "unattached" ∨ prefixOf "unattached-" name) →
     isQuickTagNameStillValid name "volume" currentState extraInfo = true)
  ∧ isQuickTagNameStillValid "unattached" "volume" "in-use" "/dev/xvda1" = false
  ∧ isQuickTagNameStillValid "unattached" "volume" "available" "unattached" = true.
Proof.
  split; [|split; [|done]].
  - intros Hname. rewrite valid_volume, created_volume.
    assert (bool_decide (name = "unattached") || strings.HasPrefix name "unattached-" = true)
      as Hunattached.
    { destruct Hname as [->|Hp]; [done|].
      apply HasPrefix_true in Hp. rewrite Hp. apply orb_true_r. }
    rewrite Hunattached. simpl.
    rewrite orb_true_iff, !bool_decide_eq_true. tauto.
  - intros Hcreated Hname. rewrite valid_volume, Hcreated. simpl.
    destruct (bool_decide (name = "unattached")) eqn:Hn.
    { apply bool_decide_eq_true in Hn. tauto. }
    destruct (strings.HasPrefix name "unattached-") eqn:Hp; [|done].
    apply HasPrefix_true in Hp. tauto.
Qed.

Lemma volume_name_validity_witness :
  (isQuickTagNameStillValid "unattached-/dev/xvda1" "volume" "in-use" "unattached" = true
   ↔ "in-use" = "available" ∨ "unattached" = "unattached")
  ∧ isQuickTagNameStillValid "unknown-volume" "volume" "in-use" "/dev/xvda1" = true.
Proof.
  destruct (volume_name_validity "unattached-/dev/xvda1" "in-use" "unattached")
    as (Hstale & _).
  destruct (volume_name_validity "unknown-volume" "in-use" "/dev/xvda1")
    as (_ & Hother & _).
  split.
  - apply Hstale. right. by exists "/dev/xvda1".
  - apply Hother; [done|].
    intros [?|[r ?]]; discriminate.
Defined.

Lemma created_eni name :
  isQuickTagCreatedName name "eni" = true ↔
    name = "unattached-eni"
    ∨ (prefixOf "service-" name ∧ suffixOf "-eni" name)
    ∨ (prefixOf "attached-" name ∧ suffixOf "-eni" name)
    ∨ (prefixOf "lambda-" name ∧ suffixOf "-eni" name)
    ∨ (prefixOf "rds-" name ∧ suffixOf "-eni" name)
    ∨ (prefixOf "elasticache-" name ∧ suffixOf "-eni" name)
    ∨ (prefixOf "elb-" name ∧ suffixOf "-eni" name)
    ∨ (prefixOf "nat-" name ∧ suffixOf "-eni" name)
    ∨ prefixOf "rds-eni-attach-" name
    ∨ prefixOf "elasticache-eni-attach-" name
    ∨ prefixOf "elb-eni-attach-" name
    ∨ prefixOf "lambda-eni-attach-" name
    ∨ prefixOf "nat-eni-attach-" name
    ∨ prefixOf "service-eni-attach-" name
    ∨ prefixOf "rds-ela-attach-" name
    ∨ prefixOf "elasticache-ela-attach-" name
    ∨ prefixOf "elb-ela-attach-" name
    ∨ prefixOf "lambda-ela-attach-" name
    ∨ prefixOf "nat-ela-attach-" name
    ∨ prefixOf "service-ela-attach-" name
    ∨ (substringOf "-attach-" name ∧ suffixOf "-eni" name)
    ∨ (prefixOf "eni-" name ∧ 21 ≤ String.length name ≤ 25)
    ∨ name = ""
    ∨ prefixOf "Network interface" name
    ∨ (substringOf "primary" name ∧ substringOf "interface" name).
Proof.
  change (isQuickTagCreatedName name "eni") with
    (bool_decide (name = "unattached-eni")
     || strings.HasPrefix name "service-" && strings.HasSuffix name "-eni"
     || strings.HasPrefix name "attached-" && strings.HasSuffix name "-eni"
     || strings.HasPrefix name "lambda-" && strings.HasSuffix name "-eni"
     || strings.HasPrefix name "rds-" && strings.HasSuffix name "-eni"
     || strings.HasPrefix name "elasticache-" && strings.HasSuffix name "-eni"
     || strings.HasPrefix name "elb-" && strings.HasSuffix name "-eni"
     || strings.HasPrefix name "nat-" && strings.HasSuffix name "-eni"
     || strings.HasPrefix name "rds-eni-attach-"
     || strings.HasPrefix name "elasticache-eni-attach-"
     || strings.HasPrefix name "elb-eni-attach-"
     || strings.HasPrefix name "lambda-eni-attach-"
     || strings.HasPrefix name "nat-eni-attach-"
     || strings.HasPrefix name "service-eni-attach-"
     || strings.HasPrefix name "rds-ela-attach-"
     || strings.HasPrefix name "elasticache-ela-attach-"
     || strings.HasPrefix name "elb-ela-attach-"
     || strings.HasPrefix name "lambda-ela-attach-"
     || strings.HasPrefix name "nat-ela-attach-"
     || strings.HasPrefix name "service-ela-attach-"
     || strings.Contains name "-attach-" && strings.HasSuffix name "-eni"
     || strings.HasPrefix name "eni-"
        && bool_decide (21 ≤ String.length name) && bool_decide (String.length name ≤ 25)
     || bool_decide (name = "")
     || strings.HasPrefix name "Network interface"
     || strings.Contains name "primary" && strings.Contains name "interface").
  rewrite !orb_true_iff, !andb_true_iff, !bool_decide_eq_true,
    ?HasPrefix_true, ?HasSuffix_true, ?Contains_true.
  tauto.
Qed.

(** A name with the prefix [p] and the suffix [-eni] is [p], an id and [-eni],
    unless the two overlap. *)
Lemma prefix_eni_suffix p name :
  prefixOf p name → suffixOf "-eni" name →
  (∃ id, name = p +:+ id +:+ "-eni")
  ∨ (∃ r, name = p +:+ r ∧ String.length r < 4
          ∧ strings.drop (String.length (p +:+ r) - 4) (p +:+ r) = "-eni").
Proof.
  intros [r ->] Hs%HasSuffix_true.
  destruct (decide (4 ≤ String.length r)) as [Hr|Hr].
  - left. destruct (HasSuffix_app_inv p r "-eni" Hs Hr) as [id ->]. by exists id.
  - right. exists r. split; [done|]. split; [lia|].
    unfold strings.HasSuffix in Hs. apply andb_true_iff in Hs as [_ Hs].
    by apply bool_decide_eq_true in Hs.
Qed.

(** The overlap, for a literal prefix: only [-eni] itself fits. *)
Ltac overlap_cases H :=
  destruct H as (r & -> & Hlen & Hdrop);
  destruct r as [|a [|b [|c [|d r]]]]; simpl in Hlen; try lia;
  vm_compute in Hdrop; simplify_eq.

(** Membership in a literal list *)
Ltac listed := unfold serviceTypes, attachPrefixTypes; repeat constructor.

Lemma typed_eni_shape t name :
  t ∈ serviceTypes → prefixOf (t +:+ "-") name → suffixOf "-eni" name →
  (∃ id, name = t +:+ "-" +:+ id +:+ "-eni") ∨ name = t +:+ "-eni".
Proof.
  intros Ht Hp Hs.
  destruct (prefix_eni_suffix _ _ Hp Hs) as [[id ->]|H].
  { left. exists id. by rewrite append_assoc. }
  right. unfold serviceTypes in Ht.
  repeat (apply elem_of_cons in Ht as [->|Ht]); [..|by apply elem_of_nil in Ht];
    overlap_cases H; reflexivity.
Qed.

Lemma typed_eni_created t id :
  t ∈ serviceTypes → isQuickTagCreatedName (t +:+ "-" +:+ id +:+ "-eni") "eni" = true.
Proof.
  intros Ht. apply created_eni.
  assert (suffixOf "-eni" (t +:+ "-" +:+ id +:+ "-eni")) as Hs.
  { exists (t +:+ "-" +:+ id). by rewrite !append_assoc. }
  assert (prefixOf (t +:+ "-") (t +:+ "-" +:+ id +:+ "-eni")) as Hp.
  { exists (id +:+ "-eni"). by rewrite append_assoc. }
  unfold serviceTypes in Ht.
  repeat (apply elem_of_cons in Ht as [->|Ht]); [..|by apply elem_of_nil in Ht]; tauto.
Qed.

(** C4, amended: for the kind [eni] a name is self-generated exactly when it
    has one of the listed shapes ([unattached-eni]; a service type, an id and
    [-eni]; [-attach-] inside and [-eni] at the end; [eni-] and 21 to 25
    characters; the empty name; [Network interface] at the start; [primary]
    and [interface] inside) or one of two more: a service type followed by
    [-eni-attach-] or [-ela-attach-] with any ending, or a service type
    followed by [-eni] alone.  The empty name is self-generated for [eni], and
    not for [instance] and [volume]. *)
Theorem eni_self_generated_shapes (name : string) :
  (isQuickTagCreatedName name "eni" = true ↔ listedENIShape name ∨ unlistedENIShape name)
  ∧ (∀ t id, t ∈ serviceTypes →
       isQuickTagCreatedName (t +:+ "-" +:+ id +:+ "-eni") "eni" = true)
  ∧ isQuickTagCreatedName "" "eni" = true
  ∧ isQuickTagCreatedName "" "instance" = false
  ∧ isQuickTagCreatedName "" "volume" = false.
Proof.
  split; [|split; [apply typed_eni_created|done]].
  rewrite created_eni. unfold listedENIShape, unlistedENIShape. split.
  - assert (∀ t, t ∈ serviceTypes → prefixOf (t +:+ "-") name → suffixOf "-eni" name →
              listedENIShape name ∨ unlistedENIShape name) as Htyped.
    { intros t Ht Hp Hs. destruct (typed_eni_shape t name Ht Hp Hs) as [[id Hid]|Hov].
      - left. right. left. by exists t, id.
      - right. right. by exists t. }
    assert (∀ t, t ∈ attachPrefixTypes →
              prefixOf (t +:+ "-eni-attach-") name ∨ prefixOf (t +:+ "-ela-attach-") name →
              listedENIShape name ∨ unlistedENIShape name) as Hattach.
    { intros t Ht Hp. right. left. by exists t. }
    unfold listedENIShape, unlistedENIShape in Htyped, Hattach.
    intros [H|[[Hp Hs]|[[Hp Hs]|[[Hp Hs]|[[Hp Hs]|[[Hp Hs]|[[Hp Hs]|[[Hp Hs]|H]]]]]]]].
    { tauto. }
    { apply (Htyped "service"); [listed|done..]. }
    { apply (Htyped "attached"); [listed|done..]. }
    { apply (Htyped "lambda"); [listed|done..]. }
    { apply (Htyped "rds"); [listed|done..]. }
    { apply (Htyped "elasticache"); [listed|done..]. }
    { apply (Htyped "elb"); [listed|done..]. }
    { apply (Htyped "nat"); [listed|done..]. }
    destruct H as [Hp|[Hp|[Hp|[Hp|[Hp|[Hp|[Hp|[Hp|[Hp|[Hp|[Hp|[Hp|H]]]]]]]]]]]].
    { apply (Hattach "rds"); [listed|by left]. }
    { apply (Hattach "elasticache"); [listed|by left]. }
    { apply (Hattach "elb"); [listed|by left]. }
    { apply (Hattach "lambda"); [listed|by left]. }
    { apply (Hattach "nat"); [listed|by left]. }
    { apply (Hattach "service"); [listed|by left]. }
    { apply (Hattach "rds"); [listed|by right]. }
    { apply (Hattach "elasticache"); [listed|by right]. }
    { apply (Hattach "elb"); [listed|by right]. }
    { apply (Hattach "lambda"); [listed|by right]. }
    { apply (Hattach "nat"); [listed|by right]. }
    { apply (Hattach "service"); [listed|by right]. }
    tauto.
  - intros [H|H].
    + destruct H as [H|[(t & id & Ht & ->)|H]]; [tauto| |tauto].
      apply created_eni, typed_eni_created, Ht.
    + destruct H as [(t & Ht & Hp)|(t & Ht & ->)].
      * unfold attachPrefixTypes in Ht.
        repeat (apply elem_of_cons in Ht as [->|Ht]); [..|by apply elem_of_nil in Ht];
          tauto.
      * unfold serviceTypes in Ht.
        repeat (apply elem_of_cons in Ht as [->|Ht]); [..|by apply elem_of_nil in Ht];
          apply created_eni; reflexivity.
Qed.

(** C4 as stated fails: [rds-eni-attach-123] is self-generated for [eni] and
    has none of the listed shapes (it does not end in [-eni]). *)
Lemma eni_listed_shapes_not_exact :
  isQuickTagCreatedName "rds-eni-attach-123" "eni" = true
  ∧ ¬ listedENIShape "rds-eni-attach-123".
Proof.
  split; [reflexivity|].
  assert (¬ suffixOf "-eni" "rds-eni-attach-123") as Hs.
  { intros H%HasSuffix_true. discriminate. }
  intros [H|[(t & id & _ & H)|[[_ H]|[[H _]|[H|[H|[H _]]]]]]].
  - discriminate.
  - apply Hs. exists (t +:+ "-" +:+ id). by rewrite !append_assoc.
  - done.
  - apply HasPrefix_true in H. discriminate.
  - discriminate.
  - apply HasPrefix_true in H. discriminate.
  - apply Contains_true in H. discriminate.
Qed.

(** C10: for the kind [eni], a self-generated name that is not
    [unattached-eni], does not start with [unattached-] and does not contain
    [-eni] is still valid whatever the state and the extra information; the
    empty name, a bare id ([eni-], 21 to 25 characters), a name beginning
    with [Network interface] and a name containing [primary] and [interface]
    are self-generated names.  An interface whose [Name] tag holds such a name
    does not need tagging, and the scan leaves it out of the candidates. *)
Theorem eni_placeholder_name_stays_valid (name currentState extraInfo : string) :
  (name = ""
   ∨ (prefixOf "eni-" name ∧ 21 ≤ String.length name ≤ 25)
   ∨ prefixOf "Network interface" name
   ∨ (substringOf "primary" name ∧ substringOf "interface" name) →
   isQuickTagCreatedName name "eni" = true)
  ∧ (isQuickTagCreatedName name "eni" = true →
     name ≠ "unattached-eni" → ¬ prefixOf "unattached-" name → ¬ substringOf "-eni" name →
     isQuickTagNameStillValid name "eni" currentState extraInfo = true
     ∧ ∀ eni, findNameTag (NetworkInterface.TagSet eni) = (true, name) →
         eniNeedsTagging eni = false ∧ ∀ acc, scanENI acc eni = Ok acc).
Proof.
  split.
  { intros H. apply created_eni. tauto. }
  intros Hcreated Hne Hprefix Hsub.
  assert (∀ state extra, isQuickTagNameStillValid name "eni" state extra = true) as Hvalid.
  { intros state extra. rewrite valid_eni, Hcreated. cbn [negb].
    rewrite bool_decide_eq_false_2 by done.
    destruct (strings.HasPrefix name "unattached-") eqn:Hp.
    { by apply HasPrefix_true in Hp. }
    destruct (strings.Contains name "-eni") eqn:Hc; [|done].
    by apply Contains_true in Hc. }
  split; [apply Hvalid|].
  intros eni Htag.
  assert (eniNeedsTagging eni = false) as Hneeds.
  { unfold eniNeedsTagging. rewrite Htag.
    rewrite (Hvalid (NetworkInterface.Status eni) (getENIAttachmentInfo eni)).
    cbn [negb andb orb]. apply andb_false_r. }
  split; [exact Hneeds|]. intros [eniList attachmentIDs]. unfold scanENI.
  rewrite Hneeds. reflexivity.
Qed.

Lemma eni_placeholder_name_stays_valid_witness :
  isQuickTagNameStillValid "Network interface" "eni" "in-use" "unattached" = true
  ∧ scanENI ([], ∅)
      {| NetworkInterface.NetworkInterfaceId := Some "eni-0123456789abcdef0";
         NetworkInterface.Status := "available";
         NetworkInterface.Description := None;
         NetworkInterface.Attachment := None;
         NetworkInterface.TagSet := [ {| Tag.Key := Some "Name";
                                         Tag.Value := Some "Network interface" |} ] |}
    = Ok ([], ∅).
Proof.
  destruct (eni_placeholder_name_stays_valid "Network interface" "in-use" "unattached")
    as [Hshape Hvalid].
  destruct Hvalid as [Hv Hscan].
  - apply Hshape. right. right. left. by exists "".
  - discriminate.
  - intros H%HasPrefix_true. discriminate.
  - intros H%Contains_true. discriminate.
  - split; [exact Hv|]. by apply Hscan.
Defined.

(** ** ELB-name extraction *)

Lemma namesELB_nil i : ¬ namesELB [] i.
Proof. intros (token & following & H & _). by rewrite lookup_nil in H. Qed.

Lemma namesELB_singleton token i : ¬ namesELB [token] i.
Proof. intros (t & following & _ & _ & H & _). by destruct i. Qed.

Lemma namesELB_further token tokens i : namesELB (token :: tokens) (S i) ↔ namesELB tokens i.
Proof. reflexivity. Qed.

Lemma extractELBName_loop_first (parts : list string) :
  (∃ i following,
     namesELB parts i ∧ (∀ j, j < i → ¬ namesELB parts j)
     ∧ parts !! S i = Some following
     ∧ extractELBName_loop parts = default "" (strings.Split following "/" !! 1))
  ∨ ((∀ i, ¬ namesELB parts i) ∧ extractELBName_loop parts = "").
Proof.
  induction parts as [|part rest IH].
  { right. split; [apply namesELB_nil|reflexivity]. }
  destruct rest as [|elbPart rest].
  { right. split; [apply namesELB_singleton|reflexivity]. }
  assert (namesELB (part :: elbPart :: rest) 0
          ↔ strings.ToLower part = "elb" ∧ 2 ≤ length (strings.Split elbPart "/")) as Hhere.
  { split.
    - intros (t & f & [= <-] & Ht & [= <-] & Hf). done.
    - intros [Ht Hf]. by exists part, elbPart. }
  cbn [extractELBName_loop].
  destruct (decide (strings.ToLower part = "elb")) as [Helb|Helb].
  - rewrite (bool_decide_eq_true_2 _ Helb).
    destruct (decide (2 ≤ length (strings.Split elbPart "/"))) as [Hseg|Hseg].
    + rewrite (bool_decide_eq_true_2 _ Hseg). left. exists 0, elbPart.
      split; [by apply Hhere|]. split; [lia|]. done.
    + rewrite (bool_decide_eq_false_2 _ Hseg).
      destruct IH as [(i & following & Hi & Hmin & Hf & Hr)|[Hnone Hr]].
      * left. exists (S i), following. split; [done|]. split; [|done].
        intros [|j] Hj; [rewrite Hhere; tauto|]. apply Hmin. lia.
      * right. split; [|done]. intros [|i]; [rewrite Hhere; tauto|]. apply Hnone.
  - rewrite (bool_decide_eq_false_2 _ Helb).
    destruct IH as [(i & following & Hi & Hmin & Hf & Hr)|[Hnone Hr]].
    + left. exists (S i), following. split; [done|]. split; [|done].
      intros [|j] Hj; [rewrite Hhere; tauto|]. apply Hmin. lia.
    + right. split; [|done]. intros [|i]; [rewrite Hhere; tauto|]. apply Hnone.
Qed.

(** C2, amended: [extractELBName] splits the description on white space and
    takes the first token equal to [elb], whatever the case of its letters,
    whose next token has at least two segments between [/]; the result is the
    segment at index 1 of that next token.  When no token is such, the result
    is the empty string.  So ["ELB app/canvas-lb-sbx/35b9ec36d721abfe"] gives
    ["canvas-lb-sbx"], and ["Not an ELB description"] and [""] give [""].
    White space is Unicode's: a no-break space separates tokens as well. *)
Theorem extractELBName_first_named (description : string) :
  ((∃ i following,
      namesELB (strings.Fields description) i
      ∧ (∀ j, j < i → ¬ namesELB (strings.Fields description) j)
      ∧ strings.Fields description !! S i = Some following
      ∧ extractELBName description = default "" (strings.Split following "/" !! 1))
   ∨ ((∀ i, ¬ namesELB (strings.Fields description) i) ∧ extractELBName description = ""))
  ∧ extractELBName "ELB app/canvas-lb-sbx/35b9ec36d721abfe" = "canvas-lb-sbx"
  ∧ extractELBName "Not an ELB description" = ""
  ∧ extractELBName "" = ""
  ∧ strings.Fields ("ELB" +:+ noBreakSpace +:+ "net/my-lb/1") = ["ELB"; "net/my-lb/1"]
  ∧ extractELBName ("ELB" +:+ noBreakSpace +:+ "net/my-lb/1") = "my-lb".
Proof.
  split; [|by vm_compute].
  apply extractELBName_loop_first.
Qed.

(** C2 as stated fails: in ["elb x elb a/b"] the token after the first [elb]
    has one segment, so the extraction as worded gives the empty string; the
    code goes on to the second [elb] and returns ["b"]. *)
Lemma extractELBName_goes_on_after_elb :
  strings.Fields "elb x elb a/b" = ["elb"; "x"; "elb"; "a/b"]
  ∧ strings.Split "x" "/" = ["x"]
  ∧ extractELBName_spec "elb x elb a/b" = ""
  ∧ extractELBName "elb x elb a/b" = "b".
Proof. by vm_compute. Qed.

(** ** Attachment resolver *)

Lemma resolver_service eni attachment attachmentId description :
  NetworkInterface.Attachment eni = Some attachment →
  NetworkInterfaceAttachment.InstanceId attachment = None →
  NetworkInterfaceAttachment.AttachmentId attachment = Some attachmentId →
  NetworkInterface.Description eni = Some description →
  getENIAttachmentInfo eni =
    let desc := strings.ToLower description in
    if strings.Contains desc "lambda" then "attached-lambda-" +:+ attachmentId
    else if strings.Contains desc "rds" then "attached-rds-" +:+ attachmentId
    else if strings.Contains desc "elasticache" || strings.Contains desc "cache"
    then "attached-elasticache-" +:+ attachmentId
    else if strings.Contains desc "elb" || strings.Contains desc "load balancer"
    then if bool_decide (extractELBName description ≠ "")
         then "attached-elb-" +:+ extractELBName description
         else "attached-elb-" +:+ attachmentId
    else if strings.Contains desc "nat" then "attached-nat-" +:+ attachmentId
    else "attached-service-" +:+ attachmentId.
Proof.
  intros Ha Hi Hid Hd. unfold getENIAttachmentInfo. rewrite Ha, Hi, Hid, Hd. reflexivity.
Qed.

Lemma resolver_spec_service eni attachment attachmentId description :
  NetworkInterface.Attachment eni = Some attachment →
  NetworkInterfaceAttachment.InstanceId attachment = None →
  NetworkInterfaceAttachment.AttachmentId attachment = Some attachmentId →
  NetworkInterface.Description eni = Some description →
  resolveENI_spec eni = getENIAttachmentInfo eni.
Proof.
  intros Ha Hi Hid Hd.
  rewrite (resolver_service eni attachment attachmentId description) by done.
  unfold resolveENI_spec. rewrite Ha, Hi, Hid, Hd.
  unfold inferServiceType, servicePrecedence.
  cbn [List.find existsb fst snd orb]. rewrite !orb_false_r. cbv zeta.
  change (default "" (Some description)) with description.
  destruct (strings.Contains (strings.ToLower description) "lambda"); [reflexivity|].
  destruct (strings.Contains (strings.ToLower description) "rds"); [reflexivity|].
  destruct (strings.Contains (strings.ToLower description) "elasticache"
            || strings.Contains (strings.ToLower description) "cache"); [reflexivity|].
  destruct (strings.Contains (strings.ToLower description) "elb"
            || strings.Contains (strings.ToLower description) "load balancer").
  { by destruct (bool_decide (extractELBName description ≠ "")). }
  by destruct (strings.Contains (strings.ToLower description) "nat").
Qed.

(** C5: for an interface attached by an attachment id and no instance id, the
    resolver infers the service type from the description, whatever the case
    of its letters, in the precedence [lambda], [rds], [elasticache] or
    [cache], [elb] or [load balancer], [nat], and [service] when nothing
    matches; it answers [attached-<type>-<attachmentId>], except for [elb]
    when the extraction of the load-balancer name gives a name, where it
    answers [attached-elb-<lbName>].  So [lambda] wins over [elb], and [cache]
    wins over [elb]: with both in the description the answer is that of
    [elasticache], or that of [lambda] or [rds] when one of these, which come
    before [cache], is in it too.  A description with [elb] or
    [load balancer] and nothing that comes before yields
    [attached-elb-<lbName>] when the extraction gives a name, as
    ["ELB app/canvas-lb-sbx/35b9ec36d721abfe"] does, and
    [attached-elb-<attachmentId>] when it gives none, as
    ["Classic load balancer"] does.  No attachment gives [unattached], an
    instance id gives [attached-to-<instanceId>], neither id gives
    [attached-unknown]. *)
Theorem resolver_follows_precedence (eni : NetworkInterface.t) :
  getENIAttachmentInfo eni = resolveENI_spec eni
  ∧ (NetworkInterface.Attachment eni = None → getENIAttachmentInfo eni = "unattached")
  ∧ (∀ attachment instanceId,
       NetworkInterface.Attachment eni = Some attachment →
       NetworkInterfaceAttachment.InstanceId attachment = Some instanceId →
       getENIAttachmentInfo eni = "attached-to-" +:+ instanceId)
  ∧ (∀ attachment,
       NetworkInterface.Attachment eni = Some attachment →
       NetworkInterfaceAttachment.InstanceId attachment = None →
       NetworkInterfaceAttachment.AttachmentId attachment = None →
       getENIAttachmentInfo eni = "attached-unknown")
  ∧ (∀ attachment attachmentId description,
       NetworkInterface.Attachment eni = Some attachment →
       NetworkInterfaceAttachment.InstanceId attachment = None →
       NetworkInterfaceAttachment.AttachmentId attachment = Some attachmentId →
       NetworkInterface.Description eni = Some description →
       (substringOf "lambda" (strings.ToLower description) →
        substringOf "elb" (strings.ToLower description) →
        getENIAttachmentInfo eni = "attached-lambda-" +:+ attachmentId)
       ∧ (substringOf "cache" (strings.ToLower description) →
          substringOf "elb" (strings.ToLower description) →
          ¬ substringOf "lambda" (strings.ToLower description) →
          ¬ substringOf "rds" (strings.ToLower description) →
          getENIAttachmentInfo eni = "attached-elasticache-" +:+ attachmentId)
       ∧ (substringOf "cache" (strings.ToLower description) →
          substringOf "elb" (strings.ToLower description) →
          getENIAttachmentInfo eni
          = if strings.Contains (strings.ToLower description) "lambda"
            then "attached-lambda-" +:+ attachmentId
            else if strings.Contains (strings.ToLower description) "rds"
            then "attached-rds-" +:+ attachmentId
            else "attached-elasticache-" +:+ attachmentId)
       ∧ (substringOf "elb" (strings.ToLower description)
          ∨ substringOf "load balancer" (strings.ToLower description) →
          ¬ substringOf "lambda" (strings.ToLower description) →
          ¬ substringOf "rds" (strings.ToLower description) →
          ¬ substringOf "cache" (strings.ToLower description) →
          (extractELBName description ≠ "" →
           getENIAttachmentInfo eni = "attached-elb-" +:+ extractELBName description)
          ∧ (extractELBName description = "" →
             getENIAttachmentInfo eni = "attached-elb-" +:+ attachmentId))
       ∧ (description = "ELB app/canvas-lb-sbx/35b9ec36d721abfe" →
          getENIAttachmentInfo eni = "attached-elb-canvas-lb-sbx")
       ∧ (description = "ELB" +:+ noBreakSpace +:+ "net/my-lb/1" →
          getENIAttachmentInfo eni = "attached-elb-my-lb")
       ∧ (description = "Classic load balancer" →
          getENIAttachmentInfo eni = "attached-elb-" +:+ attachmentId)
       ∧ (description = "NAT gateway" →
          getENIAttachmentInfo eni = "attached-nat-" +:+ attachmentId)
       ∧ (description = "VPC endpoint" →
          getENIAttachmentInfo eni = "attached-service-" +:+ attachmentId)).
Proof.
  split; [|split; [|split; [|split]]].
  - destruct (NetworkInterface.Attachment eni) as [attachment|] eqn:Ha.
    + destruct (NetworkInterfaceAttachment.InstanceId attachment) as [instanceId|] eqn:Hi.
      { unfold getENIAttachmentInfo, resolveENI_spec. by rewrite Ha, Hi. }
      destruct (NetworkInterfaceAttachment.AttachmentId attachment) as [attachmentId|] eqn:Hid.
      2: { unfold getENIAttachmentInfo, resolveENI_spec. by rewrite Ha, Hi, Hid. }
      destruct (NetworkInterface.Description eni) as [description|] eqn:Hd.
      { symmetry. by eapply resolver_spec_service. }
      unfold getENIAttachmentInfo, resolveENI_spec. by rewrite Ha, Hi, Hid, Hd.
    + unfold getENIAttachmentInfo, resolveENI_spec. by rewrite Ha.
  - intros Ha. unfold getENIAttachmentInfo. by rewrite Ha.
  - intros attachment instanceId Ha Hi. unfold getENIAttachmentInfo. by rewrite Ha, Hi.
  - intros attachment Ha Hi Hid. unfold getENIAttachmentInfo. by rewrite Ha, Hi, Hid.
  - intros attachment attachmentId description Ha Hi Hid Hd.
    rewrite (resolver_service eni attachment attachmentId description) by done.
    cbv zeta.
    assert (∀ m, ¬ substringOf m (strings.ToLower description) →
                 strings.Contains (strings.ToLower description) m = false) as Hnot.
    { intros m Hm. apply not_true_is_false. by rewrite Contains_true. }
    split; [|split; [|split; [|split; [|split; [|split; [|split; [|split]]]]]]].
    + intros Hlambda%Contains_true _. by rewrite Hlambda.
    + intros Hcache%Contains_true _ Hlambda Hrds.
      by rewrite (Hnot _ Hlambda), (Hnot _ Hrds), Hcache, orb_true_r.
    + intros Hcache%Contains_true _.
      destruct (strings.Contains (strings.ToLower description) "lambda"); [done|].
      destruct (strings.Contains (strings.ToLower description) "rds"); [done|].
      by rewrite Hcache, orb_true_r.
    + intros Helb Hlambda Hrds Hcache.
      assert (¬ substringOf "elasticache" (strings.ToLower description)) as Helasticache.
      { intros (a & b & Hab). apply Hcache. exists (a +:+ "elasti"), b.
        by rewrite Hab, !append_assoc. }
      rewrite (Hnot _ Hlambda), (Hnot _ Hrds), (Hnot _ Hcache), (Hnot _ Helasticache).
      cbn [orb].
      assert (strings.Contains (strings.ToLower description) "elb"
              || strings.Contains (strings.ToLower description) "load balancer" = true) as ->.
      { apply orb_true_iff. by rewrite !Contains_true. }
      split; intros Hname.
      * by rewrite (bool_decide_eq_true_2 _ Hname).
      * rewrite bool_decide_eq_false_2; [done|]. by intros [].
    + intros ->. by vm_compute.
    + intros ->. by vm_compute.
    + intros ->. by vm_compute.
    + intros ->. by vm_compute.
    + intros ->. by vm_compute.
Qed.

Lemma resolver_follows_precedence_witness :
  getENIAttachmentInfo
    {| NetworkInterface.NetworkInterfaceId := Some "eni-0123456789abcdef0";
       NetworkInterface.Status := "in-use";
       NetworkInterface.Description := Some "AWS Lambda VPC ENI behind ELB app/x/1";
       NetworkInterface.Attachment :=
         Some {| NetworkInterfaceAttachment.InstanceId := None;
                 NetworkInterfaceAttachment.AttachmentId := Some "ela-attach-1" |};
       NetworkInterface.TagSet := [] |}
  = "attached-lambda-ela-attach-1"
  ∧ getENIAttachmentInfo
      {| NetworkInterface.NetworkInterfaceId := Some "eni-0123456789abcdef0";
         NetworkInterface.Status := "in-use";
         NetworkInterface.Description := Some "ELB net/my-lb/1234567890abcdef";
         NetworkInterface.Attachment :=
           Some {| NetworkInterfaceAttachment.InstanceId := None;
                   NetworkInterfaceAttachment.AttachmentId := Some "ela-attach-1" |};
         NetworkInterface.TagSet := [] |}
    = "attached-elb-my-lb".
Proof.
  split.
  - match goal with |- getENIAttachmentInfo ?e = _ =>
      destruct (resolver_follows_precedence e) as (_ & _ & _ & _ & H) end.
    edestruct H as [Hlambda _]; [reflexivity..|].
    apply Hlambda; apply Contains_true; reflexivity.
  - match goal with |- getENIAttachmentInfo ?e = _ =>
      destruct (resolver_follows_precedence e) as (_ & _ & _ & _ & H) end.
    edestruct H as (_ & _ & _ & Helb & _); [reflexivity..|].
    destruct Helb as [Hname _].
    + left. apply Contains_true. reflexivity.
    + intros Hc%Contains_true. discriminate.
    + intros Hc%Contains_true. discriminate.
    + intros Hc%Contains_true. discriminate.
    + apply Hname. discriminate.
Defined.

(** ** Name suggestion for network interfaces *)

Lemma HasPrefix_cons c s d p :
  strings.HasPrefix (String c s) (String d p) = bool_decide (c = d) && strings.HasPrefix s p.
Proof. reflexivity. Qed.

Lemma TrimPrefix_app p s : strings.TrimPrefix (p +:+ s) p = s.
Proof. unfold strings.TrimPrefix. by rewrite HasPrefix_app, drop_length_app. Qed.

(** Cutting at a one-byte separator that the text before it does not contain *)
Lemma Cut_byte c a b :
  ¬ substringOf (String c "") a →
  strings.Cut (a +:+ String c b) (String c "") = Some (a, b).
Proof.
  induction a as [|d a IH]; intros Hno.
  - rewrite append_empty_l. cbn [strings.Cut]. rewrite HasPrefix_cons.
    by rewrite bool_decide_eq_true_2.
  - rewrite append_cons. cbn [strings.Cut]. rewrite HasPrefix_cons.
    rewrite bool_decide_eq_false_2.
    + cbn [andb]. rewrite IH; [done|].
      intros (x & y & ->). apply Hno. by exists (String d x), y.
    + intros ->. apply Hno. by exists "", a.
Qed.

Lemma Cut_none c a :
  ¬ substringOf (String c "") a → strings.Cut a (String c "") = None.
Proof.
  induction a as [|d a IH]; intros Hno; [done|].
  cbn [strings.Cut]. rewrite HasPrefix_cons. rewrite bool_decide_eq_false_2.
  - cbn [andb]. rewrite IH; [done|].
    intros (x & y & ->). apply Hno. by exists (String d x), y.
  - intros ->. apply Hno. by exists "", a.
Qed.

Lemma SplitN_attached type id :
  ¬ substringOf "-" type →
  strings.SplitN ("attached-" +:+ type +:+ "-" +:+ id) "-" 3 = ["attached"; type; id].
Proof.
  intros Hno.
  change ("attached-" +:+ type +:+ "-" +:+ id)
    with ("attached" +:+ String "-" (type +:+ String "-" id)).
  cbn [strings.SplitN]. rewrite Cut_byte.
  - by rewrite Cut_byte.
  - intros H%Contains_true. discriminate.
Qed.

Lemma SplitN_attached_short id :
  ¬ substringOf "-" id → strings.SplitN ("attached-" +:+ id) "-" 3 = ["attached"; id].
Proof.
  intros Hno.
  change ("attached-" +:+ id) with ("attached" +:+ String "-" id).
  cbn [strings.SplitN]. rewrite Cut_byte.
  - by rewrite Cut_none.
  - intros H%Contains_true. discriminate.
Qed.

Lemma not_attached_to type id :
  ¬ substringOf "-" type → type ≠ "to" →
  strings.HasPrefix ("attached-" +:+ type +:+ "-" +:+ id) "attached-to-" = false.
Proof.
  intros Hno Hto. apply not_true_is_false. intros [r Hr]%HasPrefix_true.
  change ("attached-" +:+ type +:+ "-" +:+ id)
    with ("attached-" +:+ (type +:+ "-" +:+ id)) in Hr.
  change ("attached-to-" +:+ r) with ("attached-" +:+ ("to-" +:+ r)) in Hr.
  apply (inj (String.append "attached-")) in Hr.
  destruct type as [|c1 [|c2 [|c3 type]]]; vm_compute in Hr; simplify_eq.
  apply Hno. by exists "to", type.
Qed.

(** The suggestion for the extra information [attached-<type>-<id>] *)
Lemma suggestENIName_service attachmentNames eni type id :
  Extra eni = "attached-" +:+ type +:+ "-" +:+ id →
  ¬ substringOf "-" type → type ≠ "to" →
  strings.SplitN (Extra eni) "-" 3 = ["attached"; type; id]
  ∧ (type = "elb" →
     SuggestedName (suggestENIName attachmentNames eni) = id +:+ "-eni"
     ∧ Extra (suggestENIName attachmentNames eni) = "elb-" +:+ id)
  ∧ (type ≠ "elb" →
     SuggestedName (suggestENIName attachmentNames eni) = type +:+ "-" +:+ id +:+ "-eni"
     ∧ Extra (suggestENIName attachmentNames eni) = type +:+ "-attachment-" +:+ id).
Proof.
  intros Hextra Hno Hto.
  assert (strings.SplitN (Extra eni) "-" 3 = ["attached"; type; id]) as Hsplit.
  { rewrite Hextra. by apply SplitN_attached. }
  split; [exact Hsplit|].
  unfold suggestENIName. rewrite Hsplit. rewrite Hextra.
  rewrite (not_attached_to type id Hno Hto).
  change ("attached-" +:+ type +:+ "-" +:+ id)
    with ("attached-" +:+ (type +:+ "-" +:+ id)).
  rewrite HasPrefix_app.
  split.
  - intros ->. done.
  - intros Hne. by rewrite (bool_decide_eq_false_2 _ Hne).
Qed.

(** The service types hold no [-], and none of them is [to]. *)
Lemma inferredTypes_plain type :
  type ∈ inferredTypes → ¬ substringOf "-" type ∧ type ≠ "to".
Proof.
  unfold inferredTypes. rewrite !elem_of_cons, elem_of_nil.
  intros [->|[->|[->|[->|[->|[->|[]]]]]]];
    (split; [intros Hc%Contains_true; discriminate|discriminate]).
Qed.

(** What the resolver answers for an interface attached to a service: a
    service type, and the attachment id or the name of the load balancer *)
Lemma resolver_service_token interface attachment attachmentId :
  NetworkInterface.Attachment interface = Some attachment →
  NetworkInterfaceAttachment.InstanceId attachment = None →
  NetworkInterfaceAttachment.AttachmentId attachment = Some attachmentId →
  ∃ type id,
    type ∈ inferredTypes
    ∧ getENIAttachmentInfo interface = "attached-" +:+ type +:+ "-" +:+ id
    ∧ (id = attachmentId
       ∨ type = "elb" ∧ id ≠ ""
         ∧ id = extractELBName (default "" (NetworkInterface.Description interface))).
Proof.
  intros Ha Hi Hid.
  assert (∀ type, type ∈ inferredTypes →
            ∃ type' id,
              type' ∈ inferredTypes
              ∧ "attached-" +:+ type +:+ "-" +:+ attachmentId
                = "attached-" +:+ type' +:+ "-" +:+ id
              ∧ (id = attachmentId
                 ∨ type' = "elb" ∧ id ≠ ""
                   ∧ id = extractELBName
                            (default "" (NetworkInterface.Description interface))))
    as Hgeneric.
  { intros type Htype. exists type, attachmentId. split; [done|]. split; [done|]. by left. }
  destruct (NetworkInterface.Description interface) as [description|] eqn:Hd.
  2: { unfold getENIAttachmentInfo. rewrite Ha, Hi, Hid, Hd.
       apply (Hgeneric "service"). unfold inferredTypes. repeat constructor. }
  rewrite (resolver_service interface attachment attachmentId description) by done.
  cbv zeta.
  destruct (strings.Contains (strings.ToLower description) "lambda").
  { apply (Hgeneric "lambda"). unfold inferredTypes. repeat constructor. }
  destruct (strings.Contains (strings.ToLower description) "rds").
  { apply (Hgeneric "rds"). unfold inferredTypes. repeat constructor. }
  destruct (strings.Contains (strings.ToLower description) "elasticache"
            || strings.Contains (strings.ToLower description) "cache").
  { apply (Hgeneric "elasticache"). unfold inferredTypes. repeat constructor. }
  destruct (strings.Contains (strings.ToLower description) "elb"
            || strings.Contains (strings.ToLower description) "load balancer").
  { case_bool_decide as Hname.
    - exists "elb", (extractELBName description).
      split; [unfold inferredTypes; repeat constructor|]. split; [done|]. right. done.
    - apply (Hgeneric "elb"). unfold inferredTypes. repeat constructor. }
  destruct (strings.Contains (strings.ToLower description) "nat").
  { apply (Hgeneric "nat"). unfold inferredTypes. repeat constructor. }
  apply (Hgeneric "service"). unfold inferredTypes. repeat constructor.
Qed.

(** C6: for an interface whose extra information is [attached-<type>-<id>],
    with a service type such as the resolver emits ([<type>] holds no [-] and
    is not [to], which marks the attachment to an instance), the suggestion
    splits the extra information at [-] into the 3 parts [attached],
    [<type>] and [<id>]; for the type [elb] the suggested name is [<id>-eni]
    and the extra information becomes [elb-<id>]; for another type they are
    [<type>-<id>-eni] and [<type>-attachment-<id>].  This is so for whatever
    the resolver answers for an interface attached by an attachment id and no
    instance id.  When the extra information is [attached-<id>] and splits
    into fewer than 3 parts, they are [service-<id>-eni] and
    [service-attachment-<id>].  End to end, an untagged interface described
    as ["ELB net/my-lb/1234567890abcdef"] and attached by
    [ela-attach-01cacbdcc2dd3038b] resolves to [attached-elb-my-lb], and is
    suggested [my-lb-eni] with the extra information [elb-my-lb]. *)
Theorem service_attachment_suggestion
    (attachmentNames : gmap string string) (eni : ResourceInfo) :
  (∀ type id,
     Extra eni = "attached-" +:+ type +:+ "-" +:+ id →
     ¬ substringOf "-" type → type ≠ "to" →
     strings.SplitN (Extra eni) "-" 3 = ["attached"; type; id]
     ∧ (type = "elb" →
        SuggestedName (suggestENIName attachmentNames eni) = id +:+ "-eni"
        ∧ Extra (suggestENIName attachmentNames eni) = "elb-" +:+ id)
     ∧ (type ≠ "elb" →
        SuggestedName (suggestENIName attachmentNames eni) = type +:+ "-" +:+ id +:+ "-eni"
        ∧ Extra (suggestENIName attachmentNames eni) = type +:+ "-attachment-" +:+ id))
  ∧ (∀ interface attachment attachmentId,
       NetworkInterface.Attachment interface = Some attachment →
       NetworkInterfaceAttachment.InstanceId attachment = None →
       NetworkInterfaceAttachment.AttachmentId attachment = Some attachmentId →
       Extra eni = getENIAttachmentInfo interface →
       ∃ type id,
         type ∈ inferredTypes
         ∧ Extra eni = "attached-" +:+ type +:+ "-" +:+ id
         ∧ (id = attachmentId
            ∨ type = "elb" ∧ id ≠ ""
              ∧ id = extractELBName (default "" (NetworkInterface.Description interface)))
         ∧ strings.SplitN (Extra eni) "-" 3 = ["attached"; type; id]
         ∧ (type = "elb" →
            SuggestedName (suggestENIName attachmentNames eni) = id +:+ "-eni"
            ∧ Extra (suggestENIName attachmentNames eni) = "elb-" +:+ id)
         ∧ (type ≠ "elb" →
            SuggestedName (suggestENIName attachmentNames eni)
            = type +:+ "-" +:+ id +:+ "-eni"
            ∧ Extra (suggestENIName attachmentNames eni)
              = type +:+ "-attachment-" +:+ id))
  ∧ (∀ id,
       Extra eni = "attached-" +:+ id →
       length (strings.SplitN (Extra eni) "-" 3) < 3 →
       SuggestedName (suggestENIName attachmentNames eni) = "service-" +:+ id +:+ "-eni"
       ∧ Extra (suggestENIName attachmentNames eni) = "service-attachment-" +:+ id)
  ∧ (∀ rangeKeys config id status,
       ec2.DescribeNetworkInterfacesPages (EC2Client config)
       = [Ok [ {| NetworkInterface.NetworkInterfaceId := Some id;
                  NetworkInterface.Status := status;
                  NetworkInterface.Description := Some "ELB net/my-lb/1234567890abcdef";
                  NetworkInterface.Attachment :=
                    Some {| NetworkInterfaceAttachment.InstanceId := None;
                            NetworkInterfaceAttachment.AttachmentId :=
                              Some "ela-attach-01cacbdcc2dd3038b" |};
                  NetworkInterface.TagSet := [] |} ]] →
       getENIAttachmentInfo
         {| NetworkInterface.NetworkInterfaceId := Some id;
            NetworkInterface.Status := status;
            NetworkInterface.Description := Some "ELB net/my-lb/1234567890abcdef";
            NetworkInterface.Attachment :=
              Some {| NetworkInterfaceAttachment.InstanceId := None;
                      NetworkInterfaceAttachment.AttachmentId :=
                        Some "ela-attach-01cacbdcc2dd3038b" |};
            NetworkInterface.TagSet := [] |} = "attached-elb-my-lb"
       ∧ findUntaggedENIs rangeKeys config
         = Ok [ {| ID := id; Type_ := "eni"; Name := ""; SuggestedName := "my-lb-eni";
                   State := status; Extra := "elb-my-lb" |} ]).
Proof.
  split; [|split; [|split]].
  - intros type id. apply suggestENIName_service.
  - intros interface attachment attachmentId Ha Hi Hid Hextra.
    destruct (resolver_service_token interface attachment attachmentId Ha Hi Hid)
      as (type & id & Htype & Htoken & Hid').
    rewrite <-Hextra in Htoken.
    destruct (inferredTypes_plain type Htype) as [Hno Hto].
    exists type, id. split; [exact Htype|]. split; [exact Htoken|]. split; [exact Hid'|].
    by apply suggestENIName_service.
  - intros id Hextra Hshort.
    unfold suggestENIName.
    destruct (strings.HasPrefix (Extra eni) "attached-to-") eqn:Hp.
    { apply HasPrefix_true in Hp as [r Hr]. rewrite Hr in Hshort.
      change ("attached-to-" +:+ r) with ("attached-" +:+ "to" +:+ "-" +:+ r) in Hshort.
      rewrite SplitN_attached in Hshort; [simpl in Hshort; lia|].
      intros Hc%Contains_true. discriminate. }
    rewrite Hextra at 1. rewrite HasPrefix_app.
    destruct (strings.SplitN (Extra eni) "-" 3) as [|p1 [|p2 [|p3 ps]]] eqn:Hs;
      simpl in Hshort; try lia; by rewrite Hextra, TrimPrefix_app.
  - intros rangeKeys config id status Hpages. split; [reflexivity|].
    unfold findUntaggedENIs, scanENIs. rewrite Hpages. reflexivity.
Qed.

Lemma service_attachment_suggestion_witness :
  SuggestedName (suggestENIName ∅
    {| ID := "eni-1"; Type_ := "eni"; Name := ""; SuggestedName := ""; State := "in-use";
       Extra := "attached-nat-eni-attach-0abc" |}) = "nat-eni-attach-0abc-eni"
  ∧ SuggestedName (suggestENIName ∅
    {| ID := "eni-1"; Type_ := "eni"; Name := ""; SuggestedName := ""; State := "in-use";
       Extra := "attached-unknown" |}) = "service-unknown-eni".
Proof.
  split.
  - match goal with |- SuggestedName (suggestENIName ?m ?e) = _ =>
      destruct (service_attachment_suggestion m e) as (H & _ & _) end.
    destruct (H "nat" "eni-attach-0abc") as (_ & _ & Hother).
    + reflexivity.
    + intros Hc%Contains_true. discriminate.
    + discriminate.
    + apply Hother. discriminate.
  - match goal with |- SuggestedName (suggestENIName ?m ?e) = _ =>
      destruct (service_attachment_suggestion m e) as (_ & _ & H & _) end.
    destruct (H "unknown") as [Hname _].
    + reflexivity.
    + vm_compute. lia.
    + exact Hname.
Defined.

(** ** Scans *)

Section FoldM.

Context {A B : Type}.
Implicit Types (f : B → A → result B) (l : list A) (b : B).

Lemma foldM_app f l1 l2 b :
  foldM f b (l1 ++ l2) = foldM f b l1 ≫= λ b', foldM f b' l2.
Proof.
  revert b. induction l1 as [|x l1 IH]; intros b; [done|].
  cbn [foldM app]. destruct (f b x) as [b'| |]; [|done..]. apply IH.
Qed.

(** A property that every step of a loop keeps holds when the loop ends. *)
Lemma foldM_invariant (P : B → Prop) f l b b' :
  (∀ b x b', P b → f b x = Ok b' → P b') → P b → foldM f b l = Ok b' → P b'.
Proof.
  intros Hstep. revert b. induction l as [|x l IH]; intros b Hb H.
  - by injection H as <-.
  - cbn [foldM] in H. destruct (f b x) as [b1| |] eqn:Hf; [|done..].
    apply (IH b1); [by eapply Hstep|done].
Qed.

End FoldM.

(** The loop over the pages of a paginator is a loop over their items. *)
Lemma foldM_pages {A B : Type} (f : B → A → result B) (pages : list (result (list A)))
    (b b' : B) :
  foldM (λ acc page, match page with
                     | Ok output => foldM f acc output
                     | Err e => Err e
                     | Panic => Panic
                     end) b pages = Ok b' →
  foldM f b (pageItems pages) = Ok b'.
Proof.
  revert b. induction pages as [|page pages IH]; intros b H; [done|].
  cbn [foldM] in H. destruct page as [output| |]; [|done..].
  destruct (foldM f b output) as [b1| |] eqn:Hout; [|done..].
  unfold pageItems. cbn [fmap list_fmap mjoin list_join]. rewrite foldM_app, Hout.
  by apply IH.
Qed.

(** The loop over reservations and their instances is a loop over the
    instances. *)
Lemma foldM_reservations {B : Type} (f : B → Instance.t → result B)
    (reservations : list Reservation.t) (b b' : B) :
  foldM (λ acc reservation, foldM f acc (Reservation.Instances reservation)) b reservations
  = Ok b' →
  foldM f b (mjoin (Reservation.Instances <$> reservations)) = Ok b'.
Proof.
  revert b. induction reservations as [|r rs IH]; intros b H; [done|].
  cbn [foldM] in H.
  destruct (foldM f b (Reservation.Instances r)) as [b1| |] eqn:Hout; [|done..].
  cbn [fmap list_fmap mjoin list_join]. rewrite foldM_app, Hout. by apply IH.
Qed.

(** A scan whose step appends one candidate for an item that needs tagging,
    and nothing for another, yields the candidates of the items that need
    tagging, in their order. *)
Lemma foldM_candidates {A : Type}
    (step : list ResourceInfo * gset string → A → result (list ResourceInfo * gset string))
    (needs : A → bool) (candidate : A → ResourceInfo → Prop) :
  (∀ acc x acc', step acc x = Ok acc' →
     if needs x then ∃ r, acc'.1 = acc.1 ++ [r] ∧ candidate x r else acc'.1 = acc.1) →
  ∀ l acc acc', foldM step acc l = Ok acc' →
    ∃ rs, acc'.1 = acc.1 ++ rs ∧ Forall2 candidate (List.filter needs l) rs.
Proof.
  intros Hstep. induction l as [|x l IH]; intros acc acc' H.
  - injection H as <-. exists []. by rewrite app_nil_r.
  - cbn [foldM] in H. destruct (step acc x) as [acc1| |] eqn:Hx; [|done..].
    destruct (IH acc1 acc' H) as (rs & Hrs & Hall).
    apply Hstep in Hx. cbn [List.filter]. destruct (needs x).
    + destruct Hx as (r & Hr & Hc). exists (r :: rs). split.
      * by rewrite Hrs, Hr, <-app_assoc.
      * by constructor.
    + exists rs. by rewrite Hrs, Hx.
Qed.

Lemma volumeNeedsTagging_spec volume :
  volumeNeedsTagging volume
  = needsTagging_spec "volume" (Volume.Tags volume) (Volume.State volume)
                      (getVolumeMountPoint volume).
Proof.
  unfold volumeNeedsTagging, needsTagging_spec.
  by destruct (findNameTag (Volume.Tags volume)) as [[] ?].
Qed.

Lemma eniNeedsTagging_spec eni :
  eniNeedsTagging eni
  = needsTagging_spec "eni" (NetworkInterface.TagSet eni) (NetworkInterface.Status eni)
                      (getENIAttachmentInfo eni).
Proof.
  unfold eniNeedsTagging, needsTagging_spec.
  by destruct (findNameTag (NetworkInterface.TagSet eni)) as [[] ?].
Qed.

Lemma scanInstance_step acc instance acc' :
  scanInstance acc instance = Ok acc' →
  if instanceIsCandidate instance
  then ∃ r, acc'.1 = acc.1 ++ [r]
            ∧ Instance.InstanceId instance = Some (ID r)
            ∧ Type_ r = "instance"
            ∧ Name r = (findNameTag (Instance.Tags instance)).2
            ∧ State r = Instance.StateName instance
            ∧ Instance.ImageId instance = Some (Extra r)
  else acc'.1 = acc.1.
Proof.
  destruct acc as [instances amiIDs].
  unfold scanInstance, instanceIsCandidate, instanceNeedsTagging, needsTagging_spec.
  destruct (bool_decide (Instance.StateName instance = "terminated")).
  { intros [= <-]. reflexivity. }
  cbn [negb andb].
  destruct (findNameTag (Instance.Tags instance)) as [hasNameTag currentName].
  destruct (Instance.ImageId instance) as [imageId|],
           (Instance.InstanceId instance) as [instanceId|],
           hasNameTag,
           (isQuickTagCreatedName currentName "instance");
    cbn [negb andb orb deref mbind result_bind mret result_ret];
    try destruct (isQuickTagNameStillValid currentName "instance"
                    (Instance.StateName instance) imageId);
    cbn [negb andb orb deref mbind result_bind mret result_ret];
    intros [= <-]; try reflexivity; eexists; (split; [reflexivity|done]).
Qed.

Lemma scanVolume_step acc volume acc' :
  scanVolume acc volume = Ok acc' →
  if needsTagging_spec "volume" (Volume.Tags volume) (Volume.State volume)
                       (getVolumeMountPoint volume)
  then ∃ r, acc'.1 = acc.1 ++ [r]
            ∧ Volume.VolumeId volume = Some (ID r)
            ∧ Type_ r = "volume"
            ∧ Name r = (findNameTag (Volume.Tags volume)).2
            ∧ State r = Volume.State volume
            ∧ Extra r = getVolumeMountPoint volume
  else acc'.1 = acc.1.
Proof.
  destruct acc as [volumes instanceIDs].
  rewrite <-volumeNeedsTagging_spec. unfold scanVolume.
  destruct (volumeNeedsTagging volume); [|by intros [= <-]].
  destruct (Volume.VolumeId volume) as [volumeId|];
    cbn [deref mbind result_bind]; intros [= <-].
  eexists. split; [reflexivity|done].
Qed.

Lemma scanENI_step acc eni acc' :
  scanENI acc eni = Ok acc' →
  if needsTagging_spec "eni" (NetworkInterface.TagSet eni) (NetworkInterface.Status eni)
                       (getENIAttachmentInfo eni)
  then ∃ r, acc'.1 = acc.1 ++ [r]
            ∧ NetworkInterface.NetworkInterfaceId eni = Some (ID r)
            ∧ Type_ r = "eni"
            ∧ Name r = (findNameTag (NetworkInterface.TagSet eni)).2
            ∧ State r = NetworkInterface.Status eni
            ∧ Extra r = getENIAttachmentInfo eni
  else acc'.1 = acc.1.
Proof.
  destruct acc as [eniList attachmentIDs].
  rewrite <-eniNeedsTagging_spec. unfold scanENI.
  destruct (eniNeedsTagging eni); [|by intros [= <-]].
  destruct (NetworkInterface.NetworkInterfaceId eni) as [eniId|];
    cbn [deref mbind result_bind]; intros [= <-].
  eexists. split; [reflexivity|done].
Qed.

(** The suggestion loops change the suggested name and, for interfaces, the
    extra information; nothing else. *)
Lemma suggestInstanceName_keeps amiNames r :
  ID (suggestInstanceName amiNames r) = ID r
  ∧ Name (suggestInstanceName amiNames r) = Name r
  ∧ State (suggestInstanceName amiNames r) = State r
  ∧ Extra (suggestInstanceName amiNames r) = Extra r.
Proof. unfold suggestInstanceName. by destruct (amiNames !! Extra r). Qed.

Lemma suggestVolumeName_keeps rangeKeys instanceNames r :
  ID (suggestVolumeName rangeKeys instanceNames r) = ID r
  ∧ Name (suggestVolumeName rangeKeys instanceNames r) = Name r
  ∧ State (suggestVolumeName rangeKeys instanceNames r) = State r
  ∧ Extra (suggestVolumeName rangeKeys instanceNames r) = Extra r.
Proof.
  unfold suggestVolumeName.
  destruct (bool_decide _); [|done]. by destruct (instanceNames !! _).
Qed.

Lemma suggestENIName_keeps attachmentNames r :
  ID (suggestENIName attachmentNames r) = ID r
  ∧ Name (suggestENIName attachmentNames r) = Name r
  ∧ State (suggestENIName attachmentNames r) = State r.
Proof.
  unfold suggestENIName.
  destruct (strings.HasPrefix (Extra r) "attached-to-").
  { by destruct (attachmentNames !! _). }
  destruct (strings.HasPrefix (Extra r) "attached-"); [|done].
  destruct (strings.SplitN (Extra r) "-" 3) as [|p1 [|p2 [|p3 ps]]]; try done.
  by destruct (bool_decide (p2 = "elb")).
Qed.

Lemma findUntaggedInstances_Ok rangeKeys config candidates :
  findUntaggedInstances rangeKeys config = Ok candidates →
  ∃ instances amiIDs amiNames,
    foldM scanInstance ([], ∅) (scannedInstances config) = Ok (instances, amiIDs)
    ∧ getAMINames rangeKeys config amiIDs = Ok amiNames
    ∧ candidates = suggestInstanceName amiNames <$> instances.
Proof.
  unfold findUntaggedInstances, scanInstances. intros H.
  destruct (foldM _ _ _) as [[instances amiIDs]| |] eqn:Hscan; [|done..].
  destruct (getAMINames rangeKeys config amiIDs) as [amiNames| |] eqn:Hnames; [|done..].
  injection H as <-. exists instances, amiIDs, amiNames. split; [|done].
  apply foldM_pages in Hscan. revert Hscan. apply foldM_reservations.
Qed.

Lemma findUntaggedVolumes_Ok rangeKeys config candidates :
  findUntaggedVolumes rangeKeys config = Ok candidates →
  ∃ volumes instanceIDs instanceNames,
    foldM scanVolume ([], ∅) (pageItems (ec2.DescribeVolumesPages (EC2Client config)))
    = Ok (volumes, instanceIDs)
    ∧ getInstanceNames rangeKeys config instanceIDs = Ok instanceNames
    ∧ candidates = suggestVolumeName config instanceNames <$> volumes.
Proof.
  unfold findUntaggedVolumes, scanVolumes. intros H.
  destruct (foldM _ _ _) as [[volumes instanceIDs]| |] eqn:Hscan; [|done..].
  destruct (getInstanceNames rangeKeys config instanceIDs) as [names| |] eqn:Hnames;
    [|done..].
  injection H as <-. exists volumes, instanceIDs, names. split; [|done].
  by apply foldM_pages in Hscan.
Qed.

Lemma findUntaggedENIs_Ok rangeKeys config candidates :
  findUntaggedENIs rangeKeys config = Ok candidates →
  ∃ eniList attachmentIDs attachmentNames,
    foldM scanENI ([], ∅)
          (pageItems (ec2.DescribeNetworkInterfacesPages (EC2Client config)))
    = Ok (eniList, attachmentIDs)
    ∧ getAttachmentNames rangeKeys config attachmentIDs = Ok attachmentNames
    ∧ candidates = suggestENIName attachmentNames <$> eniList.
Proof.
  unfold findUntaggedENIs, scanENIs. intros H.
  destruct (foldM _ _ _) as [[eniList attachmentIDs]| |] eqn:Hscan; [|done..].
  destruct (getAttachmentNames rangeKeys config attachmentIDs) as [names| |] eqn:Hnames;
    [|done..].
  injection H as <-. exists eniList, attachmentIDs, names. split; [|done].
  by apply foldM_pages in Hscan.
Qed.

(** C1, amended: when a scan succeeds, its candidates are, in the order of
    the scan, exactly the scanned resources that need tagging: the volumes and
    the network interfaces that have no [Name] tag, or whose name is
    self-generated for their kind and no longer valid for their state and
    extra information; and the instances that do so and are not terminated
    and have an image id.  A resource whose [Name] tag holds a name that is
    not self-generated does not need tagging. *)
Theorem candidates_need_tagging (rangeKeys : gset string → list string) (config : Config) :
  (∀ candidates,
     findUntaggedInstances rangeKeys config = Ok candidates →
     Forall2 (λ instance r,
                Instance.InstanceId instance = Some (ID r)
                ∧ Name r = (findNameTag (Instance.Tags instance)).2
                ∧ State r = Instance.StateName instance)
             (List.filter instanceIsCandidate (scannedInstances config)) candidates)
  ∧ (∀ candidates,
       findUntaggedVolumes rangeKeys config = Ok candidates →
       Forall2 (λ volume r,
                  Volume.VolumeId volume = Some (ID r)
                  ∧ Name r = (findNameTag (Volume.Tags volume)).2
                  ∧ State r = Volume.State volume)
               (List.filter (λ volume,
                               needsTagging_spec "volume" (Volume.Tags volume)
                                 (Volume.State volume) (getVolumeMountPoint volume))
                            (pageItems (ec2.DescribeVolumesPages (EC2Client config))))
               candidates)
  ∧ (∀ candidates,
       findUntaggedENIs rangeKeys config = Ok candidates →
       Forall2 (λ eni r,
                  NetworkInterface.NetworkInterfaceId eni = Some (ID r)
                  ∧ Name r = (findNameTag (NetworkInterface.TagSet eni)).2
                  ∧ State r = NetworkInterface.Status eni)
               (List.filter (λ eni,
                               needsTagging_spec "eni" (NetworkInterface.TagSet eni)
                                 (NetworkInterface.Status eni) (getENIAttachmentInfo eni))
                            (pageItems (ec2.DescribeNetworkInterfacesPages
                                          (EC2Client config))))
               candidates)
  ∧ (∀ kind tags name state extraInfo,
       findNameTag tags = (true, name) → isQuickTagCreatedName name kind = false →
       needsTagging_spec kind tags state extraInfo = false).
Proof.
  split; [|split; [|split]].
  - intros candidates (instances & amiIDs & amiNames & Hscan & _ & ->)%findUntaggedInstances_Ok.
    destruct (foldM_candidates scanInstance instanceIsCandidate _ scanInstance_step
                _ _ _ Hscan) as (rs & Hrs & Hall).
    cbn [fst app] in Hrs. subst rs. apply Forall2_fmap_r.
    eapply Forall2_impl; [exact Hall|].
    intros instance r (Hid & _ & Hname & Hstate & _). unfold compose.
    destruct (suggestInstanceName_keeps amiNames r) as (-> & -> & -> & _). done.
  - intros candidates (volumes & ids & names & Hscan & _ & ->)%findUntaggedVolumes_Ok.
    destruct (foldM_candidates scanVolume _ _ scanVolume_step _ _ _ Hscan)
      as (rs & Hrs & Hall).
    cbn [fst app] in Hrs. subst rs. apply Forall2_fmap_r.
    eapply Forall2_impl; [exact Hall|].
    intros volume r (Hid & _ & Hname & Hstate & _). unfold compose.
    destruct (suggestVolumeName_keeps config names r) as (-> & -> & -> & _). done.
  - intros candidates (eniList & ids & names & Hscan & _ & ->)%findUntaggedENIs_Ok.
    destruct (foldM_candidates scanENI _ _ scanENI_step _ _ _ Hscan)
      as (rs & Hrs & Hall).
    cbn [fst app] in Hrs. subst rs. apply Forall2_fmap_r.
    eapply Forall2_impl; [exact Hall|].
    intros eni r (Hid & _ & Hname & Hstate & _). unfold compose.
    destruct (suggestENIName_keeps names r) as (-> & -> & ->). done.
  - intros kind tags name state extraInfo Htag Hcreated.
    unfold needsTagging_spec. by rewrite Htag, Hcreated.
Qed.

Lemma candidates_need_tagging_witness :
  Forall2 (λ instance r,
             Instance.InstanceId instance = Some (ID r)
             ∧ Name r = (findNameTag (Instance.Tags instance)).2
             ∧ State r = Instance.StateName instance)
          (List.filter instanceIsCandidate (scannedInstances providerOfUnnamedImage))
          [ {| ID := "i-0123456789abcdef0"; Type_ := "instance"; Name := "";
               SuggestedName := ""; State := "running";
               Extra := "ami-0123456789abcdef0" |} ].
Proof.
  destruct (candidates_need_tagging elements providerOfUnnamedImage) as (H & _).
  apply H. reflexivity.
Defined.

(** C1 as stated fails: an instance without a [Name] tag needs tagging by the
    predicate, yet when it is terminated the scan lists no candidate. *)
Lemma terminated_instance_is_no_candidate :
  scannedInstances providerOfTerminated = [terminatedInstance]
  ∧ findNameTag (Instance.Tags terminatedInstance) = (false, "")
  ∧ needsTagging_spec "instance" (Instance.Tags terminatedInstance)
      (Instance.StateName terminatedInstance) "ami-0123456789abcdef0" = true
  ∧ findUntaggedInstances elements providerOfTerminated = Ok [].
Proof. by vm_compute. Qed.

(** ** Suggested names *)

Lemma foldl_invariant {A B : Type} (P : B → Prop) (f : B → A → B) (l : list A) (b : B) :
  P b → (∀ b x, x ∈ l → P b → P (f b x)) → P (foldl f b l).
Proof.
  revert b. induction l as [|x l IH]; intros b Hb Hstep; [done|].
  cbn [foldl]. apply IH.
  - apply Hstep; [left|done].
  - intros b' y Hy. apply Hstep. by right.
Qed.


Lemma append_nonempty_r s r : r ≠ "" → s +:+ r ≠ "".
Proof.
  intros Hr H. apply (f_equal String.length) in H. rewrite length_append in H.
  destruct r; [done|]. simpl in H. lia.
Qed.

Lemma suggestInstanceName_name amiNames r :
  match amiNames !! Extra r with
  | Some amiName => SuggestedName (suggestInstanceName amiNames r) = amiName
  | None => SuggestedName (suggestInstanceName amiNames r) = "instance-" +:+ Extra r
  end.
Proof. unfold suggestInstanceName. by destruct (amiNames !! Extra r). Qed.


Lemma suggestENIName_name attachmentNames r :
  SuggestedName (suggestENIName attachmentNames r) ≠ ""
  ∧ suffixOf "-eni" (SuggestedName (suggestENIName attachmentNames r)).
Proof.
  assert (∀ s, s +:+ "-eni" ≠ "" ∧ suffixOf "-eni" (s +:+ "-eni")) as Heni.
  { intros s. split; [by apply append_nonempty_r|by exists s]. }
  unfold suggestENIName.
  destruct (strings.HasPrefix (Extra r) "attached-to-").
  { destruct (attachmentNames !! _); apply Heni. }
  destruct (strings.HasPrefix (Extra r) "attached-").
  2: { apply (Heni "unattached"). }
  destruct (strings.SplitN (Extra r) "-" 3) as [|p1 [|p2 [|p3 ps]]];
    cbn [SuggestedName withSuggestedName withExtra].
  1-3: rewrite <-!append_assoc; apply Heni.
  destruct (bool_decide (p2 = "elb")); cbn [SuggestedName withSuggestedName withExtra].
  - apply Heni.
  - rewrite <-!append_assoc. apply Heni.
Qed.





(** ** Tag applier *)

Section Applier.

Variable env : Env.
Variable config : Config.
Variables accountID runID : string.

(** A read changes the input only. *)
Lemma ReadString_frame w :
  (ReadString w).1 = setStdin w (bufio.ReadString (stdin w)).2
  ∧ (ReadString w).2 = (bufio.ReadString (stdin w)).1.
Proof. unfold ReadString. by destruct (bufio.ReadString (stdin w)). Qed.

Lemma answered_first n input :
  answered (S n) input = true
  ↔ (∃ line, (bufio.ReadString input).1 = inr line)
    ∧ answered n (bufio.ReadString input).2 = true.
Proof.
  cbn [answered]. destruct ((bufio.ReadString input).1) as [e|line].
  - split; [done|]. by intros [[line Hline] _].
  - split; [|by intros [_ H]]. intros H. split; [by exists line|done].
Qed.

Lemma answered_last n input :
  answered (S n) input = true
  ↔ answered n input = true
    ∧ ∃ line, (bufio.ReadString (afterAnswers n input)).1 = inr line.
Proof.
  revert input. induction n as [|n IH]; intros input.
  { rewrite answered_first. cbn [answered afterAnswers]. tauto. }
  rewrite (answered_first (S n)), IH, (answered_first n). cbn [afterAnswers]. tauto.
Qed.

Lemma afterAnswers_last n input :
  afterAnswers (S n) input = (bufio.ReadString (afterAnswers n input)).2.
Proof. revert input. induction n as [|n IH]; intros input; [done|]. apply (IH _). Qed.

Lemma saveHistory_frame history w :
  tags (saveHistory env history w).1 = tags w
  ∧ requests (saveHistory env history w).1 = requests w
  ∧ stdin (saveHistory env history w).1 = stdin w
  ∧ stdout (saveHistory env history w).1 = stdout w.
Proof.
  unfold saveHistory. destruct (UserHomeDir env); [|done].
  destruct (MkdirAllErr env); [done|]. by destruct (WriteFileErr env history).
Qed.

Lemma addToHistory_frame resource oldValue newValue w :
  tags (addToHistory env accountID resource oldValue newValue runID w).1 = tags w
  ∧ requests (addToHistory env accountID resource oldValue newValue runID w).1 = requests w
  ∧ stdin (addToHistory env accountID resource oldValue newValue runID w).1 = stdin w
  ∧ stdout (addToHistory env accountID resource oldValue newValue runID w).1 = stdout w.
Proof.
  unfold addToHistory. destruct (loadHistory env w); [done|].
  exact (saveHistory_frame _ (tick w)).
Qed.

(** A tag write that succeeds: the tag is set, whatever becomes of the
    history. *)
Lemma applyTag_written resource w :
  ec2.CreateTags (EC2Client config) (ID resource) (SuggestedName resource) = None →
  (applyTag env config resource accountID runID w).2 = None
  ∧ tags (applyTag env config resource accountID runID w).1
    = <[ID resource := SuggestedName resource]> (tags w)
  ∧ requests (applyTag env config resource accountID runID w).1
    = requests w ++ [(ID resource, SuggestedName resource)]
  ∧ stdin (applyTag env config resource accountID runID w).1 = stdin w.
Proof.
  intros Hok. unfold applyTag, createNameTag. rewrite Hok.
  match goal with |- context [addToHistory env ?a ?r ?o ?n ?i ?w0] =>
    destruct (addToHistory_frame r o n w0) as (Ht & Hr & Hi & _);
    destruct (addToHistory env a r o n i w0) as [w1 [e|]] end;
    cbn [fst snd] in *; by rewrite ?Ht, ?Hr, ?Hi.
Qed.

(** A tag write that fails: the request was sent, and nothing else happened. *)
Lemma applyTag_failed resource w e :
  ec2.CreateTags (EC2Client config) (ID resource) (SuggestedName resource) = Some e →
  applyTag env config resource accountID runID w
  = (addRequest w (ID resource) (SuggestedName resource),
     Some ("failed to tag " +:+ Type_ resource +:+ " " +:+ ID resource +:+ ": " +:+ e)).
Proof. intros Hfail. unfold applyTag, createNameTag. by rewrite Hfail. Qed.

(** The prompt of [applyTags] before a tag write, when it is answered *)
Lemma prompt_answered (autoApply : bool) w :
  (autoApply = false → ∃ line, (bufio.ReadString (stdin w)).1 = inr line) →
  ∃ w0, (if negb autoApply
         then match ReadString w with
              | (w, inr _) => (w, None)
              | (w, inl e) => (w, Some ("failed to read user input: " +:+ e))
              end
         else (w, None)) = (w0, None)
        ∧ tags w0 = tags w ∧ requests w0 = requests w
        ∧ stdin w0 = (if autoApply then stdin w else (bufio.ReadString (stdin w)).2).
Proof.
  intros Hin. destruct autoApply; [by exists w|].
  destruct (Hin eq_refl) as [line Hline].
  destruct (ReadString_frame w) as [Hw Hr].
  destruct (ReadString w) as [w0 r]. cbn [fst snd] in Hw, Hr.
  rewrite Hline in Hr. subst. by eexists.
Qed.

(** The loop over resources whose tag writes all succeed *)
Lemma applyTags_loop_written (pre rest : list ResourceInfo) autoApply n w :
  (∀ x, x ∈ pre → ec2.CreateTags (EC2Client config) (ID x) (SuggestedName x) = None) →
  (autoApply = false → answered (length pre) (stdin w) = true) →
  ∃ w1,
    applyTags_loop env config (pre ++ rest) accountID runID autoApply n w
    = applyTags_loop env config rest accountID runID autoApply (n + length pre) w1
    ∧ tags w1 = foldl (λ t x, <[ID x := SuggestedName x]> t) (tags w) pre
    ∧ requests w1 = requests w ++ ((λ x, (ID x, SuggestedName x)) <$> pre)
    ∧ stdin w1 = (if autoApply then stdin w else afterAnswers (length pre) (stdin w)).
Proof.
  revert n w. induction pre as [|x pre IH]; intros n w Hok Hin.
  { exists w. rewrite Nat.add_0_r, app_nil_r. by destruct autoApply. }
  assert (ec2.CreateTags (EC2Client config) (ID x) (SuggestedName x) = None) as Hx.
  { apply Hok. left. }
  destruct (prompt_answered autoApply w) as (w0 & Hprompt & Ht0 & Hr0 & Hi0).
  { intros H. by destruct (proj1 (answered_first _ _) (Hin H)). }
  destruct (applyTag_written x w0 Hx) as (He & Ht & Hr & Hi).
  destruct (IH (S n) (applyTag env config x accountID runID w0).1) as (w1 & Hw1 & Ht1 & Hr1 & Hi1).
  { intros y Hy. apply Hok. by right. }
  { intros ->. rewrite Hi, Hi0. by destruct (proj1 (answered_first _ _) (Hin eq_refl)). }
  exists w1. split; [|split; [|split]].
  - rewrite <-app_comm_cons. cbn [applyTags_loop]. rewrite Hprompt.
    destruct (applyTag env config x accountID runID w0) as [w2 err].
    cbn [fst snd] in *. subst err. rewrite Hw1. f_equal. simpl. lia.
  - rewrite Ht1, Ht, Ht0. reflexivity.
  - rewrite Hr1, Hr, Hr0, <-List.app_assoc. reflexivity.
  - rewrite Hi1, Hi, Hi0. by destruct autoApply.
Qed.

(** The prompt of [applyTags] before a tag write, however it ends *)
Lemma prompt_cases (autoApply : bool) w :
  ∃ w0 prompt,
    (if negb autoApply
     then match ReadString w with
          | (w, inr _) => (w, None)
          | (w, inl e) => (w, Some ("failed to read user input: " +:+ e))
          end
     else (w, None)) = (w0, prompt)
    ∧ tags w0 = tags w ∧ requests w0 = requests w ∧ stdout w0 = stdout w
    ∧ (prompt = None
       ∨ ∃ e, autoApply = false ∧ prompt = Some ("failed to read user input: " +:+ e)).
Proof.
  destruct autoApply; [exists w, None; by repeat split; try left|].
  destruct (ReadString_frame w) as [Hw _].
  destruct (ReadString w) as [w0 [e|line]]; cbn [fst] in Hw; subst w0; cbn [negb].
  - eexists _, _. split; [done|]. repeat split. right. by exists e.
  - eexists _, _. split; [done|]. repeat split. by left.
Qed.

(** How a run of the loop ends, whatever the input and the provider: with
    every resource tagged, or on a read that finds no line, or on the first
    tag write that fails; [k] resources are tagged before. *)
Lemma applyTags_loop_outcome (resources : list ResourceInfo) autoApply n w :
  ∃ k, k ≤ length resources
    ∧ Forall (λ x, ec2.CreateTags (EC2Client config) (ID x) (SuggestedName x) = None)
             (take k resources)
    ∧ tags (applyTags_loop env config resources accountID runID autoApply n w).1
      = foldl (λ t x, <[ID x := SuggestedName x]> t) (tags w) (take k resources)
    ∧ ((applyTags_loop env config resources accountID runID autoApply n w).2 = None
       ∧ k = length resources
       ∧ requests (applyTags_loop env config resources accountID runID autoApply n w).1
         = requests w ++ ((λ x, (ID x, SuggestedName x)) <$> resources)
       ∨ (∃ e, (applyTags_loop env config resources accountID runID autoApply n w).2
               = Some ("failed to read user input: " +:+ e)
               ∧ autoApply = false ∧ k < length resources
               ∧ requests (applyTags_loop env config resources accountID runID
                             autoApply n w).1
                 = requests w ++ ((λ x, (ID x, SuggestedName x)) <$> take k resources))
       ∨ (∃ x e, resources !! k = Some x
                 ∧ ec2.CreateTags (EC2Client config) (ID x) (SuggestedName x) = Some e
                 ∧ (applyTags_loop env config resources accountID runID autoApply n w).2
                   = Some ("failed to tag " +:+ Type_ x +:+ " " +:+ ID x +:+ ": " +:+ e)
                 ∧ requests (applyTags_loop env config resources accountID runID
                               autoApply n w).1
                   = requests w ++ ((λ x, (ID x, SuggestedName x)) <$> take (S k) resources)
                 ∧ last (stdout (applyTags_loop env config resources accountID runID
                                   autoApply n w).1)
                   = Some (Stopping (n + k)))).
Proof.
  revert n w. induction resources as [|x resources IH]; intros n w.
  { exists 0. split; [done|]. split; [constructor|]. split; [done|]. left.
    cbn [applyTags_loop fst snd fmap list_fmap]. by rewrite app_nil_r. }
  cbn [applyTags_loop].
  destruct (prompt_cases autoApply w) as (w0 & prompt & -> & Ht0 & Hr0 & Ho0 & Hprompt).
  destruct Hprompt as [->|(e & -> & ->)].
  2: { exists 0. split; [simpl; lia|]. split; [constructor|]. split; [done|].
       right. left. exists e. cbn [fst snd take fmap list_fmap].
       rewrite app_nil_r. repeat split; [simpl; lia|done]. }
  destruct (ec2.CreateTags (EC2Client config) (ID x) (SuggestedName x)) as [e|] eqn:Hx.
  { rewrite (applyTag_failed x w0 e Hx).
    exists 0. split; [simpl; lia|]. split; [constructor|].
    cbn [fst snd tags requests stdout print addRequest take].
    split; [done|]. right. right. exists x, e.
    split; [done|]. split; [done|]. split; [done|]. split.
    - by rewrite Hr0.
    - by rewrite last_snoc, Nat.add_0_r. }
  destruct (applyTag_written x w0 Hx) as (He & Ht & Hr & _).
  destruct (applyTag env config x accountID runID w0) as [w1 err].
  cbn [fst snd] in *. subst err.
  destruct (IH (S n) w1) as (k & Hk & Hok & Htags & Hend).
  exists (S k). split; [simpl; lia|]. split; [by constructor|].
  split; [rewrite Htags, Ht, Ht0; reflexivity|].
  destruct Hend as [(Hnone & -> & Hreq)|[(e & Herr & Hauto & Hlt & Hreq)
                   |(y & e & Hy & Hfail & Herr & Hreq & Hout)]].
  - left. split; [done|]. split; [done|].
    rewrite Hreq, Hr, Hr0, <-List.app_assoc. reflexivity.
  - right. left. exists e. split; [done|]. split; [done|]. split; [simpl; lia|].
    rewrite Hreq, Hr, Hr0, <-List.app_assoc. reflexivity.
  - right. right. exists y, e. split; [done|]. split; [done|]. split; [done|]. split.
    + rewrite Hreq, Hr, Hr0, <-List.app_assoc. reflexivity.
    + rewrite Hout. do 2 f_equal. lia.
Qed.

End Applier.

(** C9: [applyTags] takes the resources in order.  At the first resource
    whose tag write fails it returns that error at once: the requests sent are
    those of the resources before it and its own, none of a later resource,
    and the tags of the resources before it stay applied.  A failure to append
    the history entry after a tag write is printed as a warning only: the tag
    stays written, the resource counts as tagged, and the run goes on, so that
    when every tag write succeeds every resource is tagged and no error is
    returned, whatever the history file does.  Without auto-apply this is so
    when the read before each of these tag writes, by a reader of its own,
    finds a line.  Whatever the input and the provider, a run ends with every
    resource tagged, or on a read that finds no line, or on the first tag
    write that fails, and the requests it has sent are those of the resources
    up to there, in order. *)
Theorem applyTags_stops_at_tag_failure_only (env : Env) (config : Config)
    (accountID runID : string) (autoApply : bool) (w : World) :
  (∀ pre resource post e,
     (∀ x, x ∈ pre → ec2.CreateTags (EC2Client config) (ID x) (SuggestedName x) = None) →
     ec2.CreateTags (EC2Client config) (ID resource) (SuggestedName resource) = Some e →
     (autoApply = false → answered (S (length pre)) (stdin w) = true) →
     (applyTags env config (pre ++ resource :: post) accountID runID autoApply w).2
     = Some ("failed to tag " +:+ Type_ resource +:+ " " +:+ ID resource +:+ ": " +:+ e)
     ∧ requests (applyTags env config (pre ++ resource :: post) accountID runID autoApply w).1
       = requests w ++ ((λ x, (ID x, SuggestedName x)) <$> pre ++ [resource])
     ∧ tags (applyTags env config (pre ++ resource :: post) accountID runID autoApply w).1
       = foldl (λ t x, <[ID x := SuggestedName x]> t) (tags w) pre
     ∧ last (stdout (applyTags env config (pre ++ resource :: post) accountID runID
                       autoApply w).1)
       = Some (Stopping (length pre)))
  ∧ (∀ resources,
       (∀ x, x ∈ resources →
             ec2.CreateTags (EC2Client config) (ID x) (SuggestedName x) = None) →
       (autoApply = false → answered (length resources) (stdin w) = true) →
       (applyTags env config resources accountID runID autoApply w).2 = None
       ∧ requests (applyTags env config resources accountID runID autoApply w).1
         = requests w ++ ((λ x, (ID x, SuggestedName x)) <$> resources)
       ∧ tags (applyTags env config resources accountID runID autoApply w).1
         = foldl (λ t x, <[ID x := SuggestedName x]> t) (tags w) resources)
  ∧ (∀ resource w' e,
       ec2.CreateTags (EC2Client config) (ID resource) (SuggestedName resource) = None →
       addToHistory env accountID (ID resource) (Name resource) (SuggestedName resource)
         runID
         (setTags (addRequest w (ID resource) (SuggestedName resource))
                  (<[ID resource := SuggestedName resource]> (tags w)))
       = (w', Some e) →
       applyTag env config resource accountID runID w
       = (print w' (Warning ("Failed to log tagging action to history: " +:+ e)), None)
       ∧ tags w' = <[ID resource := SuggestedName resource]> (tags w))
  ∧ (∀ resources,
       ∃ k, k ≤ length resources
         ∧ Forall (λ x, ec2.CreateTags (EC2Client config) (ID x) (SuggestedName x) = None)
                  (take k resources)
         ∧ tags (applyTags env config resources accountID runID autoApply w).1
           = foldl (λ t x, <[ID x := SuggestedName x]> t) (tags w) (take k resources)
         ∧ ((applyTags env config resources accountID runID autoApply w).2 = None
            ∧ k = length resources
            ∧ requests (applyTags env config resources accountID runID autoApply w).1
              = requests w ++ ((λ x, (ID x, SuggestedName x)) <$> resources)
            ∨ (∃ e, (applyTags env config resources accountID runID autoApply w).2
                    = Some ("failed to read user input: " +:+ e)
                    ∧ autoApply = false ∧ k < length resources
                    ∧ requests (applyTags env config resources accountID runID
                                  autoApply w).1
                      = requests w ++ ((λ x, (ID x, SuggestedName x)) <$> take k resources))
            ∨ (∃ x e, resources !! k = Some x
                      ∧ ec2.CreateTags (EC2Client config) (ID x) (SuggestedName x) = Some e
                      ∧ (applyTags env config resources accountID runID autoApply w).2
                        = Some ("failed to tag " +:+ Type_ x +:+ " " +:+ ID x +:+ ": "
                                +:+ e)
                      ∧ requests (applyTags env config resources accountID runID
                                    autoApply w).1
                        = requests w
                          ++ ((λ x, (ID x, SuggestedName x)) <$> take (S k) resources)
                      ∧ last (stdout (applyTags env config resources accountID runID
                                        autoApply w).1)
                        = Some (Stopping k)))).
Proof.
  split; [|split; [|split]].
  4: { intros resources. unfold applyTags.
       apply (applyTags_loop_outcome env config accountID runID resources autoApply 0 w). }
  - intros pre resource post e Hpre Hfail Hin. unfold applyTags.
    destruct (applyTags_loop_written env config accountID runID pre (resource :: post)
                autoApply 0 w Hpre) as (w1 & -> & Ht & Hr & Hi).
    { intros H. by destruct (proj1 (answered_last (length pre) (stdin w)) (Hin H)). }
    cbn [applyTags_loop].
    destruct (prompt_answered autoApply w1) as (w0 & -> & Ht0 & Hr0 & _).
    { intros H. rewrite Hi, H.
      by destruct (proj1 (answered_last (length pre) (stdin w)) (Hin H)). }
    rewrite (applyTag_failed env config accountID runID resource w0 e Hfail).
    cbn [fst snd print addRequest tags requests stdout].
    split; [done|]. split; [|split].
    + rewrite Hr0, Hr, fmap_app, <-List.app_assoc. reflexivity.
    + by rewrite Ht0, Ht.
    + by rewrite last_snoc.
  - intros resources Hok Hin. unfold applyTags.
    destruct (applyTags_loop_written env config accountID runID resources []
                autoApply 0 w Hok Hin) as (w1 & Hloop & Ht & Hr & _).
    rewrite app_nil_r in Hloop. rewrite Hloop. cbn [applyTags_loop fst snd]. done.
  - intros resource w' e Hok Hhistory.
    destruct (addToHistory_frame env accountID runID (ID resource) (Name resource)
                (SuggestedName resource)
                (setTags (addRequest w (ID resource) (SuggestedName resource))
                         (<[ID resource := SuggestedName resource]> (tags w))))
      as (Ht & _).
    rewrite Hhistory in Ht. split; [|exact Ht].
    unfold applyTag, createNameTag. rewrite Hok.
    cbn [tags addRequest]. by rewrite Hhistory.
Qed.

Lemma applyTags_stops_at_tag_failure_only_witness :
  (applyTags homelessEnv refusingProvider [unattachedVolume "vol-1"; unattachedVolume "vol-2"; unattachedVolume "vol-3"]
     "123456789012" "run-0011223344556677" true freshWorld).2
  = Some "failed to tag volume vol-2: UnauthorizedOperation"
  ∧ requests (applyTags homelessEnv refusingProvider
                [unattachedVolume "vol-1"; unattachedVolume "vol-2"; unattachedVolume "vol-3"]
                "123456789012" "run-0011223344556677" true freshWorld).1
    = [("vol-1", "unattached"); ("vol-2", "unattached")]
  ∧ applyTag homelessEnv refusingProvider (unattachedVolume "vol-1")
      "123456789012" "run-0011223344556677" freshWorld
    = (print (tick (setTags (addRequest freshWorld "vol-1" "unattached")
                            (<["vol-1" := "unattached"]> (tags freshWorld))))
             (Warning ("Failed to log tagging action to history: "
                       +:+ "unable to determine home directory")), None)
  ∧ requests (applyTags homelessEnv refusingProvider
                [unattachedVolume "vol-1"; unattachedVolume "vol-2"; unattachedVolume "vol-3"]
                "123456789012" "run-0011223344556677" false
                (setStdin freshWorld [String "010" ""; String "010" ""])).1
    = [("vol-1", "unattached"); ("vol-2", "unattached")].
Proof.
  destruct (applyTags_stops_at_tag_failure_only homelessEnv refusingProvider
              "123456789012" "run-0011223344556677" true freshWorld)
    as (Hstop & _ & Hwarn & _).
  destruct (Hstop [unattachedVolume "vol-1"] (unattachedVolume "vol-2") [unattachedVolume "vol-3"]
              "UnauthorizedOperation") as (Herr & Hreq & _).
  - intros x Hx. apply list_elem_of_singleton in Hx as ->. reflexivity.
  - reflexivity.
  - discriminate.
  - split; [exact Herr|]. split; [exact Hreq|]. split.
    + edestruct (Hwarn (unattachedVolume "vol-1")) as [Happly _]; [reflexivity..|].
      exact Happly.
    + destruct (applyTags_stops_at_tag_failure_only homelessEnv refusingProvider
                  "123456789012" "run-0011223344556677" false
                  (setStdin freshWorld [String "010" ""; String "010" ""]))
        as (Hprompted & _).
      destruct (Hprompted [unattachedVolume "vol-1"] (unattachedVolume "vol-2")
                  [unattachedVolume "vol-3"] "UnauthorizedOperation")
        as (_ & Hrequests & _).
      * intros x Hx. apply list_elem_of_singleton in Hx as ->. reflexivity.
      * reflexivity.
      * intros _. reflexivity.
      * exact Hrequests.
Defined.

(** ** Undo executor *)

(** The run that undo selects is the run of the most recent action that is
    not undone. *)
Lemma findLastRunID_last older action newer :
  Undone action = false → Forall (λ a, Undone a = true) newer →
  findLastRunID (older ++ action :: newer) = RunID action.
Proof.
  intros Haction Hnewer. unfold findLastRunID.
  rewrite rev_app_distr. cbn [rev]. rewrite <-List.app_assoc. cbn [app].
  assert (∀ l, List.find (λ a, negb (Undone a)) (rev newer ++ l)
               = List.find (λ a, negb (Undone a)) l) as ->.
  { induction Hnewer as [|a newer Ha _ IH]; intros l; [done|].
    cbn [rev]. rewrite <-List.app_assoc, IH. cbn [app List.find]. by rewrite Ha. }
  cbn [List.find]. by rewrite Haction.
Qed.

Lemma findLastRunID_none actions :
  Forall (λ a, Undone a = true) actions → findLastRunID actions = "".
Proof.
  intros Hall. unfold findLastRunID.
  destruct (List.find _ (rev actions)) as [action|] eqn:Hfind; [|done].
  apply find_some in Hfind as [Hin Hnot]. apply in_rev in Hin.
  rewrite Forall_forall in Hall. apply list_elem_of_In, Hall in Hin.
  by rewrite Hin in Hnot.
Qed.

(** When some action is not undone, the selected run has an action to undo. *)
Lemma findLastRunID_found actions :
  ¬ Forall (λ a, Undone a = true) actions →
  ∃ action, action ∈ actions ∧ Undone action = false
            ∧ findLastRunID actions = RunID action.
Proof.
  intros Hsome. unfold findLastRunID.
  destruct (List.find _ (rev actions)) as [action|] eqn:Hfind.
  - apply find_some in Hfind as [Hin Hnot]. apply in_rev, list_elem_of_In in Hin.
    exists action. by destruct (Undone action).
  - exfalso. apply Hsome, Forall_forall. intros a Ha.
    apply list_elem_of_In, in_rev in Ha.
    apply (find_none _ _ Hfind) in Ha. by destruct (Undone a).
Qed.

Lemma collectActionsToUndo_elem lastRunID actions action :
  action ∈ collectActionsToUndo lastRunID actions
  ↔ action ∈ actions ∧ RunID action = lastRunID ∧ Undone action = false.
Proof.
  unfold collectActionsToUndo. rewrite !list_elem_of_In, filter_In.
  rewrite andb_true_iff, bool_decide_eq_true, negb_true_iff. tauto.
Qed.

Lemma markUndone_run lastRunID actions :
  Forall (λ a, RunID a = lastRunID → Undone a = true) (markUndone lastRunID actions).
Proof.
  unfold markUndone. apply Forall_fmap, Forall_forall. intros a _. unfold compose.
  destruct (decide (RunID a = lastRunID)) as [Hrun|Hrun].
  - rewrite (bool_decide_eq_true_2 _ Hrun). by destruct (Undone a) eqn:Hu.
  - rewrite (bool_decide_eq_false_2 _ Hrun). cbn [andb]. tauto.
Qed.

Lemma markUndone_all lastRunID actions :
  Forall (λ a, Undone a = false → RunID a = lastRunID) actions →
  Forall (λ a, Undone a = true) (markUndone lastRunID actions).
Proof.
  intros Hall. unfold markUndone. apply Forall_fmap.
  eapply Forall_impl; [exact Hall|]. intros a Ha. unfold compose.
  destruct (Undone a) eqn:Hu.
  - by rewrite andb_false_r.
  - rewrite (bool_decide_eq_true_2 _ (Ha Hu)). done.
Qed.

Lemma revertedTags_cons client action rest t :
  revertedTags client (action :: rest) t
  = revertedTags client rest
      match ec2.CreateTags client (Resource action) (OldValue action) with
      | Some _ => t
      | None => <[Resource action := OldValue action]> t
      end.
Proof. reflexivity. Qed.

(** The loop that reverts sends one request per action, in order, whatever
    the provider answers, and touches neither the file nor the input. *)
Lemma revertActions_all client actionsToUndo counts w :
  requests (revertActions client actionsToUndo counts w).1
  = requests w ++ ((λ a, (Resource a, OldValue a)) <$> actionsToUndo)
  ∧ tags (revertActions client actionsToUndo counts w).1
    = revertedTags client actionsToUndo (tags w)
  ∧ file (revertActions client actionsToUndo counts w).1 = file w
  ∧ writes (revertActions client actionsToUndo counts w).1 = writes w
  ∧ stdin (revertActions client actionsToUndo counts w).1 = stdin w.
Proof.
  revert counts w. induction actionsToUndo as [|action rest IH]; intros counts w.
  { cbn [revertActions fst fmap list_fmap]. by rewrite app_nil_r. }
  destruct counts as [[successCount notFoundCount] errorCount].
  assert ((if bool_decide (OldValue action = "") then "" else OldValue action)
          = OldValue action) as Hvalue.
  { case_bool_decide; congruence. }
  cbn [revertActions]. rewrite Hvalue. unfold createNameTag.
  rewrite revertedTags_cons. cbn [fmap list_fmap].
  destruct (ec2.CreateTags client (Resource action) (OldValue action)) as [e|].
  - destruct (strings.Contains e "NotFound" || strings.Contains e "does not exist");
      match goal with |- context [revertActions client rest ?c ?w0] =>
        destruct (IH c w0) as (Hr & Ht & Hf & Hw & Hi) end;
      rewrite Hr, Ht, Hf, Hw, Hi; cbn [requests tags file writes stdin print addRequest];
      by rewrite <-List.app_assoc.
  - match goal with |- context [revertActions client rest ?c ?w0] =>
      destruct (IH c w0) as (Hr & Ht & Hf & Hw & Hi) end.
    rewrite Hr, Ht, Hf, Hw, Hi.
    cbn [requests tags file writes stdin setTags addRequest].
    by rewrite <-List.app_assoc.
Qed.

Lemma revertedTags_other client actionsToUndo t resource :
  resource ∉ Resource <$> actionsToUndo →
  revertedTags client actionsToUndo t !! resource = t !! resource.
Proof.
  revert t. induction actionsToUndo as [|action rest IH]; intros t Hnot; [done|].
  rewrite fmap_cons, not_elem_of_cons in Hnot. destruct Hnot as [Hne Hnot].
  rewrite revertedTags_cons, IH by done.
  destruct (ec2.CreateTags client (Resource action) (OldValue action)); [done|].
  by rewrite lookup_insert_ne.
Qed.

(** A revert that the provider accepts restores the recorded old value. *)
Lemma revertedTags_restored client actionsToUndo t action :
  NoDup (Resource <$> actionsToUndo) → action ∈ actionsToUndo →
  ec2.CreateTags client (Resource action) (OldValue action) = None →
  revertedTags client actionsToUndo t !! Resource action = Some (OldValue action).
Proof.
  revert t. induction actionsToUndo as [|a rest IH]; intros t Hnodup Hin Hok.
  { by apply elem_of_nil in Hin. }
  rewrite fmap_cons in Hnodup. apply NoDup_cons in Hnodup as [Hfresh Hnodup].
  rewrite revertedTags_cons.
  apply elem_of_cons in Hin as [->|Hin].
  - rewrite revertedTags_other by done. rewrite Hok. apply lookup_insert_eq.
  - by apply IH.
Qed.

(** The loop that marks keeps every entry, with its fields, and sets the flag
    of the entries of the run. *)
Lemma markUndone_flags lastRunID actions :
  Forall2 (λ a a', Account a' = Account a ∧ Resource a' = Resource a
                   ∧ OldValue a' = OldValue a ∧ NewValue a' = NewValue a
                   ∧ Timestamp a' = Timestamp a ∧ RunID a' = RunID a
                   ∧ Undone a' = Undone a || bool_decide (RunID a = lastRunID))
          actions (markUndone lastRunID actions).
Proof.
  induction actions as [|a actions IH]; [constructor|].
  unfold markUndone. rewrite fmap_cons. constructor; [|exact IH].
  destruct (bool_decide (RunID a = lastRunID)), (Undone a) eqn:Hundone; simpl;
    rewrite ?Hundone; by repeat split.
Qed.

(** What [undoLastRun] reads is the answer to its one prompt. *)
Lemma ReadString_world w w1 answer :
  ReadString w = (w1, answer) →
  tags w1 = tags w ∧ requests w1 = requests w ∧ file w1 = file w
  ∧ writes w1 = writes w ∧ clock w1 = clock w ∧ stdout w1 = stdout w.
Proof.
  intros Hread. destruct (ReadString_frame w) as [Hw _].
  rewrite Hread in Hw. cbn [fst] in Hw. by subst.
Qed.

(** [undoLastRun], once the operator has confirmed and the AWS configuration
    is loaded: the reverts, then the marking, then one save. *)
Lemma undoLastRun_confirmed env client w history w1 response :
  loadHistory env w = inr history →
  ¬ Forall (λ a, Undone a = true) (Actions history) →
  findLastRunID (Actions history) ≠ "" →
  ReadString w = (w1, inr response) → confirms response →
  LoadDefaultConfigErr env = None →
  undoLastRun env client w
  = let lastRunID := findLastRunID (Actions history) in
    let actionsToUndo := collectActionsToUndo lastRunID (Actions history) in
    let '(w1, (successCount, notFoundCount, errorCount)) :=
      revertActions client actionsToUndo (0, 0, 0) w1 in
    match saveHistory env {| Actions := markUndone lastRunID (Actions history) |} w1 with
    | (w2, Some e) => (w2, Some ("failed to save updated history: " +:+ e))
    | (w2, None) =>
        (print (print w2 (UndoSummary successCount notFoundCount errorCount))
               (MarkedUndone (length actionsToUndo) lastRunID), None)
    end.
Proof.
  intros Hload Hsome Hrun Hread Hconfirm Hconfig.
  destruct (findLastRunID_found _ Hsome) as (action & Hin & Hundone & Hlast).
  assert (action ∈ collectActionsToUndo (findLastRunID (Actions history)) (Actions history))
    as Hcollected.
  { apply collectActionsToUndo_elem. by rewrite Hlast. }
  unfold undoLastRun. rewrite Hload.
  rewrite bool_decide_eq_false_2.
  2: { intros Hlen. destruct (Actions history); [|done]. by apply elem_of_nil in Hin. }
  rewrite (bool_decide_eq_false_2 _ Hrun).
  rewrite bool_decide_eq_false_2.
  2: { intros Hlen. destruct (collectActionsToUndo _ _); [|done].
       by apply elem_of_nil in Hcollected. }
  rewrite Hread.
  assert (bool_decide (strings.TrimSpace (strings.ToLower response) ≠ "y")
          && bool_decide (strings.TrimSpace (strings.ToLower response) ≠ "yes") = false)
    as ->.
  { destruct Hconfirm as [->| ->]; reflexivity. }
  rewrite Hconfig. reflexivity.
Qed.

(** When the operator answers anything else, nothing is reverted and nothing
    is marked. *)
Lemma undoLastRun_cancelled env client w history w1 response :
  loadHistory env w = inr history →
  ¬ Forall (λ a, Undone a = true) (Actions history) →
  findLastRunID (Actions history) ≠ "" →
  ReadString w = (w1, inr response) → ¬ confirms response →
  undoLastRun env client w = (print w1 UndoCancelled, None).
Proof.
  intros Hload Hsome Hrun Hread Hdeclined.
  destruct (findLastRunID_found _ Hsome) as (action & Hin & Hundone & Hlast).
  assert (action ∈ collectActionsToUndo (findLastRunID (Actions history)) (Actions history))
    as Hcollected.
  { apply collectActionsToUndo_elem. by rewrite Hlast. }
  unfold undoLastRun. rewrite Hload.
  rewrite bool_decide_eq_false_2.
  2: { intros Hlen. destruct (Actions history); [|done]. by apply elem_of_nil in Hin. }
  rewrite (bool_decide_eq_false_2 _ Hrun).
  rewrite bool_decide_eq_false_2.
  2: { intros Hlen. destruct (collectActionsToUndo _ _); [|done].
       by apply elem_of_nil in Hcollected. }
  rewrite Hread.
  rewrite !bool_decide_eq_true_2; [done|..]; intros H; apply Hdeclined; [by right|by left].
Qed.

Lemma saveHistory_effect env history w :
  requests (saveHistory env history w).1 = requests w
  ∧ tags (saveHistory env history w).1 = tags w
  ∧ stdin (saveHistory env history w).1 = stdin w
  ∧ writes (saveHistory env history w).1 ≤ S (writes w)
  ∧ (UserHomeDir env ≠ None → MkdirAllErr env = None →
     writes (saveHistory env history w).1 = S (writes w))
  ∧ (UserHomeDir env ≠ None → MkdirAllErr env = None → WriteFileErr env history = None →
     (saveHistory env history w).2 = None
     ∧ file (saveHistory env history w).1 = Stored history).
Proof.
  unfold saveHistory. destruct (UserHomeDir env) as [home|].
  2: { cbn [fst snd]. repeat split; try done; lia. }
  destruct (MkdirAllErr env) as [e|].
  { cbn [fst snd]. repeat split; try done; lia. }
  destruct (WriteFileErr env history) as [e|];
    cbn [fst snd requests tags stdin writes file countWrite setFile];
    repeat split; try done; lia.
Qed.

(** A history that holds an action was read from the file in the home
    directory. *)
Lemma loadHistory_stored env w history :
  loadHistory env w = inr history → Actions history ≠ [] →
  UserHomeDir env ≠ None ∧ file w = Stored history.
Proof.
  unfold loadHistory. destruct (UserHomeDir env); [|by intros [= <-]].
  destruct (file w); intros [= <-]; done.
Qed.

(** The effects of [undoLastRun] on a history with an action to undo *)
Lemma undoLastRun_effects env client w history w1 response :
  loadHistory env w = inr history →
  ¬ Forall (λ a, Undone a = true) (Actions history) →
  findLastRunID (Actions history) ≠ "" →
  ReadString w = (w1, inr response) → confirms response →
  LoadDefaultConfigErr env = None →
  let lastRunID := findLastRunID (Actions history) in
  let actionsToUndo := collectActionsToUndo lastRunID (Actions history) in
  let marked := {| Actions := markUndone lastRunID (Actions history) |} in
  requests (undoLastRun env client w).1
  = requests w ++ ((λ a, (Resource a, OldValue a)) <$> actionsToUndo)
  ∧ tags (undoLastRun env client w).1 = revertedTags client actionsToUndo (tags w)
  ∧ stdin (undoLastRun env client w).1 = stdin w1
  ∧ writes (undoLastRun env client w).1 ≤ S (writes w)
  ∧ (MkdirAllErr env = None → writes (undoLastRun env client w).1 = S (writes w))
  ∧ (MkdirAllErr env = None → WriteFileErr env marked = None →
     (undoLastRun env client w).2 = None
     ∧ file (undoLastRun env client w).1 = Stored marked).
Proof.
  intros Hload Hsome Hrun Hread Hconfirm Hconfig. cbv zeta.
  rewrite (undoLastRun_confirmed env client w history w1 response) by done.
  cbv zeta.
  destruct (ReadString_world w w1 _ Hread) as (Rt & Rr & _ & Rw & _).
  assert (UserHomeDir env ≠ None) as Hhome.
  { apply (loadHistory_stored env w history Hload).
    intros Hnil. apply Hsome. rewrite Hnil. constructor. }
  match goal with |- context [revertActions client ?l ?c ?w0] =>
    destruct (revertActions_all client l c w0) as (Hr & Ht & Hf & Hw & Hi);
    destruct (revertActions client l c w0) as [w2 [[successCount notFoundCount] errorCount]]
  end.
  cbn [fst] in Hr, Ht, Hf, Hw, Hi. rewrite Rr in Hr. rewrite Rt in Ht. rewrite Rw in Hw.
  match goal with |- context [saveHistory env ?h w2] =>
    destruct (saveHistory_effect env h w2) as (Sr & St & Si & Sw & Sw' & Sf);
    destruct (saveHistory env h w2) as [w3 [e|]]
  end;
    cbn [fst snd requests tags stdin writes file print] in *;
    rewrite Sr, St, Si, Hr, Ht, Hi;
    rewrite Hw in Sw, Sw';
    (split; [reflexivity|]); (split; [reflexivity|]); (split; [reflexivity|]);
    (split; [exact Sw|]); (split; [exact (Sw' Hhome)|]);
    intros Hm Hwf; destruct (Sf Hhome Hm Hwf); done.
Qed.

(** Undo on a history whose most recent action that is not undone has no run
    id *)
Lemma undoLastRun_no_run_id env client w history older action newer :
  loadHistory env w = inr history →
  Actions history = older ++ action :: newer →
  Undone action = false → Forall (λ a, Undone a = true) newer →
  RunID action = "" →
  undoLastRun env client w = (w, Some "no undone runs found").
Proof.
  intros Hload Hactions Haction Hnewer Hrun. unfold undoLastRun. rewrite Hload.
  rewrite bool_decide_eq_false_2.
  2: { rewrite Hactions, length_app. simpl. lia. }
  rewrite Hactions, (findLastRunID_last older action newer Haction Hnewer), Hrun.
  reflexivity.
Qed.

(** Undo on a history whose actions are all undone *)
Lemma undoLastRun_nothing_left env client w history :
  loadHistory env w = inr history → Actions history ≠ [] →
  Forall (λ a, Undone a = true) (Actions history) →
  undoLastRun env client w = (w, Some "no undone runs found").
Proof.
  intros Hload Hactions Hall. unfold undoLastRun. rewrite Hload.
  rewrite bool_decide_eq_false_2 by (by destruct (Actions history)).
  by rewrite (findLastRunID_none _ Hall).
Qed.

Lemma appliedTags_other resources t resource :
  resource ∉ ID <$> resources → appliedTags resources t !! resource = t !! resource.
Proof.
  revert t. induction resources as [|x rest IH]; intros t Hnot; [done|].
  rewrite fmap_cons, not_elem_of_cons in Hnot. destruct Hnot as [Hne Hnot].
  unfold appliedTags. cbn [foldl]. fold (appliedTags rest (<[ID x:=SuggestedName x]> t)).
  rewrite IH by done. by rewrite lookup_insert_ne.
Qed.

Lemma appliedTags_written resources t x :
  NoDup (ID <$> resources) → x ∈ resources →
  appliedTags resources t !! ID x = Some (SuggestedName x).
Proof.
  revert t. induction resources as [|y rest IH]; intros t Hnodup Hin.
  { by apply elem_of_nil in Hin. }
  rewrite fmap_cons in Hnodup. apply NoDup_cons in Hnodup as [Hfresh Hnodup].
  unfold appliedTags. cbn [foldl]. fold (appliedTags rest (<[ID y:=SuggestedName y]> t)).
  apply elem_of_cons in Hin as [->|Hin].
  - rewrite appliedTags_other by done. apply lookup_insert_eq.
  - by apply IH.
Qed.

Section Recorded.

Variable env : Env.
Variable config : Config.
Variables accountID runID : string.

Hypothesis home : UserHomeDir env ≠ None.
Hypothesis mkdir : MkdirAllErr env = None.
Hypothesis write : ∀ history, WriteFileErr env history = None.

Lemma addToHistory_recorded resource oldValue newValue w history :
  loadHistory env w = inr history →
  addToHistory env accountID resource oldValue newValue runID w
  = (countWrite (setFile (tick w) (Stored
       {| Actions := Actions history
                     ++ [ {| Account := accountID; Resource := resource;
                             OldValue := oldValue; NewValue := newValue;
                             Timestamp := Now env (clock w); RunID := runID;
                             Undone := false |} ] |})),
     None).
Proof.
  intros Hload. unfold addToHistory, saveHistory. rewrite Hload.
  destruct (UserHomeDir env); [|done]. by rewrite mkdir, write.
Qed.

(** A run whose tag writes and history appends all succeed records one entry
    per resource, in order, each at the time that the clock shows then. *)
Lemma applyTags_loop_recorded resources n w history :
  (∀ x, x ∈ resources →
        ec2.CreateTags (EC2Client config) (ID x) (SuggestedName x) = None) →
  loadHistory env w = inr history →
  ∃ w1,
    applyTags_loop env config resources accountID runID true n w = (w1, None)
    ∧ loadHistory env w1
      = inr {| Actions := Actions history
                          ++ recordedEntries env accountID runID (clock w) resources |}
    ∧ tags w1 = appliedTags resources (tags w)
    ∧ stdin w1 = stdin w.
Proof.
  revert n w history. induction resources as [|x rest IH]; intros n w history Hok Hload.
  { exists w. cbn [recordedEntries]. rewrite app_nil_r. by destruct history. }
  assert (ec2.CreateTags (EC2Client config) (ID x) (SuggestedName x) = None) as Hx.
  { apply Hok. left. }
  cbn [applyTags_loop negb]. unfold applyTag, createNameTag. rewrite Hx.
  erewrite addToHistory_recorded.
  2: { unfold loadHistory in *. destruct (UserHomeDir env); [|done]. exact Hload. }
  match goal with |- context [applyTags_loop _ _ rest _ _ _ _ ?w0] =>
    destruct (IH (S n) w0
                {| Actions := Actions history
                              ++ [recordedEntry (Now env (clock w)) accountID runID x] |})
      as (w1 & Hloop & Hload1 & Ht & Hi) end.
  { intros y Hy. apply Hok. by right. }
  { unfold loadHistory. by destruct (UserHomeDir env). }
  exists w1. rewrite Hloop. split; [done|]. split; [|by rewrite Ht, Hi].
  rewrite Hload1. cbn [Actions recordedEntries clock countWrite setFile tick setTags addRequest].
  by rewrite <-List.app_assoc.
Qed.

End Recorded.

Lemma collectActionsToUndo_app lastRunID older newer :
  collectActionsToUndo lastRunID (older ++ newer)
  = collectActionsToUndo lastRunID older ++ collectActionsToUndo lastRunID newer.
Proof. unfold collectActionsToUndo. apply List.filter_app. Qed.

Lemma collectActionsToUndo_undone lastRunID actions :
  Forall (λ a, Undone a = true) actions → collectActionsToUndo lastRunID actions = [].
Proof.
  induction 1 as [|a actions Ha _ IH]; [done|].
  unfold collectActionsToUndo in *. cbn [List.filter]. by rewrite Ha, andb_false_r.
Qed.

Lemma collectActionsToUndo_recorded env accountID runID n resources :
  collectActionsToUndo runID (recordedEntries env accountID runID n resources)
  = recordedEntries env accountID runID n resources.
Proof.
  revert n. induction resources as [|x rest IH]; intros n; [done|].
  unfold collectActionsToUndo in *. cbn [recordedEntries List.filter RunID Undone recordedEntry].
  rewrite bool_decide_eq_true_2 by done. cbn [andb negb]. f_equal. apply IH.
Qed.

(** The entries of a run are those of its resources, one each and in order,
    whatever the clock shows. *)
Lemma recordedEntries_entries env accountID runID n resources :
  Forall2 (λ x a, ∃ timestamp, a = recordedEntry timestamp accountID runID x)
          resources (recordedEntries env accountID runID n resources).
Proof.
  revert n. induction resources as [|x rest IH]; intros n; [constructor|].
  cbn [recordedEntries]. constructor; [by eexists|apply IH].
Qed.

Lemma recordedEntries_resources env accountID runID n resources :
  Resource <$> recordedEntries env accountID runID n resources = ID <$> resources.
Proof.
  revert n. induction resources as [|x rest IH]; intros n; [done|].
  cbn [recordedEntries fmap list_fmap recordedEntry Resource]. f_equal. apply IH.
Qed.

Lemma recordedEntries_elem env accountID runID n resources x :
  x ∈ resources →
  ∃ timestamp,
    recordedEntry timestamp accountID runID x ∈ recordedEntries env accountID runID n resources.
Proof.
  revert n. induction resources as [|y rest IH]; intros n Hx.
  { by apply elem_of_nil in Hx. }
  cbn [recordedEntries]. apply elem_of_cons in Hx as [->|Hx].
  - eexists. left.
  - destruct (IH (S n) Hx) as [timestamp Ht]. exists timestamp. by right.
Qed.

(** Applying a run and undoing it restores the recorded old value of each
    resource, and leaves nothing to undo. *)
Lemma apply_then_undo env config client accountID runID resources w history response :
  loadHistory env w = inr history →
  Forall (λ a, Undone a = true) (Actions history) →
  UserHomeDir env ≠ None → MkdirAllErr env = None →
  (∀ h, WriteFileErr env h = None) → LoadDefaultConfigErr env = None →
  runID ≠ "" → resources ≠ [] → NoDup (ID <$> resources) →
  (∀ x, x ∈ resources →
        ec2.CreateTags (EC2Client config) (ID x) (SuggestedName x) = None) →
  (∀ x, x ∈ resources → ec2.CreateTags client (ID x) (Name x) = None) →
  (ReadString w).2 = inr response → confirms response →
  ∃ applied undone,
    applyTags env config resources accountID runID true w = (applied, None)
    ∧ undoLastRun env client applied = (undone, None)
    ∧ (∀ x, x ∈ resources → tags applied !! ID x = Some (SuggestedName x))
    ∧ (∀ x, x ∈ resources → tags undone !! ID x = Some (Name x))
    ∧ file applied
      = Stored {| Actions := Actions history
                             ++ recordedEntries env accountID runID (clock w) resources |}
    ∧ file undone
      = Stored {| Actions := markUndone runID
                    (Actions history
                     ++ recordedEntries env accountID runID (clock w) resources) |}
    ∧ Forall (λ a, Undone a = true)
        (markUndone runID
           (Actions history ++ recordedEntries env accountID runID (clock w) resources))
    ∧ undoLastRun env client undone = (undone, Some "no undone runs found").
Proof.
  intros Hload Hundone Hhome Hmkdir Hwrite Hconfig Hrun Hsome Hnodup Hok Hrevert
    Hread Hconfirm.
  destruct (applyTags_loop_recorded env config accountID runID Hhome Hmkdir Hwrite
              resources 0 w history Hok Hload) as (applied & Happly & Hload1 & Ht & Hi).
  set (entries := recordedEntries env accountID runID (clock w) resources) in *.
  set (recorded := {| Actions := Actions history ++ entries |}) in *.
  assert (Forall (λ a, Undone a = false → RunID a = runID) (Actions recorded)) as Hruns.
  { cbn [Actions recorded]. apply Forall_app. split.
    - eapply Forall_impl; [exact Hundone|]. intros a Ha. by rewrite Ha.
    - apply Forall_forall. intros a Ha _.
      destruct (list_elem_of_lookup_1 _ _ Ha) as [i Hi'].
      destruct (Forall2_lookup_r _ _ _ _ _
                  (recordedEntries_entries env accountID runID (clock w) resources) Hi')
        as (x & _ & timestamp & ->). done. }
  assert (¬ Forall (λ a, Undone a = true) (Actions recorded)) as Hnot.
  { cbn [Actions recorded]. rewrite Forall_app. intros [_ Hall].
    destruct resources as [|x xs]; [done|]. by inversion Hall. }
  assert (findLastRunID (Actions recorded) = runID) as Hlast.
  { destruct (findLastRunID_found _ Hnot) as (a & Hin & Ha & ->).
    rewrite Forall_forall in Hruns. by apply Hruns. }
  assert (collectActionsToUndo runID (Actions recorded) = entries) as Hcollect.
  { cbn [Actions recorded].
    rewrite collectActionsToUndo_app, (collectActionsToUndo_undone _ _ Hundone).
    apply collectActionsToUndo_recorded. }
  assert (file applied = Stored recorded) as Hstored.
  { apply (loadHistory_stored env applied recorded Hload1).
    cbn [Actions recorded]. destruct resources; [done|]. by destruct (Actions history). }
  destruct (ReadString applied) as [w1 answer] eqn:Hread1.
  assert (answer = inr response) as ->.
  { destruct (ReadString_frame applied) as [_ Ha]. rewrite Hread1 in Ha. cbn [snd] in Ha.
    destruct (ReadString_frame w) as [_ Hb]. rewrite Hread in Hb.
    rewrite Ha, Hi. by symmetry. }
  destruct (undoLastRun_effects env client applied recorded w1 response Hload1 Hnot)
    as (_ & Htags & _ & _ & _ & Hsaved); [by rewrite Hlast|done..|].
  rewrite Hlast, Hcollect in Htags. rewrite Hlast in Hsaved.
  destruct (Hsaved Hmkdir (Hwrite _)) as [Herr Hfile].
  destruct (undoLastRun env client applied) as [undone err] eqn:Hundo.
  cbn [fst snd] in *. subst err.
  assert (Forall (λ a, Undone a = true) (markUndone runID (Actions recorded))) as Hall.
  { by apply markUndone_all. }
  exists applied, undone. split; [exact Happly|]. split; [done|].
  split; [|split; [|split; [exact Hstored|split; [exact Hfile|split; [exact Hall|]]]]].
  - intros x Hx. rewrite Ht. by apply appliedTags_written.
  - intros x Hx. rewrite Htags.
    destruct (recordedEntries_elem env accountID runID (clock w) resources x Hx)
      as [timestamp Hentry].
    apply (revertedTags_restored client entries (tags applied)
             (recordedEntry timestamp accountID runID x)).
    + unfold entries. by rewrite recordedEntries_resources.
    + exact Hentry.
    + by apply Hrevert.
  - apply (undoLastRun_nothing_left env client undone
             {| Actions := markUndone runID (Actions recorded) |}); [|..|exact Hall].
    + unfold loadHistory. rewrite Hfile. by destruct (UserHomeDir env).
    + cbn [Actions recorded]. unfold markUndone. rewrite fmap_app.
      destruct resources; [done|]. by destruct (Actions history).
Qed.

(** A run id is never empty. *)
Lemma generateRunID_nonempty randRead unix : generateRunID randRead unix ≠ "".
Proof. unfold generateRunID. by destruct randRead. Qed.

(** C8, amended: undo takes the run of the most recent history entry that is
    not undone; when that entry has no run id, undo fails with
    [no undone runs found] and reverts nothing.  Otherwise, once the operator
    has confirmed and the AWS configuration is loaded, it sends one revert
    request for every entry of that run that is not undone, in order, whatever
    the provider answers to each; a revert that the provider accepts restores
    the recorded old value.  Then it marks every such entry undone, whatever
    the provider answered, keeps every entry in its place with its other
    fields and leaves the flag of the entries of other runs as it is, and
    writes the history once.  Applying a run and undoing it restores the old
    name of each resource, and a further undo, on a history that is not empty
    and whose entries are all undone, fails with [no undone runs found] and
    sends no request. *)
Theorem undo_reverts_last_run (env : Env) (client : ec2.Client) (w : World)
    (history : TagHistory) :
  loadHistory env w = inr history →
  (∀ older action newer,
     Actions history = older ++ action :: newer →
     Undone action = false → Forall (λ a, Undone a = true) newer →
     findLastRunID (Actions history) = RunID action
     ∧ (RunID action = "" → undoLastRun env client w = (w, Some "no undone runs found")))
  ∧ (∀ a, a ∈ collectActionsToUndo (findLastRunID (Actions history)) (Actions history)
          ↔ a ∈ Actions history ∧ RunID a = findLastRunID (Actions history)
            ∧ Undone a = false)
  ∧ (∀ w1 response,
       ¬ Forall (λ a, Undone a = true) (Actions history) →
       findLastRunID (Actions history) ≠ "" →
       ReadString w = (w1, inr response) → confirms response →
       LoadDefaultConfigErr env = None →
       let lastRunID := findLastRunID (Actions history) in
       let actionsToUndo := collectActionsToUndo lastRunID (Actions history) in
       let marked := {| Actions := markUndone lastRunID (Actions history) |} in
       undoLastRun env client w
       = (let '(w1, (successCount, notFoundCount, errorCount)) :=
            revertActions client actionsToUndo (0, 0, 0) w1 in
          match saveHistory env marked w1 with
          | (w2, Some e) => (w2, Some ("failed to save updated history: " +:+ e))
          | (w2, None) =>
              (print (print w2 (UndoSummary successCount notFoundCount errorCount))
                     (MarkedUndone (length actionsToUndo) lastRunID), None)
          end)
       ∧ requests (undoLastRun env client w).1
         = requests w ++ ((λ a, (Resource a, OldValue a)) <$> actionsToUndo)
       ∧ tags (undoLastRun env client w).1 = revertedTags client actionsToUndo (tags w)
       ∧ (NoDup (Resource <$> actionsToUndo) →
          ∀ a, a ∈ actionsToUndo →
               ec2.CreateTags client (Resource a) (OldValue a) = None →
               tags (undoLastRun env client w).1 !! Resource a = Some (OldValue a))
       ∧ writes (undoLastRun env client w).1 ≤ S (writes w)
       ∧ (MkdirAllErr env = None → writes (undoLastRun env client w).1 = S (writes w))
       ∧ (MkdirAllErr env = None → WriteFileErr env marked = None →
          (undoLastRun env client w).2 = None
          ∧ file (undoLastRun env client w).1 = Stored marked)
       ∧ Forall (λ a, RunID a = lastRunID → Undone a = true) (Actions marked)
       ∧ Forall2 (λ a a', Account a' = Account a ∧ Resource a' = Resource a
                          ∧ OldValue a' = OldValue a ∧ NewValue a' = NewValue a
                          ∧ Timestamp a' = Timestamp a ∧ RunID a' = RunID a
                          ∧ Undone a' = Undone a || bool_decide (RunID a = lastRunID))
                 (Actions history) (Actions marked))
  ∧ (Actions history ≠ [] → Forall (λ a, Undone a = true) (Actions history) →
     undoLastRun env client w = (w, Some "no undone runs found"))
  ∧ (∀ config accountID randRead unix resources response,
       let runID := generateRunID randRead unix in
       Forall (λ a, Undone a = true) (Actions history) →
       UserHomeDir env ≠ None → MkdirAllErr env = None →
       (∀ h, WriteFileErr env h = None) → LoadDefaultConfigErr env = None →
       resources ≠ [] → NoDup (ID <$> resources) →
       (∀ x, x ∈ resources →
             ec2.CreateTags (EC2Client config) (ID x) (SuggestedName x) = None) →
       (∀ x, x ∈ resources → ec2.CreateTags client (ID x) (Name x) = None) →
       (ReadString w).2 = inr response → confirms response →
       ∃ applied undone,
         applyTags env config resources accountID runID true w = (applied, None)
         ∧ undoLastRun env client applied = (undone, None)
         ∧ (∀ x, x ∈ resources → tags applied !! ID x = Some (SuggestedName x))
         ∧ (∀ x, x ∈ resources → tags undone !! ID x = Some (Name x))
         ∧ file applied
           = Stored {| Actions := Actions history
                                  ++ recordedEntries env accountID runID (clock w)
                                       resources |}
         ∧ file undone
           = Stored {| Actions := markUndone runID
                         (Actions history
                          ++ recordedEntries env accountID runID (clock w) resources) |}
         ∧ Forall (λ a, Undone a = true)
             (markUndone runID
                (Actions history
                 ++ recordedEntries env accountID runID (clock w) resources))
         ∧ undoLastRun env client undone = (undone, Some "no undone runs found")).
Proof.
  intros Hload. split; [|split; [|split; [|split]]].
  - intros older action newer Hactions Hundone Hnewer. split.
    + rewrite Hactions. by apply findLastRunID_last.
    + intros Hrun.
      by apply (undoLastRun_no_run_id env client w history older action newer).
  - intros a. apply collectActionsToUndo_elem.
  - intros w1 response Hsome Hrun Hread Hconfirm Hconfig. cbv zeta.
    destruct (undoLastRun_effects env client w history w1 response Hload Hsome Hrun
                Hread Hconfirm Hconfig) as (Hr & Ht & _ & Hw & Hw' & Hsaved).
    split; [by apply (undoLastRun_confirmed env client w history w1 response)|].
    split; [exact Hr|]. split; [exact Ht|]. split.
    { intros Hnodup a Ha Hok. rewrite Ht. by apply revertedTags_restored. }
    split; [exact Hw|]. split; [exact Hw'|]. split; [exact Hsaved|].
    split; [apply markUndone_run|apply markUndone_flags].
  - by apply undoLastRun_nothing_left.
  - intros config accountID randRead unix resources response runID.
    intros Hundone Hhome Hmkdir Hwrite Hconfig Hsome Hnodup Hok Hrevert Hread Hconfirm.
    apply (apply_then_undo env config client accountID runID resources w history
             response); try done.
    apply generateRunID_nonempty.
Qed.

Lemma undo_reverts_last_run_witness :
  ∃ applied undone,
    applyTags soundEnv acceptingProvider [resourceXY] "123456789012"
              (generateRunID None 1737892800) true freshWorld = (applied, None)
    ∧ undoLastRun soundEnv acceptingClient applied = (undone, None)
    ∧ tags applied !! "i-0123456789abcdef0" = Some "Y"
    ∧ tags undone !! "i-0123456789abcdef0" = Some "X"
    ∧ undoLastRun soundEnv acceptingClient undone = (undone, Some "no undone runs found").
Proof.
  destruct (undo_reverts_last_run soundEnv acceptingClient freshWorld {| Actions := [] |})
    as (_ & _ & _ & _ & Hround); [reflexivity|].
  destruct (Hround acceptingProvider "123456789012" None 1737892800%Z [resourceXY]
              ("y" +:+ String "010" ""))
    as (applied & undone & Happly & Hundo & Hy & Hx & _ & _ & _ & Hagain).
  - constructor.
  - discriminate.
  - reflexivity.
  - reflexivity.
  - reflexivity.
  - discriminate.
  - apply NoDup_singleton.
  - reflexivity.
  - reflexivity.
  - reflexivity.
  - left. reflexivity.
  - exists applied, undone. split; [exact Happly|]. split; [exact Hundo|].
    split; [|split; [|exact Hagain]].
    + apply (Hy resourceXY). left.
    + apply (Hx resourceXY). left.
Defined.

(** C8 as stated fails: a history may hold an entry that was recorded without
    a run id.  When it is the most recent entry that is not undone, it is the
    one entry of its run that is not undone, yet undo restores nothing, marks
    nothing and does not write the history: it fails with
    [no undone runs found], the error of a history whose entries are all
    undone. *)
Lemma undo_leaves_entry_without_run_id :
  loadHistory soundEnv ledgerWithoutRunID
  = inr {| Actions := [recordedEntry "2025-01-26T12:00:10Z" "123456789012" "" resourceXY] |}
  ∧ collectActionsToUndo
      (RunID (recordedEntry "2025-01-26T12:00:10Z" "123456789012" "" resourceXY))
      [recordedEntry "2025-01-26T12:00:10Z" "123456789012" "" resourceXY]
    = [recordedEntry "2025-01-26T12:00:10Z" "123456789012" "" resourceXY]
  ∧ confirms ("y" +:+ String "010" "")
  ∧ undoLastRun soundEnv acceptingClient ledgerWithoutRunID
    = (ledgerWithoutRunID, Some "no undone runs found").
Proof. split; [reflexivity|]. split; [reflexivity|]. split; [by left|reflexivity]. Qed.
(** * Further properties of the program *)

(** ** Validity of network-interface names *)

(** X1: for the kind [eni], a self-generated name with the prefix
    [unattached-] (the name [unattached-eni] among them) is still valid if
    and only if the extra information is [unattached]; any other
    self-generated name that contains [-eni] is still valid if and only if
    the extra information is not [unattached]; and the current state plays no
    part, whatever the name. *)
Theorem eni_name_validity (name currentState extraInfo : string) :
  isQuickTagCreatedName name "eni" = true →
  (prefixOf "unattached-" name →
     (isQuickTagNameStillValid name "eni" currentState extraInfo = true
      ↔ extraInfo = "unattached"))
  ∧ (¬ prefixOf "unattached-" name → substringOf "-eni" name →
     (isQuickTagNameStillValid name "eni" currentState extraInfo = true
      ↔ extraInfo ≠ "unattached"))
  ∧ (∀ otherState,
       isQuickTagNameStillValid name "eni" otherState extraInfo
       = isQuickTagNameStillValid name "eni" currentState extraInfo).
Proof.
  intros Hcreated. split; [|split; [|done]].
  - intros Hp%HasPrefix_true. rewrite valid_eni, Hcreated, Hp. cbn [negb].
    destruct (bool_decide (name = "unattached-eni")); apply bool_decide_eq_true.
  - intros Hp Hc%Contains_true. rewrite valid_eni, Hcreated, Hc. cbn [negb].
    destruct (bool_decide (name = "unattached-eni")) eqn:Hn.
    { apply bool_decide_eq_true in Hn. subst name. destruct Hp. by exists "eni". }
    destruct (strings.HasPrefix name "unattached-") eqn:Hp'.
    { by apply HasPrefix_true in Hp'. }
    apply bool_decide_eq_true.
Qed.

Lemma eni_name_validity_witness :
  (isQuickTagNameStillValid "unattached-eni" "eni" "in-use" "attached-to-i-1" = true
   ↔ "attached-to-i-1" = "unattached")
  ∧ (isQuickTagNameStillValid "lambda-eni-attach-1-eni" "eni" "available" "unattached" = true
     ↔ "unattached" ≠ "unattached").
Proof.
  split.
  - apply (eni_name_validity "unattached-eni" "in-use" "attached-to-i-1"); [reflexivity|].
    by exists "eni".
  - apply (eni_name_validity "lambda-eni-attach-1-eni" "available" "unattached");
      [reflexivity| |].
    + intros [r Hr]. discriminate Hr.
    + by exists "lambda", "-attach-1-eni".
Defined.

(** ** Instances that have a name *)

Lemma valid_instance name currentState extraInfo :
  isQuickTagNameStillValid name "instance" currentState extraInfo = true.
Proof.
  unfold isQuickTagNameStillValid.
  by destruct (negb (isQuickTagCreatedName name "instance")).
Qed.

Lemma findNameTag_none tags : (findNameTag tags).1 = false → (findNameTag tags).2 = "".
Proof.
  induction tags as [|tag tags IH]; [done|]. simpl.
  destruct (Tag.Key tag), (Tag.Value tag); try done.
  by destruct (bool_decide _).
Qed.

Lemma suggestInstanceName_type amiNames r : Type_ (suggestInstanceName amiNames r) = Type_ r.
Proof. unfold suggestInstanceName. by destruct (amiNames !! Extra r). Qed.

Lemma instanceIsCandidate_untagged instance :
  instanceIsCandidate instance = true → findNameTag (Instance.Tags instance) = (false, "").
Proof.
  unfold instanceIsCandidate, needsTagging_spec.
  intros [_ H]%andb_true_iff. destruct (Instance.ImageId instance) as [imageId|]; [|done].
  pose proof (findNameTag_none (Instance.Tags instance)) as Hnone.
  destruct (findNameTag (Instance.Tags instance)) as [[] currentName]; simpl in *.
  - rewrite valid_instance in H. cbn [negb] in H. by rewrite andb_false_r in H.
  - by rewrite Hnone.
Qed.

(** X2: an instance that has a [Name] tag is never listed, whatever the
    name: for the kind [instance] every name is still valid, so that the scan
    of an instance with a [Name] tag leaves the candidates as they are (or
    stops on the nil image id of an instance whose name is self-generated),
    and every candidate of a successful scan of the instances is of type
    [instance] and has the empty current name.  So the name
    [instance-ami-...], which the scan suggests for an instance whose image
    has no name and which is self-generated for the kind, is never looked at
    again. *)
Theorem named_instances_are_not_listed (rangeKeys : gset string → list string)
    (config : Config) :
  (∀ name currentState extraInfo,
     isQuickTagNameStillValid name "instance" currentState extraInfo = true)
  ∧ (∀ instance name acc,
       findNameTag (Instance.Tags instance) = (true, name) →
       scanInstance acc instance = Ok acc
       ∨ (scanInstance acc instance = Panic
          ∧ Instance.ImageId instance = None
          ∧ isQuickTagCreatedName name "instance" = true))
  ∧ (∀ candidates,
       findUntaggedInstances rangeKeys config = Ok candidates →
       Forall (λ r, Name r = "" ∧ Type_ r = "instance") candidates)
  ∧ (∀ amiNames r,
       amiNames !! Extra r = None → prefixOf "ami-" (Extra r) →
       isQuickTagCreatedName (SuggestedName (suggestInstanceName amiNames r)) "instance"
       = true).
Proof.
  split; [exact valid_instance|split; [|split]].
  - intros instance name [instances amiIDs] Htag.
    unfold scanInstance, instanceNeedsTagging. rewrite Htag. cbn [negb].
    destruct (bool_decide (Instance.StateName instance = "terminated")); [by left|].
    destruct (isQuickTagCreatedName name "instance") eqn:Hcreated; [|by left].
    destruct (Instance.ImageId instance) as [imageId|]; [|by right].
    left. simpl. by rewrite valid_instance.
  - intros candidates (instances & amiIDs & amiNames & Hscan & _ & ->)%findUntaggedInstances_Ok.
    destruct (foldM_candidates scanInstance instanceIsCandidate _ scanInstance_step
                _ _ _ Hscan) as (rs & Hrs & Hall).
    cbn [fst app] in Hrs. subst rs. apply Forall_fmap.
    eapply Forall2_Forall_r; [exact Hall|].
    apply Forall_forall. intros instance [_ Hc]%list_elem_of_In%filter_In r
      (_ & Htype & Hname & _). unfold compose.
    destruct (suggestInstanceName_keeps amiNames r) as (_ & -> & _).
    rewrite suggestInstanceName_type, Hname.
    by rewrite (instanceIsCandidate_untagged instance).
  - intros amiNames r Hnone [rest Hrest]. unfold suggestInstanceName.
    rewrite Hnone, Hrest. reflexivity.
Qed.

(** ** A network interface after it was given the suggested name *)

Lemma resolver_attached eni attachment :
  NetworkInterface.Attachment eni = Some attachment →
  strings.HasPrefix (getENIAttachmentInfo eni) "attached-" = true.
Proof.
  intros H. unfold getENIAttachmentInfo. rewrite H.
  destruct (NetworkInterfaceAttachment.InstanceId attachment); [reflexivity|].
  destruct (NetworkInterfaceAttachment.AttachmentId attachment); [|reflexivity].
  destruct (NetworkInterface.Description eni); [|reflexivity]. cbv zeta beta.
  repeat match goal with
         | |- context [if ?b then _ else _] => destruct b
         end; reflexivity.
Qed.

Lemma resolver_unattached eni :
  getENIAttachmentInfo eni = "unattached" ↔ NetworkInterface.Attachment eni = None.
Proof.
  split.
  - destruct (NetworkInterface.Attachment eni) as [attachment|] eqn:H; [|done].
    intros Heq. apply resolver_attached in H. rewrite Heq in H. discriminate H.
  - intros H. unfold getENIAttachmentInfo. by rewrite H.
Qed.

Lemma resolver_reads eni eni' :
  NetworkInterface.Attachment eni' = NetworkInterface.Attachment eni →
  NetworkInterface.Description eni' = NetworkInterface.Description eni →
  getENIAttachmentInfo eni' = getENIAttachmentInfo eni.
Proof. intros Ha Hd. unfold getENIAttachmentInfo. by rewrite Ha, Hd. Qed.

(** X3: a network interface that carries the name that the scan suggested
    for it, and whose attachment and description are as they were, needs
    tagging again exactly when it is attached and the suggested name is
    self-generated with the prefix [unattached-].  So an unattached interface
    is never listed again, and an attached one is listed again only if the
    name of its peer put that prefix in front, as for an interface attached
    to an instance that is itself named [unattached]. *)
Theorem eni_listed_again (attachmentNames : gmap string string)
    (eni eni' : NetworkInterface.t) (r : ResourceInfo) :
  Extra r = getENIAttachmentInfo eni →
  NetworkInterface.Attachment eni' = NetworkInterface.Attachment eni →
  NetworkInterface.Description eni' = NetworkInterface.Description eni →
  findNameTag (NetworkInterface.TagSet eni')
  = (true, SuggestedName (suggestENIName attachmentNames r)) →
  (eniNeedsTagging eni' = true
   ↔ NetworkInterface.Attachment eni ≠ None
     ∧ prefixOf "unattached-" (SuggestedName (suggestENIName attachmentNames r))
     ∧ isQuickTagCreatedName (SuggestedName (suggestENIName attachmentNames r)) "eni" = true)
  ∧ (NetworkInterface.Attachment eni = None → eniNeedsTagging eni' = false)
  ∧ (∀ attachment instanceId,
       NetworkInterface.Attachment eni = Some attachment →
       NetworkInterfaceAttachment.InstanceId attachment = Some instanceId →
       attachmentNames !! instanceId = Some "unattached" →
       SuggestedName (suggestENIName attachmentNames r) = "unattached-eni"
       ∧ eniNeedsTagging eni' = true).
Proof.
  intros Hextra Ha Hd Htag.
  assert (eniNeedsTagging eni' = true
          ↔ NetworkInterface.Attachment eni ≠ None
            ∧ prefixOf "unattached-" (SuggestedName (suggestENIName attachmentNames r))
            ∧ isQuickTagCreatedName (SuggestedName (suggestENIName attachmentNames r)) "eni"
              = true) as Hiff.
  { unfold eniNeedsTagging. rewrite Htag, (resolver_reads eni eni') by done.
    cbn [negb orb andb]. rewrite valid_eni.
    destruct (suggestENIName_name attachmentNames r) as [_ Hsuffix].
    set (name := SuggestedName (suggestENIName attachmentNames r)) in *.
    destruct (isQuickTagCreatedName name "eni") eqn:Hcreated; cbn [negb andb].
    2:{ split; [done|]. by intros (_ & _ & ?). }
    assert (strings.Contains name "-eni" = true) as Hcontains.
    { apply Contains_true. destruct Hsuffix as [a ->]. exists a, "".
      by rewrite append_empty_r. }
    rewrite Hcontains.
    destruct (NetworkInterface.Attachment eni) as [attachment|] eqn:Hattachment.
    - assert (getENIAttachmentInfo eni ≠ "unattached") as Hinfo.
      { rewrite resolver_unattached. by rewrite Hattachment. }
      rewrite (bool_decide_false (getENIAttachmentInfo eni = "unattached")) by done.
      rewrite (bool_decide_true (getENIAttachmentInfo eni ≠ "unattached")) by done.
      destruct (bool_decide (name = "unattached-eni")) eqn:Hn.
      { apply bool_decide_eq_true in Hn. split; [|done]. intros _.
        split; [done|]. split; [|done]. rewrite Hn. by exists "eni". }
      destruct (strings.HasPrefix name "unattached-") eqn:Hp.
      { apply HasPrefix_true in Hp. done. }
      split; [done|]. intros (_ & Hp'%HasPrefix_true & _). congruence.
    - assert (getENIAttachmentInfo eni = "unattached") as Hinfo.
      { by apply resolver_unattached. }
      assert (name = "unattached-eni") as ->.
      { unfold name, suggestENIName. rewrite Hextra, Hinfo. reflexivity. }
      rewrite Hinfo. split; [done|]. by intros (? & _). }
  split; [exact Hiff|split].
  - intros Hnone. destruct (eniNeedsTagging eni'); [|done].
    destruct Hiff as [Hiff _]. by destruct (Hiff eq_refl).
  - intros attachment instanceId Hattachment Hinstance Hname.
    assert (SuggestedName (suggestENIName attachmentNames r) = "unattached-eni") as Hs.
    { unfold suggestENIName. rewrite Hextra. unfold getENIAttachmentInfo.
      rewrite Hattachment, Hinstance, HasPrefix_app, TrimPrefix_app, Hname. reflexivity. }
    split; [done|]. apply Hiff. rewrite Hs, Hattachment. split; [done|].
    split; [by exists "eni"|reflexivity].
Qed.

Lemma eni_listed_again_witness :
  eniNeedsTagging
    (peerInterface [ {| Tag.Key := Some "Name"; Tag.Value := Some "unattached-eni" |} ])
  = true.
Proof.
  destruct (eni_listed_again {[ "i-0123456789abcdef0" := "unattached" ]}
              (peerInterface [])
              (peerInterface [ {| Tag.Key := Some "Name";
                                  Tag.Value := Some "unattached-eni" |} ])
              {| ID := "eni-0123456789abcdef0"; Type_ := "eni"; Name := "";
                 SuggestedName := ""; State := "in-use";
                 Extra := "attached-to-i-0123456789abcdef0" |})
    as (_ & _ & Hpeer); [reflexivity..|].
  eapply Hpeer; reflexivity.
Defined.

(** ** A volume that carries a name for an unattached volume *)

(** X4: a volume whose [Name] tag encodes "unattached" (the name
    [unattached], or a name with the prefix [unattached-]) is listed again
    exactly when its state is not [available] and it has an attachment whose
    device, the first one's, is not itself called [unattached]; its extra
    information is then that device, or [unknown] without one. *)
Theorem volume_listed_again (volume : Volume.t) (name : string) :
  findNameTag (Volume.Tags volume) = (true, name) →
  name = "unattached" ∨ prefixOf "unattached-" name →
  (volumeNeedsTagging volume = true
   ↔ Volume.State volume ≠ "available"
     ∧ ∃ attachment rest,
         Volume.Attachments volume = attachment :: rest
         ∧ VolumeAttachment.Device attachment ≠ Some "unattached")
  ∧ (volumeNeedsTagging volume = true →
     ∃ attachment rest,
       Volume.Attachments volume = attachment :: rest
       ∧ getVolumeMountPoint volume
         = default "unknown" (VolumeAttachment.Device attachment)).
Proof.
  intros Htag Hname.
  assert (isQuickTagCreatedName name "volume" = true
          ∧ bool_decide (name = "unattached") || strings.HasPrefix name "unattached-" = true)
    as [Hcreated Hunattached].
  { rewrite created_volume. destruct Hname as [->|Hp]; [done|].
    apply HasPrefix_true in Hp. rewrite Hp. by rewrite orb_true_r. }
  assert (volumeNeedsTagging volume = true
          ↔ Volume.State volume ≠ "available" ∧ getVolumeMountPoint volume ≠ "unattached")
    as Hneeds.
  { unfold volumeNeedsTagging. rewrite Htag, valid_volume, Hcreated, Hunattached.
    cbn [negb orb andb]. rewrite negb_true_iff, orb_false_iff, !bool_decide_eq_false.
    done. }
  split.
  - rewrite Hneeds. unfold getVolumeMountPoint.
    destruct (Volume.Attachments volume) as [|attachment rest].
    { split; [by intros [_ ?]|]. by intros (_ & ? & ? & ? & _). }
    split.
    + intros [Hstate Hmount]. split; [done|]. exists attachment, rest. split; [done|].
      intros Hdevice. by rewrite Hdevice in Hmount.
    + intros (Hstate & ? & ? & [= <- <-] & Hdevice). split; [done|].
      destruct (VolumeAttachment.Device attachment); [congruence|done].
  - intros [_ Hmount]%Hneeds. unfold getVolumeMountPoint in *.
    destruct (Volume.Attachments volume) as [|attachment rest]; [done|].
    exists attachment, rest. split; [done|].
    by destruct (VolumeAttachment.Device attachment).
Qed.

Lemma volume_listed_again_witness : volumeNeedsTagging staleVolume = true.
Proof.
  eapply (volume_listed_again staleVolume "unattached"); [reflexivity|by left|].
  split; [done|]. by eexists _, _.
Defined.

(** ** A [Name] tag with the empty value *)

Lemma created_empty kind : kind ≠ "eni" → isQuickTagCreatedName "" kind = false.
Proof.
  intros Hkind. unfold isQuickTagCreatedName.
  destruct (bool_decide (kind = "instance")); [reflexivity|].
  destruct (bool_decide (kind = "volume")); [reflexivity|].
  by rewrite bool_decide_false.
Qed.

(** X5: a resource whose [Name] tag holds the empty string counts as named:
    it needs no tagging, whatever its kind, state and extra information, so
    that the scans of volumes and network interfaces leave the candidates as
    they are, and so does the scan of an instance.  An undo reverts an action
    whose old value is empty with a request that sets the [Name] tag to the
    empty string. *)
Theorem empty_name_is_a_name (kind : string) (tags : list Tag.t)
    (currentState extraInfo : string) :
  findNameTag tags = (true, "") →
  needsTagging_spec kind tags currentState extraInfo = false
  ∧ (∀ volume acc, Volume.Tags volume = tags → scanVolume acc volume = Ok acc)
  ∧ (∀ eni acc, NetworkInterface.TagSet eni = tags → scanENI acc eni = Ok acc)
  ∧ (∀ instance acc, Instance.Tags instance = tags → scanInstance acc instance = Ok acc)
  ∧ (∀ client action rest counts w,
       OldValue action = "" →
       ∃ sent, requests (revertActions client (action :: rest) counts w).1
               = requests w ++ (Resource action, "") :: sent).
Proof.
  intros Htag.
  assert (∀ kind state extra, needsTagging_spec kind tags state extra = false) as Hnone.
  { intros kind' state extra. unfold needsTagging_spec. rewrite Htag. cbn [negb orb].
    destruct (decide (kind' = "eni")) as [->|Hkind]; [reflexivity|].
    by rewrite created_empty. }
  split; [apply Hnone|]. split; [|split; [|split]].
  - intros volume [volumes ids] Htags. unfold scanVolume.
    by rewrite volumeNeedsTagging_spec, Htags, Hnone.
  - intros eni [eniList ids] Htags. unfold scanENI.
    by rewrite eniNeedsTagging_spec, Htags, Hnone.
  - intros instance [instances ids] Htags. unfold scanInstance, instanceNeedsTagging.
    rewrite Htags, Htag. cbn [negb].
    destruct (bool_decide (Instance.StateName instance = "terminated")); [done|].
    by rewrite created_empty.
  - intros client action rest counts w Hold.
    destruct (revertActions_all client (action :: rest) counts w) as (-> & _).
    rewrite fmap_cons, Hold. by eexists.
Qed.

Lemma empty_name_is_a_name_witness :
  scanVolume ([], ∅)
    {| Volume.VolumeId := Some "vol-0123456789abcdef0";
       Volume.State := "available";
       Volume.Attachments := [];
       Volume.Tags := [ {| Tag.Key := Some "Name"; Tag.Value := Some "" |} ] |}
  = Ok ([], ∅).
Proof.
  eapply (empty_name_is_a_name "volume" [ {| Tag.Key := Some "Name"; Tag.Value := Some "" |} ]
            "available" "unattached"); reflexivity.
Defined.

(** ** The batches of a lookup *)

(** X6: the batch loop of the lookups cuts the ids into consecutive batches:
    for a positive batch size, the batches put together are the ids, each in
    the batch it was cut into and none of them twice or left out; no batch is
    empty or longer than the batch size; and there are just as many batches
    as the ids need. *)
Theorem batches_partition (batchSize : nat) (ids : list string) :
  0 < batchSize →
  mjoin (batches batchSize ids) = ids
  ∧ Forall (λ batch, 0 < length batch ≤ batchSize) (batches batchSize ids)
  ∧ length ids ≤ length (batches batchSize ids) * batchSize
  ∧ length (batches batchSize ids) * batchSize < length ids + batchSize.
Proof.
  intros Hsize. unfold batches.
  assert (∀ fuel ids,
            length ids ≤ fuel →
            mjoin (batches_loop fuel batchSize ids) = ids
            ∧ Forall (λ batch, 0 < length batch ≤ batchSize)
                     (batches_loop fuel batchSize ids)
            ∧ length ids ≤ length (batches_loop fuel batchSize ids) * batchSize
            ∧ length (batches_loop fuel batchSize ids) * batchSize
              < length ids + batchSize) as Hloop; [|by apply Hloop].
  clear ids. induction fuel as [|fuel IH]; intros ids Hfuel.
  - destruct ids; simpl in *; [|lia]. repeat split; [constructor|lia..].
  - destruct ids as [|id ids]; [simpl; repeat split; [constructor|lia..]|].
    cbn [batches_loop].
    destruct (IH (drop batchSize (id :: ids))) as (Hjoin & Hall & Hlo & Hhi).
    { rewrite length_drop. simpl in *. lia. }
    rewrite length_drop in Hlo, Hhi.
    repeat split.
    + change (take batchSize (id :: ids)
              ++ mjoin (batches_loop fuel batchSize (drop batchSize (id :: ids)))
              = id :: ids).
      rewrite Hjoin. apply take_drop.
    + constructor; [|done]. rewrite length_take. simpl. lia.
    + cbn [length] in *. rewrite Nat.mul_succ_l. lia.
    + cbn [length] in *. rewrite Nat.mul_succ_l.
      destruct (length (batches_loop fuel batchSize (drop batchSize (id :: ids))));
        [lia|]. rewrite Nat.mul_succ_l in *. lia.
Qed.

Lemma batches_partition_witness :
  mjoin (batches 2 ["ami-1"; "ami-2"; "ami-3"]) = ["ami-1"; "ami-2"; "ami-3"]
  ∧ Forall (λ batch, 0 < length batch ≤ 2) (batches 2 ["ami-1"; "ami-2"; "ami-3"])
  ∧ length ["ami-1"; "ami-2"; "ami-3"] ≤ length (batches 2 ["ami-1"; "ami-2"; "ami-3"]) * 2
  ∧ length (batches 2 ["ami-1"; "ami-2"; "ami-3"]) * 2 < length ["ami-1"; "ami-2"; "ami-3"] + 2.
Proof. apply (batches_partition 2 ["ami-1"; "ami-2"; "ami-3"]). lia. Defined.

(** ** The names of the instances of a lookup *)

Section FoldMElem.

Context {A B : Type}.
Implicit Types (f : B → A → result B) (l : list A) (b : B).

Lemma foldM_invariant_elem (P : B → Prop) f l b b' :
  (∀ b x b', x ∈ l → P b → f b x = Ok b' → P b') → P b → foldM f b l = Ok b' → P b'.
Proof.
  revert b. induction l as [|x l IH]; intros b Hstep Hb H; simpl in H.
  - by injection H as <-.
  - destruct (f b x) as [b1| |] eqn:Hf; try done. simpl in H.
    apply (IH b1); [|by eapply Hstep; [left|..]|done].
    intros b2 y b3 Hy. apply Hstep. by right.
Qed.

Lemma foldM_elem f l b b' x :
  foldM f b l = Ok b' → x ∈ l →
  ∃ l1 l2 b1 b2, l = l1 ++ x :: l2 ∧ f b1 x = Ok b2 ∧ foldM f b2 l2 = Ok b'.
Proof.
  intros H (l1 & l2 & ->)%list_elem_of_split. rewrite foldM_app in H.
  destruct (foldM f b l1) as [b1| |]; try done. simpl in H.
  destruct (f b1 x) as [b2| |] eqn:Hf; try done. simpl in H.
  by exists l1, l2, b1, b2.
Qed.

End FoldMElem.

Lemma foldl_elem {A B : Type} (P : B → Prop) (f : B → A → B) (l : list A) (b : B) (x : A) :
  x ∈ l → (∀ b, P (f b x)) → (∀ b y, P b → P (f b y)) → P (foldl f b l).
Proof.
  intros (l1 & l2 & ->)%list_elem_of_split Hx Hkeep. rewrite foldl_app. simpl.
  apply foldl_invariant; [apply Hx|]. intros b' y _. apply Hkeep.
Qed.

Lemma recordInstanceName_keeps instanceNames instance id :
  is_Some (instanceNames !! id) → is_Some (recordInstanceName instanceNames instance !! id).
Proof.
  intros Hid. unfold recordInstanceName.
  destruct (Instance.InstanceId instance) as [instanceId|]; [|done].
  destruct (findNameTag (Instance.Tags instance)) as [[] value].
  - rewrite lookup_insert_eq. by apply lookup_insert_is_Some'; right.
  - destruct (instanceNames !! instanceId) eqn:H; [done|].
    by apply lookup_insert_is_Some'; right.
Qed.

Lemma recordInstanceName_records instanceNames instance id :
  Instance.InstanceId instance = Some id →
  is_Some (recordInstanceName instanceNames instance !! id).
Proof.
  intros Hid. unfold recordInstanceName. rewrite Hid.
  destruct (findNameTag (Instance.Tags instance)) as [[] value].
  - rewrite lookup_insert_eq. apply lookup_insert_is_Some'. by left.
  - destruct (instanceNames !! id) eqn:H; [by rewrite H|].
    apply lookup_insert_is_Some'. by left.
Qed.

Lemma recordInstanceName_value instanceNames instance id name :
  recordInstanceName instanceNames instance !! id = Some name →
  instanceNames !! id = Some name
  ∨ (Instance.InstanceId instance = Some id
     ∧ (findNameTag (Instance.Tags instance) = (true, name)
        ∨ ((findNameTag (Instance.Tags instance)).1 = false ∧ name = id))).
Proof.
  unfold recordInstanceName.
  destruct (Instance.InstanceId instance) as [instanceId|]; [|by left].
  destruct (findNameTag (Instance.Tags instance)) as [[] value]; simpl.
  - rewrite lookup_insert_eq. intros [[-> ->]|[_ ?]]%lookup_insert_Some; [|by left].
    right. split; [done|by left].
  - destruct (instanceNames !! instanceId) eqn:H; [by left|].
    intros [[-> ->]|[_ ?]]%lookup_insert_Some; [|by left].
    right. split; [done|by right].
Qed.

Lemma getInstanceNames_coverage rangeKeys config instanceIDs instanceNames
    batch output reservation instance id :
  size instanceIDs ≠ 0 →
  getInstanceNames rangeKeys config instanceIDs = Ok instanceNames →
  batch ∈ batches 1000 (rangeKeys instanceIDs) →
  ec2.DescribeInstances (EC2Client config) batch = Ok output →
  reservation ∈ output → instance ∈ Reservation.Instances reservation →
  Instance.InstanceId instance = Some id →
  is_Some (instanceNames !! id).
Proof.
  intros Hsize. unfold getInstanceNames. rewrite bool_decide_false by done. cbv zeta.
  intros Hfold Hbatch Houtput Hreservation Hinstance Hid.
  destruct (foldM_elem _ _ _ _ _ Hfold Hbatch) as (l1 & l2 & b1 & b2 & _ & Hstep & Hrest).
  rewrite Houtput in Hstep. simpl in Hstep. injection Hstep as <-.
  pattern instanceNames.
  eapply foldM_invariant; [| |exact Hrest]; cbv beta.
  - intros names batch' names'. intros Hnames Hstep.
    destruct (ec2.DescribeInstances _ batch') as [output'| |]; try done.
    simpl in Hstep. injection Hstep as <-.
    apply foldl_invariant; [done|]. intros names' reservation' _ Hnames'.
    apply foldl_invariant; [done|]. intros names'' instance' _.
    apply recordInstanceName_keeps.
  - apply (foldl_elem (λ names, is_Some (names !! id)) _ _ _ reservation); [done|..].
    + intros names.
      apply (foldl_elem (λ names, is_Some (names !! id)) _ _ _ instance); [done|..].
      * intros names'. by apply recordInstanceName_records.
      * intros names' instance'. apply recordInstanceName_keeps.
    + intros names reservation' Hnames.
      apply foldl_invariant; [done|]. intros names' instance' _.
      apply recordInstanceName_keeps.
Qed.

Lemma getInstanceNames_provenance rangeKeys config instanceIDs instanceNames id name :
  getInstanceNames rangeKeys config instanceIDs = Ok instanceNames →
  instanceNames !! id = Some name →
  ∃ batch output reservation instance,
    batch ∈ batches 1000 (rangeKeys instanceIDs)
    ∧ ec2.DescribeInstances (EC2Client config) batch = Ok output
    ∧ reservation ∈ output ∧ instance ∈ Reservation.Instances reservation
    ∧ Instance.InstanceId instance = Some id
    ∧ (findNameTag (Instance.Tags instance) = (true, name)
       ∨ ((findNameTag (Instance.Tags instance)).1 = false ∧ name = id)).
Proof.
  unfold getInstanceNames. destruct (bool_decide (size instanceIDs = 0)).
  { intros [= <-]. by rewrite lookup_empty. }
  cbv zeta. intros Hfold. revert id name. pattern instanceNames.
  eapply foldM_invariant_elem; [| |exact Hfold]; cbv beta.
  - intros names batch names' Hbatch Hnames Hstep.
    destruct (ec2.DescribeInstances _ batch) as [output| |] eqn:Houtput; try done.
    simpl in Hstep. injection Hstep as <-.
    apply foldl_invariant; [done|]. intros names' reservation Hreservation Hnames'.
    apply foldl_invariant; [done|]. intros names'' instance Hinstance Hnames'' id name.
    intros [H|[Hid H]]%recordInstanceName_value; [by apply Hnames''|].
    by exists batch, output, reservation, instance.
  - intros id name H. by rewrite lookup_empty in H.
Qed.

(** X7: when the range over the ids visits each id once, a successful lookup
    of instance names holds a name for every instance that the provider
    returned with an id, in whatever batch; every name it holds comes from
    such an instance, and is the value of its [Name] tag or, for an instance
    without one, the id itself.  Without ids the lookup succeeds with no
    names, whatever the provider would answer.  The lookup of attachment
    names is the same function. *)
Theorem instance_names_of_lookup (rangeKeys : gset string → list string) (config : Config)
    (instanceIDs : gset string) :
  rangeKeys instanceIDs ≡ₚ elements instanceIDs →
  (size instanceIDs = 0 → getInstanceNames rangeKeys config instanceIDs = Ok ∅)
  ∧ (∀ instanceNames,
       getInstanceNames rangeKeys config instanceIDs = Ok instanceNames →
       (∀ batch output reservation instance id,
          batch ∈ batches 1000 (rangeKeys instanceIDs) →
          ec2.DescribeInstances (EC2Client config) batch = Ok output →
          reservation ∈ output → instance ∈ Reservation.Instances reservation →
          Instance.InstanceId instance = Some id →
          is_Some (instanceNames !! id))
       ∧ (∀ id name,
            instanceNames !! id = Some name →
            ∃ batch output reservation instance,
              batch ∈ batches 1000 (rangeKeys instanceIDs)
              ∧ ec2.DescribeInstances (EC2Client config) batch = Ok output
              ∧ reservation ∈ output ∧ instance ∈ Reservation.Instances reservation
              ∧ Instance.InstanceId instance = Some id
              ∧ (findNameTag (Instance.Tags instance) = (true, name)
                 ∨ ((findNameTag (Instance.Tags instance)).1 = false ∧ name = id))))
  ∧ getAttachmentNames rangeKeys config instanceIDs
    = getInstanceNames rangeKeys config instanceIDs.
Proof.
  intros Hrange. split; [|split; [|done]].
  { intros Hsize. unfold getInstanceNames. by rewrite bool_decide_true. }
  intros instanceNames Hnames. split.
  - intros batch output reservation instance id Hbatch.
    destruct (decide (size instanceIDs = 0)) as [Hsize|Hsize].
    + apply size_empty_inv in Hsize. apply leibniz_equiv in Hsize. subst instanceIDs.
      rewrite elements_empty in Hrange. apply Permutation_nil_r in Hrange.
      rewrite Hrange in Hbatch. by apply elem_of_nil in Hbatch.
    + exact (getInstanceNames_coverage rangeKeys config instanceIDs instanceNames batch
               output reservation instance id Hsize Hnames Hbatch).
  - intros id name.
    exact (getInstanceNames_provenance rangeKeys config instanceIDs instanceNames id name
             Hnames).
Qed.

Lemma instance_names_of_lookup_witness :
  getAttachmentNames elements providerOfUnnamedPeer {[ "i-0123456789abcdef0" ]}
  = getInstanceNames elements providerOfUnnamedPeer {[ "i-0123456789abcdef0" ]}
  ∧ ∀ instanceNames,
      getInstanceNames elements providerOfUnnamedPeer {[ "i-0123456789abcdef0" ]}
      = Ok instanceNames →
      is_Some (instanceNames !! "i-0123456789abcdef0").
Proof.
  destruct (instance_names_of_lookup elements providerOfUnnamedPeer
              {[ "i-0123456789abcdef0" ]}) as (_ & Hnames & Hsame); [reflexivity|].
  split; [exact Hsame|]. intros instanceNames [Hcover _]%Hnames.
  apply (Hcover ["i-0123456789abcdef0"] [ {| Reservation.Instances := [untaggedInstance] |} ]
           {| Reservation.Instances := [untaggedInstance] |} untaggedInstance).
  - rewrite elements_singleton. left.
  - reflexivity.
  - left.
  - left.
  - reflexivity.
Defined.

(** ** The references that a scan looks up *)

Lemma foldM_references {A : Type}
    (step : list ResourceInfo * gset string → A → result (list ResourceInfo * gset string))
    (ref : A → string → Prop) :
  (∀ acc x acc', step acc x = Ok acc' →
     ∀ id, id ∈ acc'.2 ↔ id ∈ acc.2 ∨ ref x id) →
  ∀ l acc acc', foldM step acc l = Ok acc' →
    ∀ id, id ∈ acc'.2 ↔ id ∈ acc.2 ∨ ∃ x, x ∈ l ∧ ref x id.
Proof.
  intros Hstep. induction l as [|x l IH]; intros acc acc' H id; simpl in H.
  { injection H as <-. split; [by left|]. intros [?|(x & Hx & _)]; [done|].
    by apply elem_of_nil in Hx. }
  destruct (step acc x) as [acc1| |] eqn:Hx; try done. simpl in H.
  rewrite (IH _ _ H id), (Hstep _ _ _ Hx id). split.
  - intros [[?|?]|(y & Hy & ?)]; [by left|right..].
    + exists x. split; [left|done].
    + exists y. split; [by right|done].
  - intros [?|(y & [->|Hy]%elem_of_cons & ?)]; [by left; left|by left; right|].
    right. by exists y.
Qed.

Lemma scanInstance_references acc instance acc' :
  scanInstance acc instance = Ok acc' →
  ∀ id, id ∈ acc'.2
        ↔ id ∈ acc.2
          ∨ (instanceIsCandidate instance = true ∧ Instance.ImageId instance = Some id).
Proof.
  destruct acc as [instances amiIDs].
  unfold scanInstance, instanceIsCandidate, instanceNeedsTagging, needsTagging_spec.
  destruct (bool_decide (Instance.StateName instance = "terminated")).
  { intros [= <-] id. cbn [snd andb negb]. split; [by left|by intros [?|[? _]]]. }
  cbn [negb andb].
  destruct (findNameTag (Instance.Tags instance)) as [hasNameTag currentName].
  destruct (Instance.ImageId instance) as [imageId|],
           (Instance.InstanceId instance) as [instanceId|],
           hasNameTag,
           (isQuickTagCreatedName currentName "instance");
    cbn [negb andb orb deref mbind result_bind mret result_ret];
    try destruct (isQuickTagNameStillValid currentName "instance"
                    (Instance.StateName instance) imageId);
    cbn [negb andb orb deref mbind result_bind mret result_ret];
    intros [= <-] id; cbn [snd]; rewrite ?elem_of_union, ?elem_of_singleton;
    (split;
     [intros H; first [by left|destruct H as [->|H]; [by right|by left]]
     |intros [H|[H1 H2]]; simplify_eq; first [done|by left|by right]]).
Qed.

Lemma volume_references (attachments : list VolumeAttachment.t) (instanceIDs : gset string)
    (id : string) :
  id ∈ foldl (λ (ids : gset string) attachment,
                match VolumeAttachment.InstanceId attachment with
                | Some instanceId => {[ instanceId ]} ∪ ids
                | None => ids
                end) instanceIDs attachments
  ↔ id ∈ instanceIDs
    ∨ ∃ attachment, attachment ∈ attachments
                    ∧ VolumeAttachment.InstanceId attachment = Some id.
Proof.
  revert instanceIDs. induction attachments as [|a attachments IH]; intros instanceIDs.
  { simpl. split; [by left|]. intros [?|(a & Ha & _)]; [done|]. by apply elem_of_nil in Ha. }
  cbn [foldl]. rewrite IH. split.
  - intros [H|(b & Hb & ?)].
    + destruct (VolumeAttachment.InstanceId a) as [instanceId|] eqn:Ha; [|by left].
      apply elem_of_union in H as [->%elem_of_singleton|?]; [|by left].
      right. exists a. split; [left|done].
    + right. exists b. split; [by right|done].
  - intros [?|(b & [->|Hb]%elem_of_cons & Hid)].
    + left. destruct (VolumeAttachment.InstanceId a); [|done].
      apply elem_of_union. by right.
    + left. rewrite Hid. apply elem_of_union. left. by apply elem_of_singleton.
    + right. by exists b.
Qed.

Lemma scanVolume_references acc volume acc' :
  scanVolume acc volume = Ok acc' →
  ∀ id, id ∈ acc'.2
        ↔ id ∈ acc.2
          ∨ (volumeNeedsTagging volume = true
             ∧ ∃ attachment, attachment ∈ Volume.Attachments volume
                             ∧ VolumeAttachment.InstanceId attachment = Some id).
Proof.
  destruct acc as [volumes instanceIDs]. unfold scanVolume.
  destruct (volumeNeedsTagging volume).
  2:{ intros [= <-] id. cbn [snd]. split; [by left|by intros [?|[? _]]]. }
  destruct (Volume.VolumeId volume) as [volumeId|];
    cbn [deref mbind result_bind]; intros [= <-] id. cbn [snd].
  rewrite volume_references. split; (intros [?|?]; [by left|right]); tauto.
Qed.

Lemma scanENI_references acc eni acc' :
  scanENI acc eni = Ok acc' →
  ∀ id, id ∈ acc'.2
        ↔ id ∈ acc.2
          ∨ (eniNeedsTagging eni = true
             ∧ ∃ attachment, NetworkInterface.Attachment eni = Some attachment
                             ∧ NetworkInterfaceAttachment.InstanceId attachment = Some id).
Proof.
  destruct acc as [eniList attachmentIDs]. unfold scanENI.
  destruct (eniNeedsTagging eni).
  2:{ intros [= <-] id. cbn [snd]. split; [by left|by intros [?|[? _]]]. }
  destruct (NetworkInterface.NetworkInterfaceId eni) as [eniId|];
    cbn [deref mbind result_bind]; intros [= <-] id. cbn [snd].
  destruct (NetworkInterface.Attachment eni) as [attachment|].
  2:{ split; [by left|]. by intros [?|(_ & ? & ? & _)]. }
  destruct (NetworkInterfaceAttachment.InstanceId attachment) as [instanceId|] eqn:Hid;
    rewrite ?elem_of_union, ?elem_of_singleton.
  - split.
    + intros [->|?]; [right|by left]. split; [done|]. by exists attachment.
    + intros [?|(_ & ? & [= <-] & ?)]; [by right|]. left. congruence.
  - split; [by left|]. intros [?|(_ & ? & [= <-] & ?)]; [done|congruence].
Qed.

(** X8: a scan looks up the references of its candidates and no other.
    After a successful pass over the pages, the image ids to look up are
    those of the candidate instances; the instance ids to look up for the
    volumes are those of every attachment of a candidate volume, not of the
    first one only; and the instance ids to look up for the network
    interfaces are those of the candidate interfaces that are attached to an
    instance. *)
Theorem lookups_are_for_candidates (config : Config) :
  (∀ instances amiIDs id,
     scanInstances config = Ok (instances, amiIDs) →
     (id ∈ amiIDs
      ↔ ∃ instance, instance ∈ scannedInstances config
                    ∧ instanceIsCandidate instance = true
                    ∧ Instance.ImageId instance = Some id))
  ∧ (∀ volumes instanceIDs id,
       scanVolumes config = Ok (volumes, instanceIDs) →
       (id ∈ instanceIDs
        ↔ ∃ volume attachment,
            volume ∈ pageItems (ec2.DescribeVolumesPages (EC2Client config))
            ∧ volumeNeedsTagging volume = true
            ∧ attachment ∈ Volume.Attachments volume
            ∧ VolumeAttachment.InstanceId attachment = Some id))
  ∧ (∀ eniList attachmentIDs id,
       scanENIs config = Ok (eniList, attachmentIDs) →
       (id ∈ attachmentIDs
        ↔ ∃ eni attachment,
            eni ∈ pageItems (ec2.DescribeNetworkInterfacesPages (EC2Client config))
            ∧ eniNeedsTagging eni = true
            ∧ NetworkInterface.Attachment eni = Some attachment
            ∧ NetworkInterfaceAttachment.InstanceId attachment = Some id)).
Proof.
  split; [|split].
  - intros instances amiIDs id Hscan. unfold scanInstances in Hscan.
    apply foldM_pages, foldM_reservations in Hscan.
    rewrite (foldM_references scanInstance _ scanInstance_references _ _ _ Hscan id).
    cbn [snd]. rewrite elem_of_empty. split.
    + intros [[]|(instance & ? & ? & ?)]. by exists instance.
    + intros (instance & ? & ? & ?). right. by exists instance.
  - intros volumes instanceIDs id Hscan. unfold scanVolumes in Hscan.
    apply foldM_pages in Hscan.
    rewrite (foldM_references scanVolume _ scanVolume_references _ _ _ Hscan id).
    cbn [snd]. rewrite elem_of_empty. split.
    + intros [[]|(volume & ? & ? & attachment & ? & ?)]. by exists volume, attachment.
    + intros (volume & attachment & ? & ? & ? & ?). right. exists volume.
      split; [done|]. split; [done|]. by exists attachment.
  - intros eniList attachmentIDs id Hscan. unfold scanENIs in Hscan.
    apply foldM_pages in Hscan.
    rewrite (foldM_references scanENI _ scanENI_references _ _ _ Hscan id).
    cbn [snd]. rewrite elem_of_empty. split.
    + intros [[]|(eni & ? & ? & attachment & ? & ?)]. by exists eni, attachment.
    + intros (eni & attachment & ? & ? & ? & ?). right. exists eni.
      split; [done|]. split; [done|]. by exists attachment.
Qed.

(** ** Where the suggested name of an instance comes from *)

Lemma getAMINames_provenance rangeKeys config amiIDs amiNames imageId name :
  getAMINames rangeKeys config amiIDs = Ok amiNames →
  amiNames !! imageId = Some name →
  ∃ batch output image,
    batch ∈ batches 200 (rangeKeys amiIDs)
    ∧ ec2.DescribeImages (EC2Client config) batch = Ok output
    ∧ image ∈ output ∧ Image.ImageId image = Some imageId ∧ Image.Name image = Some name.
Proof.
  unfold getAMINames. destruct (bool_decide (size amiIDs = 0)).
  { intros [= <-]. by rewrite lookup_empty. }
  cbv zeta. intros H. revert imageId name. pattern amiNames.
  eapply foldM_invariant_elem; [| |exact H]; cbv beta.
  - intros names batch names' Hbatch Hnames.
    destruct (ec2.DescribeImages (EC2Client config) batch) as [output| |] eqn:Hout;
      cbn [mbind result_bind]; [|done..].
    intros [= <-]. apply foldl_invariant; [exact Hnames|].
    intros b image Hin Hb imageId name.
    destruct (Image.ImageId image) as [id|] eqn:Hid; [|apply Hb].
    destruct (Image.Name image) as [n|] eqn:Hn; [|apply Hb].
    destruct (decide (id = imageId)) as [->|Hne].
    + rewrite lookup_insert_eq. intros [= <-]. by exists batch, output, image.
    + rewrite lookup_insert_ne by done. apply Hb.
  - intros imageId name. by rewrite lookup_empty.
Qed.

Lemma getAMINames_coverage rangeKeys config amiIDs amiNames batch output image imageId name :
  size amiIDs ≠ 0 →
  getAMINames rangeKeys config amiIDs = Ok amiNames →
  batch ∈ batches 200 (rangeKeys amiIDs) →
  ec2.DescribeImages (EC2Client config) batch = Ok output →
  image ∈ output → Image.ImageId image = Some imageId → Image.Name image = Some name →
  is_Some (amiNames !! imageId).
Proof.
  intros Hsize. unfold getAMINames. rewrite bool_decide_false by done. cbv zeta.
  intros Hfold Hbatch Houtput Himage Hid Hname.
  assert (∀ (names : gmap string string) image',
            is_Some (names !! imageId) →
            is_Some (match Image.ImageId image', Image.Name image' with
                     | Some imageId', Some name' => <[imageId' := name']> names
                     | _, _ => names
                     end !! imageId)) as Hkeep.
  { intros names image' Hnames.
    destruct (Image.ImageId image'), (Image.Name image'); try done.
    apply lookup_insert_is_Some'. by right. }
  destruct (foldM_elem _ _ _ _ _ Hfold Hbatch) as (l1 & l2 & b1 & b2 & _ & Hstep & Hrest).
  rewrite Houtput in Hstep. simpl in Hstep. injection Hstep as <-.
  pattern amiNames. eapply foldM_invariant; [| |exact Hrest]; cbv beta.
  - intros names batch' names' Hnames Hstep.
    destruct (ec2.DescribeImages _ batch') as [output'| |]; try done.
    simpl in Hstep. injection Hstep as <-.
    apply foldl_invariant; [done|]. intros names' image' _. apply Hkeep.
  - apply (foldl_elem (λ names, is_Some (names !! imageId)) _ _ _ image); [done|..].
    + intros names. rewrite Hid, Hname. apply lookup_insert_is_Some'. by left.
    + apply Hkeep.
Qed.

Lemma scanInstance_extras instances amiIDs l :
  foldM scanInstance ([], ∅) l = Ok (instances, amiIDs) →
  Forall (λ r, Extra r ∈ amiIDs) instances.
Proof.
  intros H.
  change (Forall (λ r, Extra r ∈ (instances, amiIDs).2) (instances, amiIDs).1).
  pattern (instances, amiIDs). eapply foldM_invariant; [| |exact H]; cbv beta.
  - intros acc instance acc' Hacc Hstep.
    pose proof (scanInstance_step _ _ _ Hstep) as Hlist.
    pose proof (scanInstance_references _ _ _ Hstep) as Hrefs.
    assert (Forall (λ r, Extra r ∈ acc'.2) acc.1) as Hold.
    { eapply Forall_impl; [exact Hacc|]. intros r Hr. apply Hrefs. by left. }
    destruct (instanceIsCandidate instance) eqn:Hcandidate.
    + destruct Hlist as (r & -> & _ & _ & _ & _ & Himage).
      apply Forall_app. split; [done|]. constructor; [|done].
      apply Hrefs. by right.
    + by rewrite Hlist.
  - constructor.
Qed.

(** X9: the name suggested for a candidate instance comes from the AMI
    lookup of the candidates' image ids, and from nowhere else.  After a
    successful scan of the instances, the suggested name of every candidate
    is the name of an image with the candidate's image id that the provider
    returned for a batch of the lookup; or, if the provider returned no image
    with that id and a name, in any batch, it is [instance-] followed by the
    image id. *)
Theorem instance_suggestions_come_from_lookup (rangeKeys : gset string → list string)
    (config : Config) (candidates : list ResourceInfo) :
  findUntaggedInstances rangeKeys config = Ok candidates →
  ∃ instances amiIDs,
    scanInstances config = Ok (instances, amiIDs)
    ∧ Forall (λ r,
                (∃ batch output image,
                   batch ∈ batches 200 (rangeKeys amiIDs)
                   ∧ ec2.DescribeImages (EC2Client config) batch = Ok output
                   ∧ image ∈ output
                   ∧ Image.ImageId image = Some (Extra r)
                   ∧ Image.Name image = Some (SuggestedName r))
                ∨ (SuggestedName r = "instance-" +:+ Extra r
                   ∧ ∀ batch output image,
                       batch ∈ batches 200 (rangeKeys amiIDs) →
                       ec2.DescribeImages (EC2Client config) batch = Ok output →
                       image ∈ output → Image.ImageId image = Some (Extra r) →
                       Image.Name image = None))
             candidates.
Proof.
  unfold findUntaggedInstances.
  destruct (scanInstances config) as [[instances amiIDs]| |] eqn:Hscan; [|done..].
  destruct (getAMINames rangeKeys config amiIDs) as [amiNames| |] eqn:Hnames; [|done..].
  intros [= <-]. exists instances, amiIDs. split; [done|].
  unfold scanInstances in Hscan. apply foldM_pages, foldM_reservations in Hscan.
  apply scanInstance_extras in Hscan.
  apply Forall_fmap. eapply Forall_impl; [exact Hscan|]. intros r Hr. unfold compose.
  destruct (suggestInstanceName_keeps amiNames r) as (_ & _ & _ & ->).
  pose proof (suggestInstanceName_name amiNames r) as Hname.
  destruct (amiNames !! Extra r) as [amiName|] eqn:Hlookup.
  - left. rewrite Hname.
    by apply (getAMINames_provenance rangeKeys config amiIDs amiNames).
  - right. split; [done|]. intros batch output image Hbatch Houtput Himage Hid.
    destruct (Image.Name image) as [name|] eqn:Himagename; [|done].
    assert (size amiIDs ≠ 0) as Hsize.
    { intros Hempty%size_empty_inv. apply leibniz_equiv in Hempty. subst amiIDs.
      by apply elem_of_empty in Hr. }
    destruct (getAMINames_coverage rangeKeys config amiIDs amiNames batch output image
                (Extra r) name) as [? Hsome]; try done.
    congruence.
Qed.

Lemma instance_suggestions_come_from_lookup_witness :
  ∃ instances amiIDs,
    scanInstances providerOfUnnamedImage = Ok (instances, amiIDs)
    ∧ Forall (λ r,
                (∃ batch output image,
                   batch ∈ batches 200 (elements amiIDs)
                   ∧ ec2.DescribeImages (EC2Client providerOfUnnamedImage) batch = Ok output
                   ∧ image ∈ output
                   ∧ Image.ImageId image = Some (Extra r)
                   ∧ Image.Name image = Some (SuggestedName r))
                ∨ (SuggestedName r = "instance-" +:+ Extra r
                   ∧ ∀ batch output image,
                       batch ∈ batches 200 (elements amiIDs) →
                       ec2.DescribeImages (EC2Client providerOfUnnamedImage) batch
                       = Ok output →
                       image ∈ output → Image.ImageId image = Some (Extra r) →
                       Image.Name image = None))
             [ {| ID := "i-0123456789abcdef0"; Type_ := "instance"; Name := "";
                  SuggestedName := ""; State := "running";
                  Extra := "ami-0123456789abcdef0" |} ].
Proof.
  apply (instance_suggestions_come_from_lookup elements providerOfUnnamedImage).
  vm_compute. reflexivity.
Defined.

(** ** Where the suggested name of an attached network interface comes from *)

Lemma Forall2_left {A B : Type} (P : A → Prop) (R : A → B → Prop) l k :
  Forall P l → Forall2 R l k → Forall2 (λ x y, P x ∧ R x y) l k.
Proof.
  intros Hl HR. induction HR as [|x y l k Hxy HR IH]; [constructor|].
  apply Forall_cons in Hl as [Hx Hl]. constructor; [done|by apply IH].
Qed.

(** X10: the name suggested for a candidate network interface that is
    unattached, or attached to an instance, comes from the scan and from the
    lookup of the peers.  After a successful scan of the interfaces, a
    candidate without attachment is suggested [unattached-eni]; and a
    candidate attached to an instance is suggested the name of that instance
    followed by [-eni], where the name is the value of the [Name] tag of an
    instance with that id that the provider returned for a batch of the
    lookup, or the id itself when that instance has no [Name] tag; if the
    provider returned no instance with that id, in any batch, the suggestion
    is the id followed by [-eni]. *)
Theorem eni_suggestions_come_from_peers (rangeKeys : gset string → list string)
    (config : Config) (candidates : list ResourceInfo) :
  findUntaggedENIs rangeKeys config = Ok candidates →
  ∃ eniList attachmentIDs,
    scanENIs config = Ok (eniList, attachmentIDs)
    ∧ Forall2
        (λ eni r,
           (NetworkInterface.Attachment eni = None →
            SuggestedName r = "unattached-eni" ∧ Extra r = "unattached")
           ∧ ∀ attachment instanceId,
               NetworkInterface.Attachment eni = Some attachment →
               NetworkInterfaceAttachment.InstanceId attachment = Some instanceId →
               (∃ batch output reservation instance name,
                  batch ∈ batches 1000 (rangeKeys attachmentIDs)
                  ∧ ec2.DescribeInstances (EC2Client config) batch = Ok output
                  ∧ reservation ∈ output
                  ∧ instance ∈ Reservation.Instances reservation
                  ∧ Instance.InstanceId instance = Some instanceId
                  ∧ (findNameTag (Instance.Tags instance) = (true, name)
                     ∨ ((findNameTag (Instance.Tags instance)).1 = false
                        ∧ name = instanceId))
                  ∧ SuggestedName r = name +:+ "-eni"
                  ∧ Extra r = instanceId +:+ " (" +:+ name +:+ ")")
               ∨ (SuggestedName r = instanceId +:+ "-eni" ∧ Extra r = instanceId
                  ∧ ∀ batch output reservation instance,
                      batch ∈ batches 1000 (rangeKeys attachmentIDs) →
                      ec2.DescribeInstances (EC2Client config) batch = Ok output →
                      reservation ∈ output →
                      instance ∈ Reservation.Instances reservation →
                      Instance.InstanceId instance ≠ Some instanceId))
        (List.filter (λ eni,
                        needsTagging_spec "eni" (NetworkInterface.TagSet eni)
                          (NetworkInterface.Status eni) (getENIAttachmentInfo eni))
                     (pageItems (ec2.DescribeNetworkInterfacesPages (EC2Client config))))
        candidates.
Proof.
  unfold findUntaggedENIs.
  destruct (scanENIs config) as [[eniList attachmentIDs]| |] eqn:Hscan; [|done..].
  destruct (getAttachmentNames rangeKeys config attachmentIDs) as [names| |] eqn:Hnames;
    [|done..].
  intros [= <-]. exists eniList, attachmentIDs. split; [done|].
  unfold scanENIs in Hscan. apply foldM_pages in Hscan.
  destruct (foldM_candidates scanENI _ _ scanENI_step _ _ _ Hscan) as (rs & Hrs & Hall).
  cbn [fst app] in Hrs. subst rs.
  pose proof (foldM_references scanENI _ scanENI_references _ _ _ Hscan) as Hrefs.
  cbn [snd] in Hrefs.
  apply Forall2_fmap_r.
  eapply Forall2_impl.
  { apply (Forall2_left
             (λ eni, eni ∈ pageItems (ec2.DescribeNetworkInterfacesPages (EC2Client config))
                     ∧ eniNeedsTagging eni = true)); [|exact Hall].
    apply Forall_forall. intros eni [Hin Hneeds]%list_elem_of_In%filter_In.
    split; [by apply list_elem_of_In|]. by rewrite eniNeedsTagging_spec. }
  intros eni r [[Hin Hneeds] (_ & _ & _ & _ & Hextra)]. unfold compose. split.
  - intros Hnone. unfold suggestENIName, getENIAttachmentInfo in *.
    rewrite Hextra, Hnone. split; reflexivity.
  - intros attachment instanceId Hattachment Hinstance.
    assert (Extra r = "attached-to-" +:+ instanceId) as Hto.
    { rewrite Hextra. unfold getENIAttachmentInfo. by rewrite Hattachment, Hinstance. }
    assert (instanceId ∈ attachmentIDs) as Hid.
    { apply Hrefs. right. exists eni. split; [done|]. split; [done|].
      by exists attachment. }
    assert (size attachmentIDs ≠ 0) as Hsize.
    { intros Hempty%size_empty_inv. apply leibniz_equiv in Hempty. subst attachmentIDs.
      by apply elem_of_empty in Hid. }
    unfold suggestENIName. rewrite Hto, HasPrefix_app, TrimPrefix_app.
    destruct (names !! instanceId) as [name|] eqn:Hlookup.
    + left.
      destruct (getInstanceNames_provenance rangeKeys config attachmentIDs names
                  instanceId name Hnames Hlookup)
        as (batch & output & reservation & instance & ? & ? & ? & ? & ? & ?).
      by exists batch, output, reservation, instance, name.
    + right. split; [done|]. split; [done|].
      intros batch output reservation instance Hbatch Houtput Hreservation Hinstance' Hsome.
      destruct (getInstanceNames_coverage rangeKeys config attachmentIDs names batch output
                  reservation instance instanceId) as [? Hfound]; try done.
      congruence.
Qed.

Lemma eni_suggestions_come_from_peers_witness :
  findUntaggedENIs elements providerOfUnnamedPeer
  = Ok [ {| ID := "eni-0123456789abcdef0"; Type_ := "eni"; Name := "";
            SuggestedName := "i-0123456789abcdef0-eni"; State := "in-use";
            Extra := "i-0123456789abcdef0 (i-0123456789abcdef0)" |} ]
  ∧ ∃ eniList attachmentIDs,
      scanENIs providerOfUnnamedPeer = Ok (eniList, attachmentIDs).
Proof.
  assert (findUntaggedENIs elements providerOfUnnamedPeer
          = Ok [ {| ID := "eni-0123456789abcdef0"; Type_ := "eni"; Name := "";
                    SuggestedName := "i-0123456789abcdef0-eni"; State := "in-use";
                    Extra := "i-0123456789abcdef0 (i-0123456789abcdef0)" |} ]) as Hscan.
  { vm_compute. reflexivity. }
  split; [exact Hscan|].
  destruct (eni_suggestions_come_from_peers elements providerOfUnnamedPeer _ Hscan)
    as (eniList & attachmentIDs & Hlist & Hall).
  by exists eniList, attachmentIDs.
Defined.

(** ** Where the suggested name of a volume comes from *)

Lemma getInstanceNames_absent rangeKeys config instanceIDs instanceNames id
    batch output reservation instance :
  rangeKeys instanceIDs ≡ₚ elements instanceIDs →
  getInstanceNames rangeKeys config instanceIDs = Ok instanceNames →
  instanceNames !! id = None →
  batch ∈ batches 1000 (rangeKeys instanceIDs) →
  ec2.DescribeInstances (EC2Client config) batch = Ok output →
  reservation ∈ output → instance ∈ Reservation.Instances reservation →
  Instance.InstanceId instance ≠ Some id.
Proof.
  intros Hrange Hnames Hnone Hbatch Houtput Hreservation Hinstance Hid.
  destruct (decide (size instanceIDs = 0)) as [Hsize|Hsize].
  - apply size_empty_inv in Hsize. apply leibniz_equiv in Hsize. subst instanceIDs.
    rewrite elements_empty in Hrange. apply Permutation_nil_r in Hrange.
    rewrite Hrange in Hbatch. by apply elem_of_nil in Hbatch.
  - destruct (getInstanceNames_coverage rangeKeys config instanceIDs instanceNames batch
                output reservation instance id) as [? Hfound]; try done.
    congruence.
Qed.

(** X11: the name suggested for a candidate volume comes from a second
    question to the provider and from the lookup of the instances.  When the
    range over the ids visits each id once: after a successful scan of the
    volumes, a candidate for which [getVolumeInstanceID] finds no instance
    (the provider fails, returns no volume, or returns the volume without an
    attached instance) is suggested [unattached], whatever the scan saw of
    its attachments; one for which it finds an instance is suggested the id
    of the instance, its name in brackets and the extra information, where
    the name is the value of the [Name] tag of an instance with that id that
    the provider returned for a batch of the lookup, or the id itself when
    that instance has no [Name] tag; and if the provider returned no instance
    with that id, in any batch, the suggestion is the id and the extra
    information. *)
Theorem volume_suggestions_come_from_lookup (rangeKeys : gset string → list string)
    (config : Config) (candidates : list ResourceInfo) :
  (∀ ids, rangeKeys ids ≡ₚ elements ids) →
  findUntaggedVolumes rangeKeys config = Ok candidates →
  ∃ volumes instanceIDs,
    scanVolumes config = Ok (volumes, instanceIDs)
    ∧ Forall
        (λ r,
           (getVolumeInstanceID config (ID r) = "" ∧ SuggestedName r = "unattached")
           ∨ (getVolumeInstanceID config (ID r) ≠ ""
              ∧ ((∃ batch output reservation instance name,
                    batch ∈ batches 1000 (rangeKeys instanceIDs)
                    ∧ ec2.DescribeInstances (EC2Client config) batch = Ok output
                    ∧ reservation ∈ output
                    ∧ instance ∈ Reservation.Instances reservation
                    ∧ Instance.InstanceId instance
                      = Some (getVolumeInstanceID config (ID r))
                    ∧ (findNameTag (Instance.Tags instance) = (true, name)
                       ∨ ((findNameTag (Instance.Tags instance)).1 = false
                          ∧ name = getVolumeInstanceID config (ID r)))
                    ∧ SuggestedName r
                      = getVolumeInstanceID config (ID r) +:+ "(" +:+ name +:+ ") "
                        +:+ Extra r)
                 ∨ (SuggestedName r = getVolumeInstanceID config (ID r) +:+ " " +:+ Extra r
                    ∧ ∀ batch output reservation instance,
                        batch ∈ batches 1000 (rangeKeys instanceIDs) →
                        ec2.DescribeInstances (EC2Client config) batch = Ok output →
                        reservation ∈ output →
                        instance ∈ Reservation.Instances reservation →
                        Instance.InstanceId instance
                        ≠ Some (getVolumeInstanceID config (ID r))))))
        candidates.
Proof.
  intros Hrange. unfold findUntaggedVolumes.
  destruct (scanVolumes config) as [[volumes instanceIDs]| |] eqn:Hscan; [|done..].
  destruct (getInstanceNames rangeKeys config instanceIDs) as [names| |] eqn:Hnames;
    [|done..].
  intros [= <-]. exists volumes, instanceIDs. split; [done|].
  apply Forall_fmap, Forall_forall. intros r _. unfold compose.
  destruct (suggestVolumeName_keeps config names r) as (-> & _ & _ & ->).
  unfold suggestVolumeName.
  destruct (bool_decide (getVolumeInstanceID config (ID r) ≠ "")) eqn:Hattached.
  2:{ apply bool_decide_eq_false in Hattached. left. split; [|done].
      by destruct (decide (getVolumeInstanceID config (ID r) = "")). }
  apply bool_decide_eq_true in Hattached. right. split; [done|].
  destruct (names !! getVolumeInstanceID config (ID r)) as [name|] eqn:Hlookup.
  - left.
    destruct (getInstanceNames_provenance rangeKeys config instanceIDs names _ name
                Hnames Hlookup)
      as (batch & output & reservation & instance & ? & ? & ? & ? & ? & ?).
    by exists batch, output, reservation, instance, name.
  - right. split; [done|]. intros batch output reservation instance.
    by apply (getInstanceNames_absent rangeKeys config instanceIDs names).
Qed.

Lemma volume_suggestions_come_from_lookup_witness :
  findUntaggedVolumes elements providerOfStaleVolume
  = Ok [ {| ID := "vol-0123456789abcdef0"; Type_ := "volume"; Name := "unattached";
            SuggestedName := "i-0123456789abcdef0(i-0123456789abcdef0) /dev/xvda1";
            State := "in-use"; Extra := "/dev/xvda1" |} ]
  ∧ ∃ volumes instanceIDs, scanVolumes providerOfStaleVolume = Ok (volumes, instanceIDs).
Proof.
  assert (findUntaggedVolumes elements providerOfStaleVolume
          = Ok [ {| ID := "vol-0123456789abcdef0"; Type_ := "volume"; Name := "unattached";
                    SuggestedName := "i-0123456789abcdef0(i-0123456789abcdef0) /dev/xvda1";
                    State := "in-use"; Extra := "/dev/xvda1" |} ]) as Hscan.
  { vm_compute. reflexivity. }
  split; [exact Hscan|].
  destruct (volume_suggestions_come_from_lookup elements providerOfStaleVolume _
              (λ ids, reflexivity (elements ids)) Hscan)
    as (volumes & instanceIDs & Hlist & _).
  by exists volumes, instanceIDs.
Defined.

(** ** The listing *)

Lemma suggestVolumeName_type config instanceNames r :
  Type_ (suggestVolumeName config instanceNames r) = Type_ r.
Proof.
  unfold suggestVolumeName. destruct (bool_decide _); [|done].
  by destruct (instanceNames !! _).
Qed.

Lemma suggestENIName_type attachmentNames r :
  Type_ (suggestENIName attachmentNames r) = Type_ r.
Proof.
  unfold suggestENIName.
  destruct (strings.HasPrefix (Extra r) "attached-to-").
  { by destruct (attachmentNames !! _). }
  destruct (strings.HasPrefix (Extra r) "attached-"); [|done].
  destruct (strings.SplitN (Extra r) "-" 3) as [|? [|? [|? ?]]]; try done.
  by destruct (bool_decide _).
Qed.

Lemma findUntaggedInstances_type rangeKeys config candidates :
  findUntaggedInstances rangeKeys config = Ok candidates →
  Forall (λ r, Type_ r = "instance") candidates.
Proof.
  intros (instances & amiIDs & amiNames & Hscan & _ & ->)%findUntaggedInstances_Ok.
  destruct (foldM_candidates scanInstance instanceIsCandidate _ scanInstance_step
              _ _ _ Hscan) as (rs & Hrs & Hall).
  cbn [fst app] in Hrs. subst rs. apply Forall_fmap.
  eapply Forall2_Forall_r; [exact Hall|].
  apply Forall_forall. intros instance _ r (_ & Htype & _). unfold compose.
  by rewrite suggestInstanceName_type.
Qed.

Lemma findUntaggedVolumes_type rangeKeys config candidates :
  findUntaggedVolumes rangeKeys config = Ok candidates →
  Forall (λ r, Type_ r = "volume") candidates.
Proof.
  intros (volumes & ids & names & Hscan & _ & ->)%findUntaggedVolumes_Ok.
  destruct (foldM_candidates scanVolume _ _ scanVolume_step _ _ _ Hscan)
    as (rs & Hrs & Hall).
  cbn [fst app] in Hrs. subst rs. apply Forall_fmap.
  eapply Forall2_Forall_r; [exact Hall|].
  apply Forall_forall. intros volume _ r (_ & Htype & _). unfold compose.
  by rewrite suggestVolumeName_type.
Qed.

Lemma findUntaggedENIs_type rangeKeys config candidates :
  findUntaggedENIs rangeKeys config = Ok candidates →
  Forall (λ r, Type_ r = "eni") candidates.
Proof.
  intros (eniList & ids & names & Hscan & _ & ->)%findUntaggedENIs_Ok.
  destruct (foldM_candidates scanENI _ _ scanENI_step _ _ _ Hscan)
    as (rs & Hrs & Hall).
  cbn [fst app] in Hrs. subst rs. apply Forall_fmap.
  eapply Forall2_Forall_r; [exact Hall|].
  apply Forall_forall. intros eni _ r (_ & Htype & _). unfold compose.
  by rewrite suggestENIName_type.
Qed.

Lemma StronglySorted_lookup {A : Type} (R : relation A) (l : list A) i j x y :
  StronglySorted R l → i < j → l !! i = Some x → l !! j = Some y → R x y.
Proof.
  intros Hsorted. revert i j. induction Hsorted as [|a l _ IH Hall]; intros i j Hij Hi Hj.
  { by rewrite lookup_nil in Hi. }
  destruct j as [|j]; [lia|]. cbn in Hj. destruct i as [|i].
  - injection Hi as <-. rewrite Forall_forall in Hall. apply Hall.
    by eapply list_elem_of_lookup_2.
  - cbn in Hi. apply (IH i j); [lia|done..].
Qed.

Lemma ltb_irrefl s : String.ltb s s = false.
Proof.
  unfold String.ltb. pose proof (String.compare_antisym s s) as H.
  by destruct (String.compare s s).
Qed.

Lemma resourceLess_irrefl x : resourceLess x x = false.
Proof. unfold resourceLess. rewrite bool_decide_false by tauto. apply ltb_irrefl. Qed.

(** X12: the listing holds the candidates of the three scans, and shows them
    by type and then by id.  Whenever [sort.Slice] permutes the slice and
    leaves it sorted by the function it is given, a successful
    [findUntaggedResources] returns a permutation of the candidate instances,
    volumes and network interfaces; every resource in it is of one of these
    three types; the network interfaces come before the instances, and the
    instances before the volumes, though they are scanned in another order;
    and of two resources of the same type, the one with the smaller id comes
    first. *)
Theorem listing_is_sorted
    (sortSlice : (ResourceInfo → ResourceInfo → bool) → list ResourceInfo
                 → list ResourceInfo)
    (rangeKeys : gset string → list string) (config : Config)
    (resources : list ResourceInfo) :
  (∀ less l, sortSlice less l ≡ₚ l) →
  (∀ l, StronglySorted (λ x y, resourceLess y x = false) (sortSlice resourceLess l)) →
  findUntaggedResources sortSlice rangeKeys config = Ok resources →
  (∃ instances volumes enis,
     findUntaggedInstances rangeKeys config = Ok instances
     ∧ findUntaggedVolumes rangeKeys config = Ok volumes
     ∧ findUntaggedENIs rangeKeys config = Ok enis
     ∧ resources ≡ₚ instances ++ volumes ++ enis)
  ∧ Forall (λ r, Type_ r = "eni" ∨ Type_ r = "instance" ∨ Type_ r = "volume") resources
  ∧ (∀ i j x y,
       resources !! i = Some x → resources !! j = Some y →
       (Type_ x = "eni" ∧ Type_ y ≠ "eni")
       ∨ (Type_ x ≠ "volume" ∧ Type_ y = "volume")
       ∨ (Type_ x = Type_ y ∧ String.ltb (ID x) (ID y) = true) →
       i < j).
Proof.
  intros Hperm Hsorted. unfold findUntaggedResources.
  destruct (findUntaggedInstances rangeKeys config) as [instances| |] eqn:Hi; [|done..].
  destruct (findUntaggedVolumes rangeKeys config) as [volumes| |] eqn:Hv; [|done..].
  destruct (findUntaggedENIs rangeKeys config) as [enis| |] eqn:He; [|done..].
  intros [= <-]. cbn [app].
  assert (Forall (λ r, Type_ r = "eni" ∨ Type_ r = "instance" ∨ Type_ r = "volume")
                 (sortSlice resourceLess (instances ++ volumes ++ enis))) as Htypes.
  { rewrite Hperm. rewrite !Forall_app. split; [|split].
    - eapply Forall_impl; [by apply findUntaggedInstances_type in Hi|]. naive_solver.
    - eapply Forall_impl; [by apply findUntaggedVolumes_type in Hv|]. naive_solver.
    - eapply Forall_impl; [by apply findUntaggedENIs_type in He|]. naive_solver. }
  split; [by exists instances, volumes, enis|]. split; [done|].
  intros i j x y Hx Hy Hless.
  assert (resourceLess x y = true) as Hxy.
  { rewrite Forall_forall in Htypes.
    pose proof (Htypes x (list_elem_of_lookup_2 _ _ _ Hx)) as Htx.
    pose proof (Htypes y (list_elem_of_lookup_2 _ _ _ Hy)) as Hty.
    unfold resourceLess.
    destruct Hless as [[Hex Hey]|[[Hvx Hvy]|[Hsame Hid]]].
    - rewrite Hex in *. destruct Hty as [?|[-> | ->]]; [done|reflexivity..].
    - rewrite Hvy in *. destruct Htx as [-> |[-> |?]]; [reflexivity..|done].
    - rewrite bool_decide_false by (intros H; by apply H). done. }
  destruct (decide (i < j)) as [|Hji]; [done|]. exfalso.
  destruct (decide (i = j)) as [->|Hne].
  - rewrite Hx in Hy. injection Hy as <-. by rewrite resourceLess_irrefl in Hxy.
  - assert (resourceLess x y = false) as Hyx; [|congruence].
    apply (StronglySorted_lookup (λ x y, resourceLess y x = false) _ j i y x
             (Hsorted (instances ++ volumes ++ enis))); [lia|done..].
Qed.

Lemma ltb_leb a b : String.ltb a b = false ↔ String.le b a.
Proof.
  unfold String.ltb, String.le, String.leb. rewrite (String.compare_antisym a b).
  by destruct (String.compare b a).
Qed.

Lemma resourceLess_order x y :
  resourceLess y x = false
  ↔ (Type_ x ≠ Type_ y ∧ String.le (Type_ x) (Type_ y))
    ∨ (Type_ x = Type_ y ∧ String.le (ID x) (ID y)).
Proof.
  unfold resourceLess. case_bool_decide as Htype; rewrite ltb_leb.
  - split; [intros H; left; split; [congruence|done]|].
    intros [[_ ?]|[? _]]; [done|congruence].
  - split; [intros H; right; split; [by destruct (decide (Type_ x = Type_ y)); [|destruct Htype]|done]|].
    intros [[? _]|[_ ?]]; [|done]. destruct Htype. congruence.
Qed.

Lemma resourceLess_total : Total (λ x y, resourceLess y x = false).
Proof.
  intros x y. rewrite !resourceLess_order.
  destruct (decide (Type_ x = Type_ y)) as [Htype|Htype].
  - destruct (total String.le (ID x) (ID y)); [left|right]; right; by split.
  - destruct (total String.le (Type_ x) (Type_ y)); [left|right]; left; split;
      congruence.
Qed.

Lemma resourceLess_transitive : Transitive (λ x y, resourceLess y x = false).
Proof.
  intros x y z. rewrite !resourceLess_order.
  intros [[Hxy Hle]|[Hxy Hle]] [[Hyz Hle']|[Hyz Hle']].
  - destruct (decide (Type_ x = Type_ z)) as [Hxz|Hxz].
    + rewrite <-Hxz in Hle'. destruct Hxy. by apply (anti_symm String.le).
    + left. split; [done|]. by etrans.
  - left. rewrite <-Hyz. by split.
  - left. rewrite Hxy. by split.
  - right. split; [congruence|]. by etrans.
Qed.

Lemma listing_is_sorted_witness :
  findUntaggedResources mergeSortSlice elements providerOfInstanceAndInterface
  = Ok [ {| ID := "eni-0123456789abcdef0"; Type_ := "eni"; Name := "";
            SuggestedName := "unattached-eni"; State := "available";
            Extra := "unattached" |};
         {| ID := "i-0123456789abcdef0"; Type_ := "instance"; Name := "";
            SuggestedName := "instance-ami-0123456789abcdef0"; State := "running";
            Extra := "ami-0123456789abcdef0" |} ]
  ∧ ∀ i j x y,
      [ {| ID := "eni-0123456789abcdef0"; Type_ := "eni"; Name := "";
           SuggestedName := "unattached-eni"; State := "available";
           Extra := "unattached" |};
        {| ID := "i-0123456789abcdef0"; Type_ := "instance"; Name := "";
           SuggestedName := "instance-ami-0123456789abcdef0"; State := "running";
           Extra := "ami-0123456789abcdef0" |} ] !! i = Some x →
      [ {| ID := "eni-0123456789abcdef0"; Type_ := "eni"; Name := "";
           SuggestedName := "unattached-eni"; State := "available";
           Extra := "unattached" |};
        {| ID := "i-0123456789abcdef0"; Type_ := "instance"; Name := "";
           SuggestedName := "instance-ami-0123456789abcdef0"; State := "running";
           Extra := "ami-0123456789abcdef0" |} ] !! j = Some y →
      (Type_ x = "eni" ∧ Type_ y ≠ "eni")
      ∨ (Type_ x ≠ "volume" ∧ Type_ y = "volume")
      ∨ (Type_ x = Type_ y ∧ String.ltb (ID x) (ID y) = true) →
      i < j.
Proof.
  assert (findUntaggedResources mergeSortSlice elements providerOfInstanceAndInterface
          = Ok [ {| ID := "eni-0123456789abcdef0"; Type_ := "eni"; Name := "";
                    SuggestedName := "unattached-eni"; State := "available";
                    Extra := "unattached" |};
                 {| ID := "i-0123456789abcdef0"; Type_ := "instance"; Name := "";
                    SuggestedName := "instance-ami-0123456789abcdef0"; State := "running";
                    Extra := "ami-0123456789abcdef0" |} ]) as Hlisting.
  { vm_compute. reflexivity. }
  split; [exact Hlisting|].
  apply (listing_is_sorted mergeSortSlice elements providerOfInstanceAndInterface).
  - intros less l. apply merge_sort_Permutation.
  - intros l. apply StronglySorted_merge_sort.
    + exact resourceLess_transitive.
    + exact resourceLess_total.
  - exact Hlisting.
Defined.

(** ** The selection *)

Lemma selectPart_step resources w selected part :
  requests (selectPart resources (w, selected) part).1 = requests w
  ∧ tags (selectPart resources (w, selected) part).1 = tags w
  ∧ file (selectPart resources (w, selected) part).1 = file w
  ∧ writes (selectPart resources (w, selected) part).1 = writes w
  ∧ stdin (selectPart resources (w, selected) part).1 = stdin w
  ∧ ((∃ resource, resource ∈ resources
                  ∧ (selectPart resources (w, selected) part).2 = selected ++ [resource]
                  ∧ stdout (selectPart resources (w, selected) part).1 = stdout w)
     ∨ ((selectPart resources (w, selected) part).2 = selected
        ∧ ∃ msg, stdout (selectPart resources (w, selected) part).1
                 = stdout w ++ [Warning msg])).
Proof.
  unfold selectPart.
  destruct (strconv.Atoi (strings.TrimSpace part)) as [idx|].
  - destruct (bool_decide (1 ≤ idx)%Z && bool_decide (idx ≤ Z.of_nat (length resources))%Z)
      eqn:Hrange.
    + apply andb_true_iff in Hrange as [Hlo%bool_decide_eq_true Hhi%bool_decide_eq_true].
      destruct (lookup_lt_is_Some_2 resources (Z.to_nat (idx - 1))) as [resource Hr];
        [lia|].
      rewrite Hr. repeat split; try done. left. exists resource.
      split; [by eapply list_elem_of_lookup_2|done].
    + repeat split; try done. right. split; [done|]. by eexists.
  - repeat split; try done. right. split; [done|]. by eexists.
Qed.

Lemma selectPart_loop resources parts w selected :
  requests (foldl (selectPart resources) (w, selected) parts).1 = requests w
  ∧ tags (foldl (selectPart resources) (w, selected) parts).1 = tags w
  ∧ file (foldl (selectPart resources) (w, selected) parts).1 = file w
  ∧ writes (foldl (selectPart resources) (w, selected) parts).1 = writes w
  ∧ stdin (foldl (selectPart resources) (w, selected) parts).1 = stdin w
  ∧ ∃ chosen warnings,
      (foldl (selectPart resources) (w, selected) parts).2 = selected ++ chosen
      ∧ Forall (λ resource, resource ∈ resources) chosen
      ∧ stdout (foldl (selectPart resources) (w, selected) parts).1
        = stdout w ++ (Warning <$> warnings)
      ∧ length chosen + length warnings = length parts.
Proof.
  revert w selected. induction parts as [|part parts IH]; intros w selected.
  { repeat split; try done. exists [], []. by rewrite !app_nil_r. }
  cbn [foldl].
  destruct (selectPart_step resources w selected part) as (Hr & Ht & Hf & Hw & Hi & Hstep).
  destruct (selectPart resources (w, selected) part) as [w1 selected1].
  cbn [fst snd] in *.
  destruct (IH w1 selected1)
    as (Hr' & Ht' & Hf' & Hw' & Hi' & chosen & warnings & Hs & Hall & Hout & Hlen).
  rewrite Hr', Ht', Hf', Hw', Hi', Hs, Hout. repeat split; try done.
  destruct Hstep as [(resource & Hin & -> & ->)|(-> & msg & ->)].
  - exists (resource :: chosen), warnings. rewrite <-List.app_assoc.
    repeat split; [by constructor|simpl; lia].
  - exists chosen, (msg :: warnings). rewrite <-List.app_assoc.
    repeat split; [done|simpl; lia].
Qed.

Lemma selection_frame resources w :
  requests (selectResources resources w).1 = requests w
  ∧ match (selectResources resources w).2 with
    | inl _ => True
    | inr (selected, _) => Forall (λ resource, resource ∈ resources) selected
    end.
Proof.
  unfold selectResources.
  destruct (ReadString w) as [w0 [e|line]] eqn:Hread;
    destruct (ReadString_world w w0 _ Hread) as (_ & Hr0 & _); [done|].
  assert (Forall (λ resource, resource ∈ resources) resources) as Hall.
  { by apply Forall_forall. }
  destruct (bool_decide (strings.TrimSpace line = "")); [done|].
  destruct (bool_decide (strings.ToLower (strings.TrimSpace line) = "all")); [done|].
  destruct (selectPart_loop resources (strings.Split (strings.TrimSpace line) ",") w0 [])
    as (Hr & _ & _ & _ & _ & chosen & warnings & Hs & Hchosen & _).
  destruct (foldl _ _ _) as [w1 selected]. cbn [fst snd app] in *. subst selected.
  split; [|done]. rewrite <-Hr0, <-Hr. by destruct (bool_decide (length chosen = 0)).
Qed.

(** A no-break space at the front of a line is white space, which
    [strings.TrimSpace] drops. *)
Lemma TrimSpace_noBreakSpace s :
  strings.TrimSpace (noBreakSpace +:+ s) = strings.TrimSpace s.
Proof. reflexivity. Qed.

(** X13: whatever the operator types, [selectResources] selects listed
    resources only, and sends no request.  It reads once, with a reader of
    its own; without a line to read it ends the program with the error of
    the read.  A blank line selects the whole list, each tag to be confirmed;
    [all], in any case of the letters, selects the whole list, to be applied
    without confirmation.  Of any other line, every comma-separated part
    either selects one listed resource or is reported with one warning and
    skipped, and each tag is to be confirmed.  The white space around the
    line is Unicode's: a no-break space before it changes nothing. *)
Theorem selection_is_of_the_list (resources : list ResourceInfo) (w : World) :
  requests (selectResources resources w).1 = requests w
  ∧ tags (selectResources resources w).1 = tags w
  ∧ file (selectResources resources w).1 = file w
  ∧ stdin (selectResources resources w).1 = (bufio.ReadString (stdin w)).2
  ∧ match (bufio.ReadString (stdin w)).1 with
    | inl e =>
        selectResources resources w = (setStdin w (bufio.ReadString (stdin w)).2, inl e)
    | inr line =>
        ∃ selected autoApply,
          (selectResources resources w).2 = inr (selected, autoApply)
          ∧ Forall (λ resource, resource ∈ resources) selected
          ∧ (autoApply = true ↔ strings.ToLower (strings.TrimSpace line) = "all")
          ∧ (strings.TrimSpace line = "" ∨ strings.ToLower (strings.TrimSpace line) = "all" →
             selected = resources)
          ∧ (strings.TrimSpace line ≠ "" → strings.ToLower (strings.TrimSpace line) ≠ "all" →
             ∃ warnings,
               length selected + length warnings
               = length (strings.Split (strings.TrimSpace line) ",")
               ∧ stdout (selectResources resources w).1
                 = stdout w ++ (Warning <$> warnings)
                   ++ (if bool_decide (length selected = 0)
                       then [Info "No valid selections made."] else []))
          ∧ strings.TrimSpace (noBreakSpace +:+ line) = strings.TrimSpace line
    end.
Proof.
  unfold selectResources.
  destruct (ReadString_frame w) as [Hw0 Hanswer].
  destruct (ReadString w) as [w0 answer]. cbn [fst snd] in Hw0, Hanswer.
  rewrite <-Hanswer. subst w0. destruct answer as [e|line]; [done|].
  set (w0 := setStdin w (bufio.ReadString (stdin w)).2).
  assert (Forall (λ resource, resource ∈ resources) resources) as Hall.
  { by apply Forall_forall. }
  destruct (bool_decide (strings.TrimSpace line = "")) eqn:Hblank.
  { apply bool_decide_eq_true in Hblank. cbn [fst snd].
    split; [done|]. split; [done|]. split; [done|]. split; [done|].
    exists resources, false. split; [done|]. split; [done|].
    split; [by rewrite Hblank|]. by repeat split. }
  apply bool_decide_eq_false in Hblank.
  destruct (bool_decide (strings.ToLower (strings.TrimSpace line) = "all")) eqn:Hall'.
  { apply bool_decide_eq_true in Hall'. cbn [fst snd].
    split; [done|]. split; [done|]. split; [done|]. split; [done|].
    exists resources, true. by repeat split. }
  apply bool_decide_eq_false in Hall'.
  destruct (selectPart_loop resources (strings.Split (strings.TrimSpace line) ",") w0 [])
    as (Hr & Ht & Hf & _ & Hi & chosen & warnings & Hs & Hchosen & Hout & Hlen).
  destruct (foldl _ _ _) as [w1 selected]. cbn [fst snd app] in *. subst selected.
  split; [by destruct (bool_decide (length chosen = 0))|].
  split; [by destruct (bool_decide (length chosen = 0))|].
  split; [by destruct (bool_decide (length chosen = 0))|].
  split; [by destruct (bool_decide (length chosen = 0))|].
  exists chosen, false. split; [done|]. split; [done|].
  split; [split; [done|by intros ?]|]. split; [by intros [?|?]|].
  split; [|reflexivity].
  intros _ _. exists warnings. split; [done|].
  destruct (bool_decide (length chosen = 0)); cbn [stdout print]; rewrite Hout.
  - by rewrite <-List.app_assoc.
  - by rewrite app_nil_r.
Qed.

(** ** An answer before each tag *)

Lemma applyTags_loop_prompts env config resources accountID runID n w w' err :
  applyTags_loop env config resources accountID runID false n w = (w', err) →
  ∃ k, k ≤ length resources ∧ answered k (stdin w) = true
       ∧ (err = None → k = length resources)
       ∧ requests w' = requests w ++ ((λ x, (ID x, SuggestedName x)) <$> take k resources)
       ∧ (stdin w' = afterAnswers k (stdin w)
          ∨ k < length resources ∧ stdin w' = afterAnswers (S k) (stdin w)
            ∧ ∃ e, (bufio.ReadString (afterAnswers k (stdin w))).1 = inl e
                   ∧ err = Some ("failed to read user input: " +:+ e)).
Proof.
  revert n w. induction resources as [|x resources IH]; intros n w.
  { intros [= <- <-]. exists 0.
    split; [done|]. split; [done|]. split; [done|]. split; [|by left].
    cbn [take fmap list_fmap]. by rewrite app_nil_r. }
  cbn [applyTags_loop negb].
  destruct (ReadString_frame w) as [Hw0 Hanswer].
  destruct (ReadString w) as [w0 answer]. cbn [fst snd] in Hw0, Hanswer. subst w0.
  destruct answer as [e|line].
  { intros [= <- <-]. exists 0.
    split; [simpl; lia|]. split; [done|]. split; [done|]. split.
    - cbn [take fmap list_fmap requests setStdin]. by rewrite app_nil_r.
    - right. split; [simpl; lia|]. split; [done|]. by exists e. }
  set (w0 := setStdin w (bufio.ReadString (stdin w)).2).
  destruct (ec2.CreateTags (EC2Client config) (ID x) (SuggestedName x)) as [e|] eqn:Hx.
  { rewrite (applyTag_failed env config accountID runID x _ e Hx).
    intros [= <- <-]. exists 1. cbn [stdin requests print addRequest setStdin w0].
    split; [simpl; lia|]. split; [by cbn [answered]; rewrite <-Hanswer|]. split; [done|].
    split; [by destruct resources|by left]. }
  destruct (applyTag_written env config accountID runID x w0 Hx) as (He & _ & Hr & Hi).
  destruct (applyTag env config x accountID runID w0) as [w1 err1].
  cbn [fst snd] in *. subst err1. intros Hrun.
  destruct (IH (S n) w1 Hrun) as (k & Hk & Hlines & Hdone & Hrequests & Hstdin').
  rewrite Hi in Hlines, Hstdin'. cbn [stdin setStdin w0] in Hlines, Hstdin'.
  exists (S k). split; [simpl; lia|]. split; [by cbn [answered]; rewrite <-Hanswer|].
  split; [intros H; simpl; by rewrite Hdone|]. split.
  - rewrite Hrequests, Hr, <-List.app_assoc. reflexivity.
  - destruct Hstdin' as [Hleft|(Hlt & Hleft & Herr)]; [by left|].
    right. split; [simpl; lia|]. by split.
Qed.

Lemma applyTags_loop_auto env config resources accountID runID n w :
  stdin (applyTags_loop env config resources accountID runID true n w).1 = stdin w.
Proof.
  revert n w. induction resources as [|x resources IH]; intros n w; [done|].
  cbn [applyTags_loop negb].
  destruct (ec2.CreateTags (EC2Client config) (ID x) (SuggestedName x)) as [e|] eqn:Hx.
  { by rewrite (applyTag_failed env config accountID runID x _ e Hx). }
  destruct (applyTag_written env config accountID runID x w Hx) as (He & _ & _ & Hi).
  destruct (applyTag env config x accountID runID w) as [w1 err1].
  cbn [fst snd] in *. subst err1. by rewrite IH.
Qed.

Lemma length_drop_string n s :
  String.length (strings.drop n s) = String.length s - n.
Proof.
  revert s. induction n as [|n IH]; intros s; [simpl; lia|].
  destruct s as [|c s]; [done|]. apply IH.
Qed.

(** A read of at least one byte that brings data leaves less input. *)
Lemma Read_less n input data input' :
  0 < n → os.Read n input = (Some data, input') → os.reads input' < os.reads input.
Proof.
  intros Hn. unfold os.Read. destruct input as [|chunk rest]; [done|].
  case_bool_decide; [done|]. unfold os.reads. case_bool_decide; intros [= <- <-].
  - rewrite fmap_cons. simpl. lia.
  - rewrite !fmap_cons. cbn [sum_list sum_list_with]. rewrite length_drop_string.
    unfold id. lia.
Qed.

Lemma ReadString_loop_step fuel line buffered input :
  bufio.ReadString_loop (S fuel) line buffered input
  = let buffered := if bool_decide (bufio.defaultBufSize ≤ buffered) then 0 else buffered in
    match os.Read (bufio.defaultBufSize - buffered) input with
    | (None, input) => (inl "EOF", input)
    | (Some data, input) =>
        match strings.Cut data (String "010" "") with
        | Some (before, _) => (inr (line +:+ before +:+ String "010" ""), input)
        | None =>
            bufio.ReadString_loop fuel (line +:+ data) (buffered + String.length data) input
        end
    end.
Proof. reflexivity. Qed.

(** The loop of a reader ends by itself: with more rounds than the input can
    serve reads, it does not depend on their number. *)
Lemma ReadString_loop_fuel fuel fuel' line buffered input :
  os.reads input < fuel → os.reads input < fuel' →
  bufio.ReadString_loop fuel line buffered input
  = bufio.ReadString_loop fuel' line buffered input.
Proof.
  revert fuel' line buffered input.
  induction fuel as [|fuel IH]; intros fuel' line buffered input Hfuel Hfuel'; [lia|].
  destruct fuel' as [|fuel']; [lia|]. rewrite !ReadString_loop_step. cbv zeta.
  set (b := if bool_decide (bufio.defaultBufSize ≤ buffered) then 0 else buffered).
  assert (0 < bufio.defaultBufSize - b) as Hroom.
  { unfold b, bufio.defaultBufSize. case_bool_decide; lia. }
  destruct (os.Read (bufio.defaultBufSize - b) input) as [[data|] input'] eqn:Hread; [|done].
  apply (Read_less _ _ _ _ Hroom) in Hread.
  destruct (strings.Cut data (String "010" "")) as [[before after]|]; [done|].
  apply IH; lia.
Qed.

(** A line that arrives in one chunk with more input behind it: the reader
    returns the line, and what the chunk holds behind it is lost. *)
Lemma ReadString_chunk line more rest :
  ¬ substringOf (String "010" "") line →
  String.length (line +:+ String "010" more) ≤ bufio.defaultBufSize →
  bufio.ReadString ((line +:+ String "010" more) :: rest)
  = (inr (line +:+ String "010" ""), rest).
Proof.
  intros Hline Hfits. unfold bufio.ReadString. rewrite ReadString_loop_step. cbv zeta.
  rewrite bool_decide_eq_false_2 by (unfold bufio.defaultBufSize; lia).
  rewrite Nat.sub_0_r. unfold os.Read.
  rewrite bool_decide_eq_false_2 by (by destruct line).
  rewrite (bool_decide_eq_true_2 _ Hfits).
  by rewrite (Cut_byte _ _ _ Hline).
Qed.

(** X14: without auto-apply, no tag request is sent that the operator did not
    release: [applyTags] reads an answer before each request, each with a
    reader of its own, so that the [k] requests it sends, for the first [k]
    resources, follow [k] reads that found a line, and the input that is left
    is what these reads leave, or one more read that found no line; it
    returns no error only if it asked for every resource.  What a reader has
    read beyond its line is lost: of a chunk of input with more than one
    line, a run reads the first line only, and fails at the next prompt when
    nothing else arrives.  A read ends by itself.  With auto-apply nothing is
    read. *)
Theorem applyTags_asks_before_each_tag (env : Env) (config : Config)
    (resources : list ResourceInfo) (accountID runID : string) (w : World) :
  (∃ k, k ≤ length resources ∧ answered k (stdin w) = true
        ∧ ((applyTags env config resources accountID runID false w).2 = None →
           k = length resources)
        ∧ requests (applyTags env config resources accountID runID false w).1
          = requests w ++ ((λ x, (ID x, SuggestedName x)) <$> take k resources)
        ∧ (stdin (applyTags env config resources accountID runID false w).1
           = afterAnswers k (stdin w)
           ∨ k < length resources
             ∧ stdin (applyTags env config resources accountID runID false w).1
               = afterAnswers (S k) (stdin w)
             ∧ ∃ e, (bufio.ReadString (afterAnswers k (stdin w))).1 = inl e
                    ∧ (applyTags env config resources accountID runID false w).2
                      = Some ("failed to read user input: " +:+ e)))
  ∧ (answered (length resources) (stdin w) = false →
     (applyTags env config resources accountID runID false w).2 ≠ None)
  ∧ stdin (applyTags env config resources accountID runID true w).1 = stdin w
  ∧ (∀ line more rest,
       stdin w = (line +:+ String "010" more) :: rest →
       ¬ substringOf (String "010" "") line →
       String.length (line +:+ String "010" more) ≤ bufio.defaultBufSize →
       bufio.ReadString (stdin w) = (inr (line +:+ String "010" ""), rest)
       ∧ ∀ x y others,
           resources = x :: y :: others → rest = [] →
           ec2.CreateTags (EC2Client config) (ID x) (SuggestedName x) = None →
           (applyTags env config resources accountID runID false w).2
           = Some "failed to read user input: EOF"
           ∧ requests (applyTags env config resources accountID runID false w).1
             = requests w ++ [(ID x, SuggestedName x)])
  ∧ (∀ fuel, os.reads (stdin w) < fuel →
             bufio.ReadString_loop fuel "" 0 (stdin w) = bufio.ReadString (stdin w)).
Proof.
  unfold applyTags.
  destruct (applyTags_loop env config resources accountID runID false 0 w)
    as [w' err] eqn:Hrun.
  destruct (applyTags_loop_prompts _ _ _ _ _ _ _ _ _ Hrun)
    as (k & Hk & Hlines & Hdone & Hrequests & Hstdin).
  split; [by exists k|]. split; [|split; [apply applyTags_loop_auto|split]].
  - cbn [snd]. intros Hshort Herr. rewrite <-(Hdone Herr) in Hshort. congruence.
  - intros line more rest Hchunk Hline Hfits.
    assert (bufio.ReadString (stdin w) = (inr (line +:+ String "010" ""), rest)) as Hread.
    { rewrite Hchunk. by apply ReadString_chunk. }
    split; [exact Hread|].
    intros x y others -> -> Hx. revert Hrun. cbn [applyTags_loop negb].
    destruct (ReadString_frame w) as [Hw0 Hanswer]. rewrite Hread in Hw0, Hanswer.
    destruct (ReadString w) as [w0 answer]. cbn [fst snd] in Hw0, Hanswer. subst w0 answer.
    destruct (applyTag_written env config accountID runID x (setStdin w []) Hx)
      as (He & _ & Hr & Hi).
    destruct (applyTag env config x accountID runID (setStdin w [])) as [w1 err1].
    cbn [fst snd] in *. subst err1.
    destruct (ReadString_frame w1) as [Hw2 Hanswer2]. rewrite Hi in Hw2, Hanswer2.
    destruct (ReadString w1) as [w2 answer2]. cbn [fst snd] in Hw2, Hanswer2.
    subst w2 answer2. cbn [fst snd bufio.ReadString].
    intros [= <- <-]. split; [reflexivity|]. exact Hr.
  - intros fuel Hfuel. unfold bufio.ReadString. apply ReadString_loop_fuel; lia.
Qed.

(** ** The history file *)

Lemma loadHistory_file env w w' : file w' = file w → loadHistory env w' = loadHistory env w.
Proof. intros H. unfold loadHistory. by rewrite H. Qed.

Lemma saveHistory_saved env history w w' :
  saveHistory env history w = (w', None) →
  UserHomeDir env ≠ None ∧ MkdirAllErr env = None
  ∧ w' = countWrite (setFile w (Stored history)).
Proof.
  unfold saveHistory. destruct (UserHomeDir env); [|done].
  destruct (MkdirAllErr env); [done|].
  destruct (WriteFileErr env history); [done|]. by intros [= <-].
Qed.

Lemma saveHistory_failed env history w w' e :
  saveHistory env history w = (w', Some e) →
  file w' = file w ∧ tags w' = tags w ∧ requests w' = requests w.
Proof.
  unfold saveHistory. destruct (UserHomeDir env); [|by intros [= <- _]].
  destruct (MkdirAllErr env); [by intros [= <- _]|].
  destruct (WriteFileErr env history); [|done]. by intros [= <- _].
Qed.

Lemma loadHistory_saved env history w :
  UserHomeDir env ≠ None →
  loadHistory env (countWrite (setFile w (Stored history))) = inr history.
Proof. intros Hhome. unfold loadHistory. by destruct (UserHomeDir env). Qed.

(** ** The history of a run *)

Section Logged.

Variable env : Env.
Variable config : Config.
Variables accountID runID : string.

Hypothesis write : ∀ history, WriteFileErr env history = None.

Lemma addToHistory_logged resource w history :
  loadHistory env w = inr history →
  loadHistory env (addToHistory env accountID (ID resource) (Name resource)
                                (SuggestedName resource) runID w).1
  = inr {| Actions :=
             Actions history
             ++ match UserHomeDir env, MkdirAllErr env with
                | Some _, None => [recordedEntry (Now env (clock w)) accountID runID resource]
                | _, _ => []
                end |}
  ∧ clock (addToHistory env accountID (ID resource) (Name resource)
                        (SuggestedName resource) runID w).1 = S (clock w).
Proof.
  intros Hload. unfold addToHistory. rewrite Hload. unfold saveHistory.
  rewrite write.
  destruct (UserHomeDir env) eqn:Hhome; [destruct (MkdirAllErr env) eqn:Hmkdir|];
    cbn [fst]; rewrite ?app_nil_r; (split; [|done]).
  - rewrite (loadHistory_file env w (tick w)) by done. rewrite Hload. by destruct history.
  - apply loadHistory_saved. by rewrite Hhome.
  - rewrite (loadHistory_file env w (tick w)) by done. rewrite Hload. by destruct history.
Qed.

Lemma applyTag_logged resource w history :
  loadHistory env w = inr history →
  ec2.CreateTags (EC2Client config) (ID resource) (SuggestedName resource) = None →
  loadHistory env (applyTag env config resource accountID runID w).1
  = inr {| Actions :=
             Actions history
             ++ match UserHomeDir env, MkdirAllErr env with
                | Some _, None => [recordedEntry (Now env (clock w)) accountID runID resource]
                | _, _ => []
                end |}
  ∧ clock (applyTag env config resource accountID runID w).1 = S (clock w).
Proof.
  intros Hload Hok. unfold applyTag, createNameTag. rewrite Hok.
  match goal with |- context [addToHistory env ?a ?r ?o ?n ?i ?w0] =>
    destruct (addToHistory_logged resource w0 history) as [Hlogged Hclock]; [done|];
    destruct (addToHistory env a r o n i w0) as [w1 [e|]] end;
    cbn [fst clock setTags addRequest print] in *; (split; [|exact Hclock]);
    rewrite <-Hlogged; by apply loadHistory_file.
Qed.

Lemma applyTags_loop_logged resources autoApply n w history w' err :
  loadHistory env w = inr history →
  applyTags_loop env config resources accountID runID autoApply n w = (w', err) →
  ∃ k, k ≤ length resources
       ∧ (err = None → k = length resources)
       ∧ Forall (λ x, ec2.CreateTags (EC2Client config) (ID x) (SuggestedName x) = None)
                (take k resources)
       ∧ tags w' = appliedTags (take k resources) (tags w)
       ∧ loadHistory env w'
         = inr {| Actions :=
                    Actions history
                    ++ match UserHomeDir env, MkdirAllErr env with
                       | Some _, None =>
                           recordedEntries env accountID runID (clock w) (take k resources)
                       | _, _ => []
                       end |}.
Proof.
  revert n w history. induction resources as [|x resources IH]; intros n w history Hload.
  { intros [= <- <-]. exists 0. split; [done|]. split; [done|]. split; [constructor|].
    split; [done|]. cbn [take]. rewrite Hload. destruct history.
    by destruct (UserHomeDir env), (MkdirAllErr env); cbn; rewrite app_nil_r. }
  assert (∀ e, tags w' = tags w → file w' = file w → err = Some e →
     ∃ k, k ≤ length (x :: resources)
       ∧ (err = None → k = length (x :: resources))
       ∧ Forall (λ x, ec2.CreateTags (EC2Client config) (ID x) (SuggestedName x) = None)
                (take k (x :: resources))
       ∧ tags w' = appliedTags (take k (x :: resources)) (tags w)
       ∧ loadHistory env w'
         = inr {| Actions :=
                    Actions history
                    ++ match UserHomeDir env, MkdirAllErr env with
                       | Some _, None =>
                           recordedEntries env accountID runID (clock w)
                             (take k (x :: resources))
                       | _, _ => []
                       end |}) as Hstopped.
  { intros e Ht Hf ->. exists 0. split; [simpl; lia|]. split; [done|].
    split; [constructor|].
    split; [done|]. rewrite (loadHistory_file env w w') by done. rewrite Hload.
    destruct history.
    by destruct (UserHomeDir env), (MkdirAllErr env); cbn; rewrite app_nil_r. }
  cbn [applyTags_loop].
  assert (∃ w0 prompt,
            (if negb autoApply
             then match ReadString w with
                  | (w, inr _) => (w, None)
                  | (w, inl e) => (w, Some ("failed to read user input: " +:+ e))
                  end
             else (w, None)) = (w0, prompt)
            ∧ tags w0 = tags w ∧ file w0 = file w ∧ clock w0 = clock w)
    as (w0 & prompt & -> & Ht0 & Hf0 & Hc0).
  { destruct autoApply; [by exists w, None|].
    destruct (ReadString w) as [w0 answer] eqn:Hread.
    destruct (ReadString_world w w0 _ Hread) as (? & _ & ? & _ & ? & _).
    destruct answer; by eexists _, _. }
  destruct prompt as [e|]; [intros [= <- <-]; by eapply Hstopped|].
  destruct (ec2.CreateTags (EC2Client config) (ID x) (SuggestedName x)) as [e|] eqn:Hx.
  { rewrite (applyTag_failed env config accountID runID x w0 e Hx).
    intros [= <- <-]. by eapply Hstopped. }
  destruct (applyTag_written env config accountID runID x w0 Hx) as (He & Ht & _).
  destruct (applyTag_logged x w0 history) as [Hlogged Hclock]; [|done|].
  { by rewrite (loadHistory_file env w w0). }
  rewrite Hc0 in Hlogged, Hclock.
  destruct (applyTag env config x accountID runID w0) as [w1 err1].
  cbn [fst snd] in *. subst err1. intros Hrun.
  destruct (IH (S n) w1 _ Hlogged Hrun) as (k & Hk & Hdone & Hall & Htags & Hhistory).
  exists (S k). split; [simpl; lia|]. split; [intros H; simpl; by rewrite Hdone|].
  split; [by constructor|]. split.
  - rewrite Htags, Ht, Ht0. reflexivity.
  - rewrite Hhistory, Hclock. cbn [Actions take recordedEntries]. f_equal. f_equal.
    rewrite <-List.app_assoc. f_equal.
    by destruct (UserHomeDir env), (MkdirAllErr env).
Qed.

End Logged.

(** X16: the history and the tags after a run of [applyTags] agree, however
    the run ends.  On a machine whose file system writes what it is asked to,
    and from a history that can be loaded: the run set the tags of the first
    [k] resources, all accepted by the provider, and of no other, where [k]
    is the number of all resources if the run returns no error; and the
    history loaded afterwards is the one before followed, in order, by the
    entries of exactly those resources, each with the time that the clock
    showed when it was logged, if the history can be stored, and is the one
    before otherwise.  No earlier entry is changed or lost. *)
Theorem applyTags_logs_what_it_tagged (env : Env) (config : Config)
    (resources : list ResourceInfo) (accountID runID : string) (autoApply : bool)
    (w : World) (history : TagHistory) :
  (∀ history, WriteFileErr env history = None) →
  loadHistory env w = inr history →
  ∃ k, k ≤ length resources
       ∧ ((applyTags env config resources accountID runID autoApply w).2 = None →
          k = length resources)
       ∧ Forall (λ x, ec2.CreateTags (EC2Client config) (ID x) (SuggestedName x) = None)
                (take k resources)
       ∧ tags (applyTags env config resources accountID runID autoApply w).1
         = appliedTags (take k resources) (tags w)
       ∧ loadHistory env (applyTags env config resources accountID runID autoApply w).1
         = inr {| Actions :=
                    Actions history
                    ++ match UserHomeDir env, MkdirAllErr env with
                       | Some _, None =>
                           recordedEntries env accountID runID (clock w) (take k resources)
                       | _, _ => []
                       end |}
       ∧ Forall2 (λ x a, Account a = accountID ∧ Resource a = ID x
                         ∧ OldValue a = Name x ∧ NewValue a = SuggestedName x
                         ∧ RunID a = runID ∧ Undone a = false)
                 (take k resources)
                 (recordedEntries env accountID runID (clock w) (take k resources)).
Proof.
  intros Hwrite Hload. unfold applyTags.
  destruct (applyTags_loop env config resources accountID runID autoApply 0 w)
    as [w' err] eqn:Hrun.
  destruct (applyTags_loop_logged env config accountID runID Hwrite resources autoApply
              0 w history w' err Hload Hrun) as (k & Hk & Hdone & Hok & Htags & Hhistory).
  exists k. split; [exact Hk|]. split; [exact Hdone|]. split; [exact Hok|].
  split; [exact Htags|]. split; [exact Hhistory|].
  eapply Forall2_impl; [apply recordedEntries_entries|].
  intros x a [timestamp ->]. by repeat split.
Qed.

Lemma applyTags_logs_what_it_tagged_witness :
  ∃ k, k ≤ length [resourceXY]
       ∧ ((applyTags soundEnv acceptingProvider [resourceXY] "123456789012"
                     "run-0011223344556677" true freshWorld).2 = None →
          k = length [resourceXY])
       ∧ Forall (λ x, ec2.CreateTags (EC2Client acceptingProvider) (ID x) (SuggestedName x)
                      = None)
                (take k [resourceXY])
       ∧ tags (applyTags soundEnv acceptingProvider [resourceXY] "123456789012"
                         "run-0011223344556677" true freshWorld).1
         = appliedTags (take k [resourceXY]) (tags freshWorld)
       ∧ loadHistory soundEnv
           (applyTags soundEnv acceptingProvider [resourceXY] "123456789012"
                      "run-0011223344556677" true freshWorld).1
         = inr {| Actions :=
                    [] ++ recordedEntries soundEnv "123456789012" "run-0011223344556677"
                            0 (take k [resourceXY]) |}
       ∧ Forall2 (λ x a, Account a = "123456789012" ∧ Resource a = ID x
                         ∧ OldValue a = Name x ∧ NewValue a = SuggestedName x
                         ∧ RunID a = "run-0011223344556677" ∧ Undone a = false)
                 (take k [resourceXY])
                 (recordedEntries soundEnv "123456789012" "run-0011223344556677"
                    0 (take k [resourceXY])).
Proof.
  apply (applyTags_logs_what_it_tagged soundEnv acceptingProvider [resourceXY]
           "123456789012" "run-0011223344556677" true freshWorld {| Actions := [] |});
    reflexivity.
Defined.

(** ** What an undo can do *)

(** How [undoLastRun] ends: before it reads the answer, on the error of the
    read or of loading the configuration, on an answer that does not
    confirm, or after the reverts *)
Lemma undoLastRun_cases env client w :
  (∃ e, undoLastRun env client w = (w, Some e))
  ∨ (∃ w1 answer e,
       ReadString w = (w1, answer) ∧ undoLastRun env client w = (w1, Some e))
  ∨ (∃ w1 response,
       ReadString w = (w1, inr response) ∧ ¬ confirms response
       ∧ undoLastRun env client w = (print w1 UndoCancelled, None))
  ∨ (∃ history w1 response,
       loadHistory env w = inr history
       ∧ ReadString w = (w1, inr response) ∧ confirms response
       ∧ LoadDefaultConfigErr env = None
       ∧ undoLastRun env client w
         = let lastRunID := findLastRunID (Actions history) in
           let actionsToUndo := collectActionsToUndo lastRunID (Actions history) in
           let '(w1, (successCount, notFoundCount, errorCount)) :=
             revertActions client actionsToUndo (0, 0, 0) w1 in
           match saveHistory env {| Actions := markUndone lastRunID (Actions history) |} w1
           with
           | (w2, Some e) => (w2, Some ("failed to save updated history: " +:+ e))
           | (w2, None) =>
               (print (print w2 (UndoSummary successCount notFoundCount errorCount))
                      (MarkedUndone (length actionsToUndo) lastRunID), None)
           end).
Proof.
  unfold undoLastRun.
  destruct (loadHistory env w) as [e|history] eqn:Hload; [left; by eexists|].
  destruct (bool_decide (length (Actions history) = 0)); [left; by eexists|].
  destruct (bool_decide (findLastRunID (Actions history) = "")); [left; by eexists|].
  destruct (bool_decide (length (collectActionsToUndo _ _) = 0)); [left; by eexists|].
  destruct (ReadString w) as [w1 [e|response]] eqn:Hread.
  { right. left. by eexists _, _, _. }
  destruct (bool_decide (strings.TrimSpace (strings.ToLower response) ≠ "y")
            && bool_decide (strings.TrimSpace (strings.ToLower response) ≠ "yes"))
    eqn:Hanswer.
  { right. right. left. exists w1, response. split; [done|]. split; [|done].
    apply andb_true_iff in Hanswer as [Hy%bool_decide_eq_true Hyes%bool_decide_eq_true].
    by intros [?|?]. }
  assert (confirms response) as Hconfirms.
  { apply andb_false_iff in Hanswer as [H%bool_decide_eq_false|H%bool_decide_eq_false].
    - left. by destruct (decide (strings.TrimSpace (strings.ToLower response) = "y")).
    - right. by destruct (decide (strings.TrimSpace (strings.ToLower response) = "yes")). }
  destruct (LoadDefaultConfigErr env) as [e|] eqn:Hconfig.
  { right. left. by eexists _, _, ("failed to load AWS config: " +:+ e). }
  right. right. right. by exists history, w1, response.
Qed.

Lemma markUndone_marks lastRunID actions :
  Forall2 (λ a a', Account a' = Account a ∧ Resource a' = Resource a
                   ∧ OldValue a' = OldValue a ∧ NewValue a' = NewValue a
                   ∧ Timestamp a' = Timestamp a ∧ RunID a' = RunID a
                   ∧ (Undone a = true → Undone a' = true)
                   ∧ (Undone a' ≠ Undone a → RunID a = lastRunID))
          actions (markUndone lastRunID actions).
Proof.
  induction actions as [|a actions IH]; [constructor|].
  unfold markUndone. rewrite fmap_cons. constructor; [|exact IH].
  destruct (bool_decide (RunID a = lastRunID)) eqn:Hrun, (Undone a) eqn:Hundone; simpl;
    rewrite ?Hundone; repeat split; try done.
  intros _. by apply bool_decide_eq_true in Hrun.
Qed.

(** X17: an undo only ever marks.  On a machine whose file system writes what
    it is asked to, and from a history that can be loaded, the history loaded
    after [undoLastRun], however it ends, has the same entries in the same
    order, each with the account, resource, values, time and run it had; an
    entry that was undone stays undone; and an entry whose mark changed is of
    the run that was chosen. *)
Theorem undo_only_marks (env : Env) (client : ec2.Client) (w : World)
    (history : TagHistory) :
  (∀ history, WriteFileErr env history = None) →
  loadHistory env w = inr history →
  ∃ actions,
    loadHistory env (undoLastRun env client w).1 = inr {| Actions := actions |}
    ∧ Forall2 (λ a a', Account a' = Account a ∧ Resource a' = Resource a
                       ∧ OldValue a' = OldValue a ∧ NewValue a' = NewValue a
                       ∧ Timestamp a' = Timestamp a ∧ RunID a' = RunID a
                       ∧ (Undone a = true → Undone a' = true)
                       ∧ (Undone a' ≠ Undone a
                          → RunID a = findLastRunID (Actions history)))
              (Actions history) actions.
Proof.
  intros Hwrite Hload.
  assert (∀ w', file w' = file w →
            ∃ actions,
              loadHistory env w' = inr {| Actions := actions |}
              ∧ Forall2 (λ a a', Account a' = Account a ∧ Resource a' = Resource a
                                 ∧ OldValue a' = OldValue a ∧ NewValue a' = NewValue a
                                 ∧ Timestamp a' = Timestamp a ∧ RunID a' = RunID a
                                 ∧ (Undone a = true → Undone a' = true)
                                 ∧ (Undone a' ≠ Undone a
                                    → RunID a = findLastRunID (Actions history)))
                        (Actions history) actions) as Hsame.
  { intros w' Hfile. exists (Actions history).
    rewrite (loadHistory_file env w w'), Hload by done. split; [by destruct history|].
    apply Forall2_same_length_lookup. split; [done|].
    intros i a a' Ha Ha'. rewrite Ha in Ha'. injection Ha' as <-. by repeat split. }
  destruct (undoLastRun_cases env client w)
    as [(e & ->)|[(w1 & answer & e & Hread & ->)|[(w1 & response & Hread & _ & ->)
        |(history' & w1 & response & Hload' & Hread & _ & _ & ->)]]];
    [by apply Hsame
    |destruct (ReadString_world w w1 _ Hread) as (_ & _ & Hfile1 & _); by apply Hsame..
    |].
  destruct (ReadString_world w w1 _ Hread) as (_ & _ & Hfile1 & _).
  rewrite Hload in Hload'. injection Hload' as <-. cbv zeta.
  destruct (revertActions_all client
              (collectActionsToUndo (findLastRunID (Actions history)) (Actions history))
              (0, 0, 0) w1) as (_ & _ & Hfile & _).
  destruct (revertActions client _ (0, 0, 0) w1)
    as [w2 [[successCount notFoundCount] errorCount]].
  cbn [fst] in Hfile.
  destruct (saveHistory env _ w2) as [w3 [e|]] eqn:Hsave.
  - apply saveHistory_failed in Hsave as (Hfile2 & _). apply Hsame. cbn [fst].
    by rewrite Hfile2, Hfile.
  - apply saveHistory_saved in Hsave as (Hhome & _ & ->). cbn [fst].
    exists (markUndone (findLastRunID (Actions history)) (Actions history)). split.
    + rewrite <-(loadHistory_saved env _ w2 Hhome). by apply loadHistory_file.
    + apply markUndone_marks.
Qed.

Lemma undo_only_marks_witness :
  ∃ actions,
    loadHistory soundEnv (undoLastRun soundEnv acceptingClient ledgerWorld).1
    = inr {| Actions := actions |}
    ∧ Forall2 (λ a a', Account a' = Account a ∧ Resource a' = Resource a
                       ∧ OldValue a' = OldValue a ∧ NewValue a' = NewValue a
                       ∧ Timestamp a' = Timestamp a ∧ RunID a' = RunID a
                       ∧ (Undone a = true → Undone a' = true)
                       ∧ (Undone a' ≠ Undone a → RunID a = "run-0011223344556677"))
              [recordedEntry "2025-01-26T12:00:10Z" "123456789012" "run-0011223344556677"
                 resourceXY]
              actions.
Proof.
  apply (undo_only_marks soundEnv acceptingClient ledgerWorld
           {| Actions := [recordedEntry "2025-01-26T12:00:10Z" "123456789012"
                            "run-0011223344556677" resourceXY] |}); reflexivity.
Defined.

(** X18: an undo changes nothing unless the operator confirms it.  If
    [undoLastRun] sent a request, changed a tag, changed the history file or
    wrote to it, then its read found a line, that line was a confirmation,
    [y] or [yes] in any case of the letters and with any white space around
    it, and the AWS configuration had loaded.  It fails with
    [no tagging history found], and leaves everything as it is, on a machine
    without a home directory, without a history file, or with an empty
    history. *)
Theorem undo_needs_confirmation (env : Env) (client : ec2.Client) (w : World) :
  (requests (undoLastRun env client w).1 ≠ requests w
   ∨ tags (undoLastRun env client w).1 ≠ tags w
   ∨ file (undoLastRun env client w).1 ≠ file w
   ∨ writes (undoLastRun env client w).1 ≠ writes w →
   ∃ response,
     (bufio.ReadString (stdin w)).1 = inr response ∧ confirms response
     ∧ LoadDefaultConfigErr env = None)
  ∧ (UserHomeDir env = None ∨ file w = Missing ∨ file w = Stored {| Actions := [] |} →
     undoLastRun env client w = (w, Some "no tagging history found"))
  ∧ (∀ response,
       confirms response
       ↔ strings.TrimSpace (strings.ToLower response) = "y"
         ∨ strings.TrimSpace (strings.ToLower response) = "yes")
  ∧ confirms ("Y" +:+ noBreakSpace +:+ String "010" "")
  ∧ ¬ confirms ("yes please" +:+ String "010" "").
Proof.
  split; [|split; [|split; [done|split; [by left|]]]].
  - intros Hchanged.
    destruct (undoLastRun_cases env client w)
      as [(e & Hrun)|[(w1 & answer & e & Hread & Hrun)|[(w1 & response & Hread & _ & Hrun)
          |(history & w1 & response & _ & Hread & Hconfirms & Hconfig & _)]]].
    + rewrite Hrun in Hchanged. cbn [fst] in Hchanged.
      destruct Hchanged as [H|[H|[H|H]]]; by destruct H.
    + destruct (ReadString_world w w1 _ Hread) as (Ht & Hr & Hf & Hw & _).
      rewrite Hrun in Hchanged. cbn [fst] in Hchanged.
      destruct Hchanged as [H|[H|[H|H]]]; by destruct H.
    + destruct (ReadString_world w w1 _ Hread) as (Ht & Hr & Hf & Hw & _).
      rewrite Hrun in Hchanged. cbn [fst requests tags file writes print] in Hchanged.
      destruct Hchanged as [H|[H|[H|H]]]; by destruct H.
    + exists response. split; [|done].
      destruct (ReadString_frame w) as [_ Hanswer]. by rewrite Hread in Hanswer.
  - intros H. unfold undoLastRun.
    assert (loadHistory env w = inr {| Actions := [] |}) as ->; [|done].
    unfold loadHistory. destruct (UserHomeDir env); [|done].
    destruct H as [?|[-> | ->]]; done.
  - intros [H|H]; vm_compute in H; discriminate.
Qed.

(** ** The counts of an undo *)

(** X19: the loop of an undo that reverts never stops early: it sends one
    request per action, in order, whatever the provider answers; and its
    three counts add up to the number of actions: the reverts that the
    provider accepted, those it refused with an error that contains
    [NotFound] or [does not exist], and those it refused otherwise. *)
Theorem revertActions_counts (client : ec2.Client) (actionsToUndo : list TagHistoryEntry)
    (w : World) :
  requests (revertActions client actionsToUndo (0, 0, 0) w).1
  = requests w ++ ((λ a, (Resource a, OldValue a)) <$> actionsToUndo)
  ∧ ∃ successCount notFoundCount errorCount,
      (revertActions client actionsToUndo (0, 0, 0) w).2
      = (successCount, notFoundCount, errorCount)
      ∧ successCount + notFoundCount + errorCount = length actionsToUndo
      ∧ successCount
        = length (List.filter
                    (λ a, bool_decide (ec2.CreateTags client (Resource a) (OldValue a)
                                       = None)) actionsToUndo)
      ∧ notFoundCount
        = length (List.filter
                    (λ a, match ec2.CreateTags client (Resource a) (OldValue a) with
                          | Some e => strings.Contains e "NotFound"
                                      || strings.Contains e "does not exist"
                          | None => false
                          end) actionsToUndo).
Proof.
  split; [apply revertActions_all|].
  assert (∀ counts w,
            (revertActions client actionsToUndo counts w).2
            = (counts.1.1
               + length (List.filter
                           (λ a, bool_decide (ec2.CreateTags client (Resource a) (OldValue a)
                                              = None)) actionsToUndo),
               counts.1.2
               + length (List.filter
                           (λ a, match ec2.CreateTags client (Resource a) (OldValue a) with
                                 | Some e => strings.Contains e "NotFound"
                                             || strings.Contains e "does not exist"
                                 | None => false
                                 end) actionsToUndo),
               counts.2
               + (length actionsToUndo
                  - length (List.filter
                           (λ a, bool_decide (ec2.CreateTags client (Resource a) (OldValue a)
                                              = None)) actionsToUndo)
                  - length (List.filter
                           (λ a, match ec2.CreateTags client (Resource a) (OldValue a) with
                                 | Some e => strings.Contains e "NotFound"
                                             || strings.Contains e "does not exist"
                                 | None => false
                                 end) actionsToUndo)))
            ∧ length (List.filter
                           (λ a, bool_decide (ec2.CreateTags client (Resource a) (OldValue a)
                                              = None)) actionsToUndo)
              + length (List.filter
                           (λ a, match ec2.CreateTags client (Resource a) (OldValue a) with
                                 | Some e => strings.Contains e "NotFound"
                                             || strings.Contains e "does not exist"
                                 | None => false
                                 end) actionsToUndo)
              ≤ length actionsToUndo) as Hcounts.
  { clear w. induction actionsToUndo as [|action rest IH]; intros counts w.
    { destruct counts as [[s n] e]. simpl. split; [|lia].
      apply (f_equal2 pair); [apply (f_equal2 pair)|]; lia. }
    destruct counts as [[s n] e].
    assert ((if bool_decide (OldValue action = "") then "" else OldValue action)
            = OldValue action) as Hvalue.
    { case_bool_decide; congruence. }
    cbn [revertActions]. rewrite Hvalue. unfold createNameTag. cbn [List.filter].
    destruct (ec2.CreateTags client (Resource action) (OldValue action)) as [err|].
    - rewrite bool_decide_false by done.
      destruct (strings.Contains err "NotFound" || strings.Contains err "does not exist");
        match goal with |- context [revertActions client rest ?c ?w0] =>
          destruct (IH c w0) as [-> Hle] end;
        cbn [fst snd length];
        (split; [apply (f_equal2 pair); [apply (f_equal2 pair)|]; lia|lia]).
    - rewrite bool_decide_true by done.
      match goal with |- context [revertActions client rest ?c ?w0] =>
        destruct (IH c w0) as [-> Hle] end.
      cbn [fst snd length].
      split; [apply (f_equal2 pair); [apply (f_equal2 pair)|]; lia|lia]. }
  destruct (Hcounts (0, 0, 0) w) as [-> Hle]. cbn [fst snd].
  eexists _, _, _. split; [reflexivity|]. split; [lia|]. split; reflexivity.
Qed.

(** ** One undo after another *)

Lemma findLastRunID_snoc actions action :
  findLastRunID (actions ++ [action])
  = if Undone action then findLastRunID actions else RunID action.
Proof.
  unfold findLastRunID. rewrite rev_app_distr. simpl. by destruct (Undone action).
Qed.

Lemma markUndone_snoc lastRunID actions action :
  markUndone lastRunID (actions ++ [action])
  = markUndone lastRunID actions ++ markUndone lastRunID [action].
Proof. unfold markUndone. by rewrite fmap_app. Qed.

Lemma markUndone_fewer lastRunID actions action :
  action ∈ actions → RunID action = lastRunID → Undone action = false →
  length (List.filter (λ a, negb (Undone a)) (markUndone lastRunID actions))
  < length (List.filter (λ a, negb (Undone a)) actions).
Proof.
  intros Hin Hrun Hundone.
  assert (∀ l, length (List.filter (λ a, negb (Undone a)) (markUndone lastRunID l))
               ≤ length (List.filter (λ a, negb (Undone a)) l)) as Hle.
  { induction l as [|a l IH]; [done|]. unfold markUndone in *. rewrite fmap_cons.
    cbn [List.filter].
    destruct (bool_decide (RunID a = lastRunID)), (Undone a) eqn:Ha; simpl;
      rewrite ?Ha; simpl; lia. }
  induction Hin as [action l|action a l Hin IH].
  - unfold markUndone. rewrite fmap_cons. cbn [List.filter].
    rewrite Hundone, bool_decide_true by done. simpl.
    specialize (Hle l). unfold markUndone in Hle. lia.
  - unfold markUndone in *. rewrite fmap_cons. cbn [List.filter].
    specialize (IH Hrun Hundone).
    destruct (bool_decide (RunID a = lastRunID)), (Undone a) eqn:Ha; simpl;
      rewrite ?Ha; simpl; lia.
Qed.

Lemma findLastRunID_marked lastRunID actions :
  findLastRunID (markUndone lastRunID actions)
  = findLastRunID (List.filter (λ a, negb (bool_decide (RunID a = lastRunID))) actions).
Proof.
  induction actions as [|action actions IH] using rev_ind; [done|].
  rewrite markUndone_snoc, List.filter_app. cbn [List.filter].
  unfold markUndone at 2. cbn [fmap list_fmap].
  destruct (bool_decide (RunID action = lastRunID)) eqn:Hrun; cbn [negb andb].
  - rewrite app_nil_r, <-IH. rewrite findLastRunID_snoc.
    by destruct (Undone action) eqn:Hundone; cbn [negb Undone]; rewrite ?Hundone.
  - by rewrite !findLastRunID_snoc, IH.
Qed.

Lemma collectActionsToUndo_marked lastRunID actions :
  collectActionsToUndo lastRunID (markUndone lastRunID actions) = [].
Proof.
  pose proof (markUndone_run lastRunID actions) as Hall.
  unfold collectActionsToUndo.
  induction Hall as [|a l Ha Hall IH]; [done|]. cbn [List.filter].
  destruct (bool_decide (RunID a = lastRunID)) eqn:Hrun; [|done].
  apply bool_decide_eq_true in Hrun. by rewrite (Ha Hrun).
Qed.

(** X20: undos walk back through the runs.  Once the entries of the chosen
    run are marked, the run that the next undo chooses is the one it would
    choose in the history without that run; no entry of the marked run is
    left to undo; if the chosen run has an id, fewer entries are left that
    are not undone, so that repeated undos come to an end; and a last entry
    that is not undone and has no run id makes the undo fail with [no undone
    runs found], whatever the entries before it. *)
Theorem undo_walks_back (actions : list TagHistoryEntry) :
  findLastRunID (markUndone (findLastRunID actions) actions)
  = findLastRunID (List.filter (λ a, negb (bool_decide (RunID a = findLastRunID actions)))
                               actions)
  ∧ collectActionsToUndo (findLastRunID actions)
                         (markUndone (findLastRunID actions) actions) = []
  ∧ (findLastRunID actions ≠ "" →
     length (List.filter (λ a, negb (Undone a)) (markUndone (findLastRunID actions) actions))
     < length (List.filter (λ a, negb (Undone a)) actions))
  ∧ (∀ env client w older action newer,
       loadHistory env w = inr {| Actions := actions |} →
       actions = older ++ action :: newer →
       Undone action = false → RunID action = "" →
       Forall (λ a, Undone a = true) newer →
       undoLastRun env client w = (w, Some "no undone runs found")).
Proof.
  split; [|split; [|split]].
  - apply findLastRunID_marked.
  - apply collectActionsToUndo_marked.
  - intros Hlast.
    destruct (decide (Forall (λ a, Undone a = true) actions)) as [Hall|Hsome].
    { by apply findLastRunID_none in Hall. }
    destruct (findLastRunID_found _ Hsome) as (action & Hin & Hundone & Hrun).
    by apply (markUndone_fewer _ _ action).
  - intros env client w older action newer Hload -> Hundone Hrun Hnewer.
    unfold undoLastRun. rewrite Hload. cbn [Actions].
    rewrite (findLastRunID_last older action newer) by done.
    rewrite bool_decide_false; [|rewrite length_app; simpl; lia].
    by rewrite bool_decide_true.
Qed.

(** ** Run ids *)

Lemma digit_inj i j : i < 16 → j < 16 → hex.digit i = hex.digit j → i = j.
Proof.
  intros Hi Hj H.
  do 16 (destruct i as [|i];
         [do 16 (destruct j as [|j];
                 [vm_compute in H; first [reflexivity|discriminate H]|]); lia|]).
  lia.
Qed.

Lemma EncodeToString_cons b bytes :
  hex.EncodeToString (b :: bytes)
  = String (hex.digit (nat_of_ascii b / 16))
           (String (hex.digit (nat_of_ascii b mod 16)) (hex.EncodeToString bytes)).
Proof. reflexivity. Qed.

Lemma String_inj2 a b s a' b' s' :
  String a (String b s) = String a' (String b' s') → a = a' ∧ b = b' ∧ s = s'.
Proof. by intros [= -> -> ->]. Qed.

Lemma EncodeToString_inj bytes1 bytes2 :
  hex.EncodeToString bytes1 = hex.EncodeToString bytes2 → bytes1 = bytes2.
Proof.
  revert bytes2. induction bytes1 as [|b1 bytes1 IH]; intros [|b2 bytes2] H; try done.
  rewrite !EncodeToString_cons in H. apply String_inj2 in H as (Hhi & Hlo & H).
  pose proof (nat_ascii_bounded b1). pose proof (nat_ascii_bounded b2).
  apply digit_inj in Hhi; [|apply Nat.Div0.div_lt_upper_bound; lia..].
  apply digit_inj in Hlo; [|apply Nat.mod_upper_bound; lia..].
  f_equal; [|by apply IH].
  rewrite <-(ascii_nat_embedding b1), <-(ascii_nat_embedding b2). f_equal.
  rewrite (Nat.div_mod_eq (nat_of_ascii b1) 16), (Nat.div_mod_eq (nat_of_ascii b2) 16).
  by rewrite Hhi, Hlo.
Qed.

Lemma length_EncodeToString bytes :
  String.length (hex.EncodeToString bytes) = 2 * length bytes.
Proof.
  induction bytes as [|b bytes IH]; [done|].
  rewrite EncodeToString_cons. cbn [String.length length]. rewrite IH. lia.
Qed.

(** X21: a run id is [run-] followed by something that determines what it
    was made from: by two hexadecimal digits for each random byte, so that
    runs that drew different bytes have different ids; or, when no random
    bytes could be drawn, by the time in seconds, so that such runs have
    different ids unless they start in the same second. *)
Theorem run_ids_tell_runs_apart (bytes1 bytes2 : list ascii) (unix1 unix2 : Z) :
  prefixOf "run-" (generateRunID (Some bytes1) unix1)
  ∧ prefixOf "run-" (generateRunID None unix1)
  ∧ String.length (generateRunID (Some bytes1) unix1) = 4 + 2 * length bytes1
  ∧ (generateRunID (Some bytes1) unix1 = generateRunID (Some bytes2) unix2 → bytes1 = bytes2)
  ∧ (generateRunID None unix1 = generateRunID None unix2 → unix1 = unix2).
Proof.
  unfold generateRunID. split; [by eexists|]. split; [by eexists|]. split; [|split].
  - rewrite length_append, length_EncodeToString. reflexivity.
  - rewrite !append_cons, !append_empty_l. intros [= H]. by apply EncodeToString_inj.
  - rewrite !append_cons, !append_empty_l. intros [= H]. by apply pretty_Z_inj in H.
Qed.

(** ** The version *)

(** Dropping the white space at the front of runes that end with a rune
    that is none leaves that rune at the end. *)
Lemma TrimLeft_snoc runes r bytes :
  unicode.IsSpace r = false →
  ∃ runes', strings.TrimLeft (runes ++ [(r, bytes)]) = runes' ++ [(r, bytes)].
Proof.
  intros Hr. induction runes as [|[r' bytes'] runes IH].
  - exists []. cbn [app strings.TrimLeft]. by rewrite Hr.
  - cbn [app strings.TrimLeft]. destruct (unicode.IsSpace r'); [exact IH|].
    by exists ((r', bytes') :: runes).
Qed.

(** A text that starts with an ASCII byte that is no white space is not
    blank. *)
Lemma TrimSpace_nonblank c s :
  (N_of_ascii c <? 0x80)%N = true → unicode.IsSpace (N_of_ascii c) = false →
  strings.TrimSpace (String c s) ≠ "".
Proof.
  intros Hascii Hc. unfold strings.TrimSpace.
  assert (strings.range 0 (String c s) = (N_of_ascii c, String c "") :: strings.range 0 s)
    as ->.
  { cbn [strings.range utf8.DecodeRuneInString]. by rewrite Hascii. }
  cbn [strings.TrimLeft]. rewrite Hc. cbn [rev].
  destruct (TrimLeft_snoc (rev (strings.range 0 s)) (N_of_ascii c) (String c "") Hc)
    as [runes' ->].
  rewrite rev_app_distr. cbn [rev app fmap list_fmap snd].
  by destruct (snd <$> rev runes').
Qed.

(** X22: the version that [--version] prints is never blank: it is the
    version set at build time unless that is blank, else the full version of
    the package unless that is blank, else [v<major>.<minor>.unknown].  Blank
    is what holds nothing but white space, Unicode's: a version that is a
    no-break space is blank. *)
Theorem resolveVersion_is_not_blank (version Full : string) (Major Minor : Z) :
  strings.TrimSpace (resolveVersion version Full Major Minor) ≠ ""
  ∧ (strings.TrimSpace version ≠ "" → resolveVersion version Full Major Minor = version)
  ∧ (strings.TrimSpace version = "" → strings.TrimSpace Full ≠ "" →
     resolveVersion version Full Major Minor = Full)
  ∧ (strings.TrimSpace version = "" → strings.TrimSpace Full = "" →
     resolveVersion version Full Major Minor
     = "v" +:+ pretty Major +:+ "." +:+ pretty Minor +:+ ".unknown")
  ∧ (strings.TrimSpace Full ≠ "" → resolveVersion noBreakSpace Full Major Minor = Full).
Proof.
  split; [|split; [|split; [|split]]].
  5: { intros Hf. unfold resolveVersion.
       change (strings.TrimSpace noBreakSpace) with "".
       rewrite bool_decide_eq_false_2 by (by intros []).
       by rewrite (bool_decide_eq_true_2 _ Hf). }
  all: unfold resolveVersion.
  all: destruct (bool_decide (strings.TrimSpace version ≠ "")) eqn:Hv;
    [apply bool_decide_eq_true in Hv; done|].
  all: apply bool_decide_eq_false in Hv.
  all: destruct (bool_decide (strings.TrimSpace Full ≠ "")) eqn:Hf;
    [apply bool_decide_eq_true in Hf; done|].
  all: apply bool_decide_eq_false in Hf.
  - by apply TrimSpace_nonblank.
  - done.
  - done.
  - done.
Qed.

(** ** The command *)

Lemma applyTags_loop_requests env config resources accountID runID autoApply n w :
  ∃ k, k ≤ length resources
       ∧ requests (applyTags_loop env config resources accountID runID autoApply n w).1
         = requests w ++ ((λ x, (ID x, SuggestedName x)) <$> take k resources).
Proof.
  revert n w. induction resources as [|x resources IH]; intros n w.
  { exists 0. split; [done|]. by rewrite app_nil_r. }
  cbn [applyTags_loop].
  assert (∃ w0 prompt,
            (if negb autoApply
             then match ReadString w with
                  | (w, inr _) => (w, None)
                  | (w, inl e) => (w, Some ("failed to read user input: " +:+ e))
                  end
             else (w, None)) = (w0, prompt)
            ∧ requests w0 = requests w) as (w0 & prompt & -> & Hr0).
  { destruct autoApply; [by exists w, None|].
    destruct (ReadString w) as [w0 answer] eqn:Hread.
    destruct (ReadString_world w w0 _ Hread) as (_ & ? & _).
    destruct answer; by eexists _, _. }
  destruct prompt as [e|].
  { exists 0. split; [simpl; lia|]. cbn [fst take fmap list_fmap].
    by rewrite app_nil_r. }
  destruct (ec2.CreateTags (EC2Client config) (ID x) (SuggestedName x)) as [e|] eqn:Hx.
  { rewrite (applyTag_failed env config accountID runID x w0 e Hx).
    exists 1. split; [simpl; lia|]. cbn [fst requests print addRequest].
    rewrite Hr0. by destruct resources. }
  destruct (applyTag_written env config accountID runID x w0 Hx) as (He & _ & Hr & _).
  destruct (applyTag env config x accountID runID w0) as [w1 err].
  cbn [fst snd] in *. subst err.
  destruct (IH (S n) w1) as (k & Hk & Hrequests).
  exists (S k). split; [simpl; lia|].
  rewrite Hrequests, Hr, Hr0, <-List.app_assoc. reflexivity.
Qed.

(** What [selectResources] leaves of the input, and when it lets the tags be
    applied without confirmation *)
Lemma selectResources_input resources w line rest selected autoApply :
  bufio.ReadString (stdin w) = (inr line, rest) →
  (selectResources resources w).2 = inr (selected, autoApply) →
  stdin (selectResources resources w).1 = rest
  ∧ (autoApply = true → strings.ToLower (strings.TrimSpace line) = "all").
Proof.
  intros Hread. unfold selectResources.
  destruct (ReadString_frame w) as [Hw0 Hanswer]. rewrite Hread in Hw0, Hanswer.
  destruct (ReadString w) as [w0 answer]. cbn [fst snd] in Hw0, Hanswer. subst w0 answer.
  destruct (bool_decide (strings.TrimSpace line = "")); [by intros [= <- <-]|].
  destruct (bool_decide (strings.ToLower (strings.TrimSpace line) = "all")) eqn:Hall.
  { apply bool_decide_eq_true in Hall. by intros [= <- <-]. }
  destruct (selectPart_loop resources (strings.Split (strings.TrimSpace line) ",")
              (setStdin w rest) []) as (_ & _ & _ & _ & Hi & _).
  destruct (foldl _ _ _) as [w1 chosen]. cbn [fst snd] in *.
  intros [= <- <-]. split; [|done]. by destruct (bool_decide (length chosen = 0)).
Qed.

(** X23: a run of the command without [--undo] sends tag requests for
    listed resources only: the requests it sends are those for the first
    resources of the selection that [selectResources] made from the listing
    that [findUntaggedResources] returned for the region of the command line,
    each with the name suggested there, in the order of the selection.  With
    [--version] the command prints the version and does nothing else,
    whatever the other flags; and with [--undo], without [--version], it
    does what [undoLastRun] does with the client of the default
    configuration, whatever the region of the command line, and ends with
    the error of the undo, if any.  The answers have to arrive one by one:
    when the whole input arrives in one chunk and its first line does not say
    [all], the reader of the selection takes the chunk, the first prompt of
    [applyTags] finds the input at its end, and no tag request is sent. *)
Theorem main_tags_listed_resources_only
    (sortSlice : (ResourceInfo → ResourceInfo → bool) → list ResourceInfo
                 → list ResourceInfo)
    (rangeKeys : gset string → list string) (env : Env)
    (flags : Flags) (p : Process) (w : World) :
  (undoFlag flags = false →
   ∃ tagged,
     requests (main sortSlice rangeKeys env flags p w).1
     = requests w ++ ((λ x, (ID x, SuggestedName x)) <$> tagged)
     ∧ (tagged = []
        ∨ ∃ client untaggedResources selected autoApply k,
            LoadDefaultConfig p (region flags) = inr client
            ∧ findUntaggedResources sortSlice rangeKeys
                {| EC2Client := client; Region := region flags;
                   PrivateMode := privateMode flags |} = Ok untaggedResources
            ∧ (selectResources untaggedResources w).2 = inr (selected, autoApply)
            ∧ tagged = take k selected
            ∧ Forall (λ x, x ∈ untaggedResources) tagged))
  ∧ (showVersion flags = true →
     main sortSlice rangeKeys env flags p w
     = (w, PrintedVersion (resolveVersion (version p) (versionFull p)
                                          (versionMajor p) (versionMinor p))))
  ∧ (showVersion flags = false → undoFlag flags = true →
     main sortSlice rangeKeys env flags p w
     = ((undoLastRun env (DefaultClient p) w).1,
        match (undoLastRun env (DefaultClient p) w).2 with
        | Some e => Fatal e
        | None => UndoReturned
        end))
  ∧ (∀ line more,
       undoFlag flags = false →
       stdin w = [line +:+ String "010" more] →
       ¬ substringOf (String "010" "") line →
       String.length (line +:+ String "010" more) ≤ bufio.defaultBufSize →
       strings.ToLower (strings.TrimSpace (line +:+ String "010" "")) ≠ "all" →
       requests (main sortSlice rangeKeys env flags p w).1 = requests w).
Proof.
  split; [|split; [intros Hversion; unfold main; by rewrite Hversion|split]].
  2:{ intros Hversion Hundo. unfold main. rewrite Hversion, Hundo.
      by destruct (undoLastRun env (DefaultClient p) w) as [w' [e|]]. }
  2:{ intros line more Hundo Hchunk Hline Hfits Hnotall. unfold main. rewrite Hundo.
      destruct (showVersion flags); [done|].
      destruct (LoadDefaultConfig p (region flags)) as [e|client]; [done|].
      destruct (GetCallerIdentity p) as [e|callerIdentity]; [done|].
      destruct (printHeader (privateMode flags) callerIdentity); [|done..].
      destruct (findUntaggedResources _ _ _) as [untaggedResources| |]; [|done..].
      destruct (bool_decide (length untaggedResources = 0)); [done|].
      destruct (selection_frame untaggedResources w) as (Hr & _).
      assert (bufio.ReadString (stdin w) = (inr (line +:+ String "010" ""), [])) as Hread.
      { rewrite Hchunk. by apply ReadString_chunk. }
      pose proof (λ selected autoApply,
                    selectResources_input untaggedResources w _ _ selected autoApply Hread)
        as Hinput.
      destruct (selectResources untaggedResources w) as [w1 [e|[selected autoApply]]];
        cbn [fst snd] in *; [done|].
      destruct (Hinput selected autoApply eq_refl) as [Hleft Hauto].
      destruct (bool_decide (length selected = 0)); [done|].
      destruct (deref (GetCallerIdentityOutput.Account callerIdentity)) as [accountID| |];
        [|done..].
      destruct autoApply; [by destruct Hnotall; apply Hauto|].
      unfold applyTags. destruct selected as [|x selected]; [done|].
      cbn [applyTags_loop negb]. unfold ReadString. rewrite Hleft.
      change (bufio.ReadString []) with (@inl string string "EOF", @nil string).
      cbn [fst requests setStdin]. exact Hr. }
  intros Hundo. unfold main. rewrite Hundo.
  assert (∀ P : list ResourceInfo → Prop,
            ∃ tagged : list ResourceInfo,
              requests w = requests w ++ ((λ x, (ID x, SuggestedName x)) <$> tagged)
              ∧ (tagged = [] ∨ P tagged)) as Hnone.
  { intros P. exists []. split; [by rewrite app_nil_r|by left]. }
  destruct (showVersion flags); [apply Hnone|].
  destruct (LoadDefaultConfig p (region flags)) as [e|client] eqn:Hconfig; [apply Hnone|].
  destruct (GetCallerIdentity p) as [e|callerIdentity]; [apply Hnone|].
  destruct (printHeader (privateMode flags) callerIdentity); [|apply Hnone..].
  destruct (findUntaggedResources _ _ _) as [untaggedResources| |] eqn:Hscan;
    [|apply Hnone..].
  destruct (bool_decide (length untaggedResources = 0)); [apply Hnone|].
  destruct (selection_frame untaggedResources w) as (Hr & Hselected).
  destruct (selectResources untaggedResources w) as [w1 [e|[selected autoApply]]]
    eqn:Hselect; cbn [fst snd] in *; [rewrite Hr; apply Hnone|].
  destruct (bool_decide (length selected = 0)); [cbn [fst]; rewrite Hr; apply Hnone|].
  destruct (deref (GetCallerIdentityOutput.Account callerIdentity)) as [accountID| |];
    [|cbn [fst]; rewrite Hr; apply Hnone..].
  unfold applyTags.
  destruct (applyTags_loop_requests env
              {| EC2Client := client; Region := region flags;
                 PrivateMode := privateMode flags |}
              selected accountID (generateRunID (randRead p) (unix p)) autoApply 0 w1)
    as (k & _ & Hrequests).
  assert (∃ tagged : list ResourceInfo,
            requests (applyTags_loop env
                        {| EC2Client := client; Region := region flags;
                           PrivateMode := privateMode flags |}
                        selected accountID (generateRunID (randRead p) (unix p))
                        autoApply 0 w1).1
            = requests w ++ ((λ x, (ID x, SuggestedName x)) <$> tagged)
            ∧ (tagged = []
               ∨ ∃ client0 untaggedResources0 selected0 autoApply0 k0,
                   @inr string ec2.Client client = inr client0
                   ∧ findUntaggedResources sortSlice rangeKeys
                       {| EC2Client := client0; Region := region flags;
                          PrivateMode := privateMode flags |} = Ok untaggedResources0
                   ∧ (selectResources untaggedResources0 w).2 = inr (selected0, autoApply0)
                   ∧ tagged = take k0 selected0
                   ∧ Forall (λ x, x ∈ untaggedResources0) tagged)) as Hsome.
  { exists (take k selected). split; [by rewrite Hrequests, Hr|]. right.
    exists client, untaggedResources, selected, autoApply, k.
    split; [done|]. split; [done|]. split; [by rewrite Hselect|]. split; [done|].
    by apply Forall_take. }
  by destruct (applyTags_loop _ _ _ _ _ _ _ _) as [w2 [e|]].
Qed.

Lemma main_tags_listed_resources_only_witness :
  requests (main mergeSortSlice elements soundEnv plainFlags knownProcess worldOfAll).1
  = [("eni-0123456789abcdef0", "unattached-eni");
     ("i-0123456789abcdef0", "instance-ami-0123456789abcdef0")]
  ∧ ∃ tagged,
      requests (main mergeSortSlice elements soundEnv plainFlags knownProcess worldOfAll).1
      = requests worldOfAll ++ ((λ x, (ID x, SuggestedName x)) <$> tagged)
      ∧ (tagged = []
         ∨ ∃ client untaggedResources selected autoApply k,
             LoadDefaultConfig knownProcess (region plainFlags) = inr client
             ∧ findUntaggedResources mergeSortSlice elements
                 {| EC2Client := client; Region := region plainFlags;
                    PrivateMode := privateMode plainFlags |} = Ok untaggedResources
             ∧ (selectResources untaggedResources worldOfAll).2 = inr (selected, autoApply)
             ∧ tagged = take k selected
             ∧ Forall (λ x, x ∈ untaggedResources) tagged).
Proof.
  split; [vm_compute; reflexivity|].
  apply (main_tags_listed_resources_only mergeSortSlice elements soundEnv plainFlags
           knownProcess worldOfAll). reflexivity.
Defined.
